(** * A shallow embedding of the character LCD driver (lcd.h, lcd.c)

    The driver state [lcdDriver_t] is a record of C scalars; every field is
    modelled as a [Z] inside the range of its C type, with conversions on
    assignment written out.  The two caller supplied collaborators (bus I/O
    and delay) are modelled by one function giving the integer returned by
    the k-th collaborator call; the calls made so far are recorded in a
    trace.  Driver operations are computations in a small state monad whose
    outcomes are a C return value, a failed [assert], or exhausted fuel (the
    busy-flag poll of the source is an unbounded [do ... while]). *)

From Stdlib Require Import ZArith List Bool Lia.
Import ListNotations.
Local Open Scope Z_scope.

(** ** C integer conversions *)

Definition to_uint8 (z : Z) : Z := z mod 256.
Definition to_int8 (z : Z) : Z := (z + 128) mod 256 - 128.

Definition is_uint8 (z : Z) : Prop := 0 <= z < 256.
Definition is_int8 (z : Z) : Prop := -128 <= z < 128.

(** C's [!!e] on a [bool] argument. *)
Definition b2z (b : bool) : Z := if b then 1 else 0.

(** ** Constants and raw command encodings (lcd.h) *)

Definition EIO : Z := 5.

Definition LCD_CMD_CLEAR : Z := 1.
Definition LCD_CMD_HOME : Z := 2.
Definition LCD_CMD_ENTRY (dir s : bool) : Z :=
  Z.lor (Z.lor 4 (Z.shiftl (b2z dir) 1)) (b2z s).
Definition LCD_CMD_DISPLAY (f c b : bool) : Z :=
  Z.lor (Z.lor (Z.lor 8 (Z.shiftl (b2z f) 2)) (Z.shiftl (b2z c) 1)) (b2z b).
Definition LCD_CMD_CURSOR (s r : bool) : Z :=
  Z.lor (Z.lor 16 (Z.shiftl (b2z s) 3)) (Z.shiftl (b2z r) 2).
Definition LCD_CMD_FUNCTION (b n f : bool) : Z :=
  Z.lor (Z.lor (Z.lor 32 (Z.shiftl (b2z b) 4)) (Z.shiftl (b2z n) 3))
        (Z.shiftl (b2z f) 2).
Definition LCD_CMD_CADDR (addr : Z) : Z := Z.lor 64 (Z.land addr 63).
Definition LCD_CMD_DADDR (addr : Z) : Z := Z.lor 128 (Z.land addr 127).

Definition LCD_TIMING_ADDRESS_SETUP : Z := 10.
Definition LCD_TIMING_ENABLE_HOLD : Z := 10.
Definition LCD_TIMING_DATA_HOLD : Z := 10.
Definition LCD_TIMING_BUSY_INTERVAL : Z := 50.
Definition LCD_TIMING_BUSY_HOLD_SHORT : Z := 500.
Definition LCD_TIMING_BUSY_HOLD_LONG : Z := 50000.

(** ** The driver structure *)

Record dimensions_t := mkDimensions {
  width : Z;    (* uint8_t *)
  height : Z    (* uint8_t *)
}.

Record busTiming_t := mkBusTiming {
  addressSetup : Z;   (* uint32_t *)
  enableHold : Z;
  dataHold : Z;
  busyInterval : Z;
  busyHoldShort : Z;
  busyHoldLong : Z
}.

Record cursor_t := mkCursor {
  x : Z;   (* int8_t *)
  y : Z    (* int8_t *)
}.

Record lcdDriver_t := mkDriver {
  error : Z;
  dimensions : dimensions_t;
  fourBits : bool;
  writeOnly : bool;
  largeFont : bool;
  busTiming : busTiming_t;
  cursor : cursor_t;
  direction : bool
}.

Definition set_error (e : Z) (d : lcdDriver_t) : lcdDriver_t :=
  mkDriver e (dimensions d) (fourBits d) (writeOnly d) (largeFont d)
           (busTiming d) (cursor d) (direction d).

Definition set_cursor (c : cursor_t) (d : lcdDriver_t) : lcdDriver_t :=
  mkDriver (error d) (dimensions d) (fourBits d) (writeOnly d) (largeFont d)
           (busTiming d) c (direction d).

Definition set_direction (b : bool) (d : lcdDriver_t) : lcdDriver_t :=
  mkDriver (error d) (dimensions d) (fourBits d) (writeOnly d) (largeFont d)
           (busTiming d) (cursor d) b.

Definition set_busTiming (t : busTiming_t) (d : lcdDriver_t) : lcdDriver_t :=
  mkDriver (error d) (dimensions d) (fourBits d) (writeOnly d) (largeFont d)
           t (cursor d) (direction d).

(** [lcdLoadDefaultTiming] *)
Definition lcdLoadDefaultTiming (d : lcdDriver_t) : lcdDriver_t :=
  set_busTiming
    (mkBusTiming LCD_TIMING_ADDRESS_SETUP LCD_TIMING_ENABLE_HOLD
                 LCD_TIMING_DATA_HOLD LCD_TIMING_BUSY_INTERVAL
                 LCD_TIMING_BUSY_HOLD_SHORT LCD_TIMING_BUSY_HOLD_LONG) d.

(** Every field holds a value of its C type. *)
Definition well_typed (d : lcdDriver_t) : Prop :=
  is_uint8 (width (dimensions d)) /\ is_uint8 (height (dimensions d)) /\
  is_int8 (x (cursor d)) /\ is_int8 (y (cursor d)).

(** The invariant the data model puts on the dimensions. *)
Definition valid_dimensions (d : lcdDriver_t) : Prop :=
  1 <= width (dimensions d) /\ 1 <= height (dimensions d) /\
  width (dimensions d) * height (dimensions d) <= 80.

(** Dimensions whose every column and row index fits the [int8_t] cursor
    with room for the transient value one past the end. *)
Definition cursor_dimensions (d : lcdDriver_t) : Prop :=
  1 <= width (dimensions d) <= 127 /\ 1 <= height (dimensions d) <= 127.

(** The cursor invariant. *)
Definition valid_cursor (d : lcdDriver_t) : Prop :=
  0 <= x (cursor d) < width (dimensions d) /\
  0 <= y (cursor d) < height (dimensions d).

(** ** Cursor model *)

(** [LCD_DECODE_CURSOR]: evaluated in [int]; [%] is C's truncating
    remainder and the comparison yields 0 or 1. *)
Definition LCD_DECODE_CURSOR (d : lcdDriver_t) : Z :=
  x (cursor d) +
  (64 * Z.rem (y (cursor d)) 2 +
   width (dimensions d) * b2z (y (cursor d) >=? 2)).

(** [lcdUpdateCursor]: the increments are computed in [int] and stored back
    into the [int8_t] fields. *)
Definition lcdUpdateCursor (d : lcdDriver_t) : lcdDriver_t :=
  let w := width (dimensions d) in
  let h := height (dimensions d) in
  let cx := x (cursor d) in
  let cy := y (cursor d) in
  if direction d then
    let cx1 := to_int8 (cx + 1) in
    if cx1 >=? w then
      let cy1 := to_int8 (cy + 1) in
      if cy1 >=? h then set_cursor (mkCursor 0 0) d
      else set_cursor (mkCursor 0 cy1) d
    else set_cursor (mkCursor cx1 cy) d
  else
    let cx1 := to_int8 (cx - 1) in
    if cx1 <? 0 then
      let cy1 := to_int8 (cy - 1) in
      if cy1 <? 0 then set_cursor (mkCursor (to_int8 (w - 1)) (to_int8 (h - 1))) d
      else set_cursor (mkCursor (to_int8 (w - 1)) cy1) d
    else set_cursor (mkCursor cx1 cy) d.

(** ** Collaborators, traces and the driver monad *)

(** One call of a collaborator: [lcdBusIO(driver, rw, rs, en, data)] or
    [lcdDelay(driver, delay)]. *)
Inductive event :=
| BusIO (rw rs en : bool) (data : Z)
| Delay (us : Z).

(** A collaborator call fails when [lcdBusIO] returns a negative value or
    [lcdDelay] a non-zero one. *)
Definition call_failed (c : event * Z) : bool :=
  match fst c with
  | BusIO _ _ _ _ => snd c <? 0
  | Delay _ => negb (snd c =? 0)
  end.

Record world := mkWorld {
  drv : lcdDriver_t;
  trace : list (event * Z)     (* calls made so far, with their results *)
}.

Inductive outcome (A : Type) :=
| Ret (a : A) (w : world)      (* the function returned [a] *)
| AssertFail (w : world)       (* an [assert] failed in state [w] *)
| OutOfFuel.                   (* the busy poll was cut off *)
Arguments Ret {A} a w.
Arguments AssertFail {A} w.
Arguments OutOfFuel {A}.

Definition M (A : Type) : Type := world -> outcome A.

Definition ret {A} (a : A) : M A := fun w => Ret a w.

Definition bind {A B} (m : M A) (k : A -> M B) : M B :=
  fun w =>
    match m w with
    | Ret a w' => k a w'
    | AssertFail w' => AssertFail w'
    | OutOfFuel => OutOfFuel
    end.

Notation "v <- m ;; k" := (bind m (fun v => k))
  (at level 61, m at next level, right associativity).
Notation "m ;;; k" := (bind m (fun _ => k))
  (at level 61, right associativity).

Definition get_driver : M lcdDriver_t := fun w => Ret (drv w) w.
Definition modify_driver (f : lcdDriver_t -> lcdDriver_t) : M unit :=
  fun w => Ret tt (mkWorld (f (drv w)) (trace w)).
Definition c_assert (b : bool) : M unit :=
  fun w => if b then Ret tt w else AssertFail w.

(** The state left by a computation, when it leaves one. *)
Definition final_world {A} (o : outcome A) : option world :=
  match o with
  | Ret _ w => Some w
  | AssertFail w => Some w
  | OutOfFuel => None
  end.

Definition events (w : world) : list event := map fst (trace w).

(** C truth value of an [int]. *)
Definition truthy (z : Z) : bool := negb (z =? 0).

Section Driver.

(** [io k e] is what the collaborator returns when its k-th call (counted
    from 0 over both collaborators) is [e]. *)
Variable io : nat -> event -> Z.

Definition call (e : event) : M Z :=
  fun w =>
    let r := io (length (trace w)) e in
    Ret r (mkWorld (drv w) (trace w ++ [(e, r)])).

(** [lcdBusIO] and [lcdDelay] forward to the collaborator; the handler
    pointers they assert to be non-null are taken to be set, and the
    collaborators not to modify the driver structure they are passed. *)
Definition lcdBusIO (rw rs en : bool) (data : Z) : M Z :=
  call (BusIO rw rs en data).
Definition lcdDelay (delay : Z) : M Z := call (Delay delay).

(** A chain [c1 || c2 || ...] of collaborator calls, each compared the way
    the source does ([< 0] for bus I/O, [!= 0] for delays): the calls are
    made in order up to the first failing one. *)
Fixpoint any_failed (es : list event) : M bool :=
  match es with
  | [] => ret false
  | e :: es' =>
      r <- call e ;;
      if call_failed (e, r) then ret true else any_failed es'
  end.

(** The common failure exit: [driver->error = EIO; return -1;]. *)
Definition io_failed : M Z :=
  modify_driver (set_error EIO) ;;; ret (-1).

(** One full write cycle of [v] with register select [rs]. *)
Definition write_cycle (d : lcdDriver_t) (rs : bool) (v : Z) : list event :=
  [ BusIO false rs false v; Delay (addressSetup (busTiming d));
    BusIO false rs true v;  Delay (enableHold (busTiming d));
    BusIO false rs false v; Delay (dataHold (busTiming d)) ].

(** One iteration of the busy poll, up to the loop condition: [Some value]
    when every call succeeded, [None] when one failed. *)
Definition poll_once (d : lcdDriver_t) : M (option Z) :=
  f1 <- any_failed [ Delay (busyInterval (busTiming d));
                     BusIO true false true 0;
                     Delay (enableHold (busTiming d)) ] ;;
  if f1 then ret None else
  value <- lcdBusIO true false true 0 ;;
  if value <? 0 then ret None else
  f2 <- any_failed
          (BusIO true false false 0 ::
           if fourBits d then
             [ Delay (dataHold (busTiming d)); BusIO true false true 0;
               Delay (enableHold (busTiming d)); BusIO true false false 0 ]
           else []) ;;
  if f2 then ret None else ret (Some value).

(** The [do ... while (value & (1 << 7))] loop followed by the final
    [return lcdBusIO(driver, 0, 0, 0, 0)]. *)
Fixpoint busy_poll (fuel : nat) (d : lcdDriver_t) : M Z :=
  match fuel with
  | O => fun _ => OutOfFuel
  | S fuel' =>
      r <- poll_once d ;;
      match r with
      | None => io_failed
      | Some value =>
          if Z.testbit value 7 then busy_poll fuel' d
          else lcdBusIO false false false 0
      end
  end.

(** What follows the byte transfer in [lcdCommand] and [lcdWrite]. *)
Definition wait_ready (fuel : nat) (d : lcdDriver_t) : M Z :=
  if writeOnly d then lcdDelay (busyHoldShort (busTiming d))
  else
    f <- any_failed [ BusIO true false false 0;
                      Delay (addressSetup (busTiming d)) ] ;;
    if f then io_failed else busy_poll fuel d.

(** The body shared, text for text, by [lcdCommand] ([rs = 0]) and
    [lcdWrite] ([rs = 1]). *)
Definition transfer (fuel : nat) (rs : bool) (byte : Z) : M Z :=
  d <- get_driver ;;
  f <- any_failed (write_cycle d rs byte) ;;
  if f then io_failed else
  f' <- (if fourBits d
         then any_failed (write_cycle d rs (to_uint8 (Z.shiftl byte 4)))
         else ret false) ;;
  if f' then io_failed else wait_ready fuel d.

(** The byte parameters are [uint8_t]: the argument is converted on entry. *)
Definition lcdCommand (fuel : nat) (command : Z) : M Z :=
  transfer fuel false (to_uint8 command).

Definition lcdWrite (fuel : nat) (data : Z) : M Z :=
  transfer fuel true (to_uint8 data).

(** C's [a || b] on two calls returning [int]. *)
Definition test (m : M Z) : M bool := r <- m ;; ret (truthy r).
Definition c_or (a b : M bool) : M bool :=
  r <- a ;; if r then ret true else b.

Definition to_uint32 (z : Z) : Z := z mod 4294967296.

Definition lcdInit4Bit (fuel : nat) : M Z :=
  d <- get_driver ;;
  let t := busTiming d in
  let cmd := LCD_CMD_FUNCTION true false false in
  f <- any_failed
         [ BusIO false false false cmd; Delay (addressSetup t);
           BusIO false false true cmd;  Delay (enableHold t);
           BusIO false false false cmd; Delay 5000;

           BusIO false false false cmd; Delay (addressSetup t);
           BusIO false false true cmd;  Delay (enableHold t);
           BusIO false false false cmd; Delay 100;

           BusIO false false true cmd;  Delay (enableHold t);
           BusIO false false false cmd; Delay (dataHold t) ] ;;
  if f then io_failed else
  let cmd := LCD_CMD_FUNCTION false false false in
  f' <- any_failed
          [ BusIO false false false cmd; Delay (addressSetup t);
            BusIO false false true cmd;  Delay (enableHold t);
            BusIO false false false cmd;
            Delay (to_uint32 (dataHold t + 100)) ] ;;
  if f' then io_failed else lcdCommand fuel cmd.

Definition lcdClear (fuel : nat) : M Z :=
  d <- get_driver ;;
  f <- c_or (test (lcdCommand fuel LCD_CMD_CLEAR))
            (test (lcdDelay (busyHoldShort (busTiming d)))) ;;
  if f then ret (-1)
  else modify_driver (set_cursor (mkCursor 0 0)) ;;; ret 0.

Definition lcdHome (fuel : nat) : M Z :=
  d <- get_driver ;;
  f <- c_or (test (lcdCommand fuel LCD_CMD_HOME))
            (test (lcdDelay (busyHoldLong (busTiming d)))) ;;
  if f then ret (-1)
  else modify_driver (set_cursor (mkCursor 0 0)) ;;; ret 0.

Definition lcdDirection (fuel : nat) (forward : bool) : M Z :=
  d <- get_driver ;;
  f <- c_or (test (lcdCommand fuel (LCD_CMD_ENTRY forward false)))
            (test (lcdDelay (busyHoldShort (busTiming d)))) ;;
  if f then ret (-1)
  else modify_driver (set_direction forward) ;;; ret 0.

Definition lcdInit (fuel : nat) : M Z :=
  modify_driver (set_cursor (mkCursor 0 0)) ;;;
  d <- get_driver ;;
  f <- (if fourBits d then
          c_or (test (lcdInit4Bit fuel))
            (c_or (test (lcdCommand fuel
                           (LCD_CMD_FUNCTION false
                              (height (dimensions d) >? 1) (largeFont d))))
                  (test (lcdDelay (busyHoldShort (busTiming d)))))
        else ret false) ;;
  if f then ret (-1) else
  c_assert (fourBits d) ;;;       (* [else if (!fourBits) assert(false);] *)
  lcdClear fuel.

(** The cursor-addressing command used all over lcd.h. *)
Definition cmd_cursor_address : M Z :=
  d <- get_driver ;; ret (LCD_CMD_DADDR (LCD_DECODE_CURSOR d)).

Definition lcdNext (fuel : nat) : M Z :=
  modify_driver lcdUpdateCursor ;;;
  c <- cmd_cursor_address ;;
  r <- lcdCommand fuel c ;;
  if truthy r then ret (-1) else ret 0.

Definition lcdSetDisplay (fuel : nat) (display cur blink : bool) : M Z :=
  lcdCommand fuel (LCD_CMD_DISPLAY display cur blink).

(** [column] and [row] are [uint8_t]; storing them into the [int8_t]
    cursor converts them. *)
Definition lcdSetCursor (fuel : nat) (column row : Z) : M Z :=
  d <- get_driver ;;
  c_assert (width (dimensions d) >? column) ;;;
  c_assert (height (dimensions d) >? row) ;;;
  modify_driver (set_cursor (mkCursor (to_int8 column) (to_int8 row))) ;;;
  d' <- get_driver ;;
  let address := to_uint8 (LCD_DECODE_CURSOR d') in
  lcdCommand fuel (LCD_CMD_DADDR address).

(** The [for] loop of [lcdStoreGlyph] over [bits[i]], [i < n]. *)
Fixpoint write_bytes (fuel : nat) (bytes : list Z) : M Z :=
  match bytes with
  | [] => ret 0
  | b :: bytes' =>
      r <- lcdWrite fuel b ;;
      if truthy r then ret (-1) else write_bytes fuel bytes'
  end.

(** [which] is a [char]; [bits] points to at least 10 (large font) or 8
    bytes, of which that many are sent. *)
Definition lcdStoreGlyph (fuel : nat) (which : Z) (bits : list Z) : M Z :=
  d <- get_driver ;;
  c_assert ((largeFont d && (Z.shiftr which 1 <? 4)) || (which <? 8)) ;;;
  let address :=
    to_uint8 (Z.shiftl (if largeFont d then Z.land which 6 else which) 3) in
  r <- lcdCommand fuel (LCD_CMD_CADDR address) ;;
  if truthy r then ret (-1) else
  write_bytes fuel (firstn (if largeFont d then 10 else 8) bits).

Definition lcdPutChar (fuel : nat) (chr : Z) : M Z :=
  c <- cmd_cursor_address ;;
  f <- c_or (test (lcdCommand fuel c)) (test (lcdWrite fuel chr)) ;;
  if f then ret (-1) else
  modify_driver lcdUpdateCursor ;;;
  c' <- cmd_cursor_address ;;
  lcdCommand fuel c'.

(** The [for] loop of [lcdPutString]; [address] is the local [uint8_t]. *)
Fixpoint put_chars (fuel : nat) (str : list Z) (address : Z) : M Z :=
  match str with
  | [] => lcdCommand fuel (LCD_CMD_DADDR address)
  | c :: str' =>
      r <- lcdWrite fuel c ;;
      if truthy r then ret (-1) else
      modify_driver lcdUpdateCursor ;;;
      d <- get_driver ;;
      let newaddr := to_uint8 (LCD_DECODE_CURSOR d) in
      f <- (if negb (newaddr =? address + 1)
            then test (lcdCommand fuel (LCD_CMD_DADDR address))
            else ret false) ;;
      if f then ret (-1) else put_chars fuel str' newaddr
  end.

(** [str] holds the [length] characters the source reads. *)
Definition lcdPutString (fuel : nat) (str : list Z) : M Z :=
  d <- get_driver ;;
  let address := to_uint8 (LCD_DECODE_CURSOR d) in
  r <- lcdCommand fuel (LCD_CMD_DADDR address) ;;
  if truthy r then ret (-1) else put_chars fuel str address.

End Driver.

(** A driver entering an operation with nothing on the bus yet. *)
Definition start (d : lcdDriver_t) : world := mkWorld d [].

(** * Vocabulary of the properties *)

(** The decoder, as a function of the dimensions and the position. *)
Definition address_of (w col row : Z) : Z :=
  col + 64 * (row mod 2) + w * (if row >=? 2 then 1 else 0).

(** A driver with the given dimensions and cursor; the other fields are
    those of [d]. *)
Definition at_position (d : lcdDriver_t) (col row : Z) : lcdDriver_t :=
  set_cursor (mkCursor col row) d.

(** A driver to run examples on: 4-bit bus, default timing, cursor at the
    origin, forward direction. *)
Definition sample_driver (w h : Z) (wo : bool) : lcdDriver_t :=
  lcdLoadDefaultTiming
    (mkDriver 0 (mkDimensions w h) true wo false
              (mkBusTiming 0 0 0 0 0 0) (mkCursor 0 0) true).

(** No recorded call failed. *)
Definition clean (l : list (event * Z)) : bool :=
  forallb (fun c => negb (call_failed c)) l.

(** Only the last recorded call may be a failing one. *)
Definition almost_clean (l : list (event * Z)) : bool :=
  clean (removelast l).

(** The answers to the calls [es] made from call number [k] on. *)
Fixpoint respond (io : nat -> event -> Z) (k : nat) (es : list event)
  : list (event * Z) :=
  match es with
  | [] => []
  | e :: es' => (e, io k e) :: respond io (S k) es'
  end.

(** The calls of [es] actually made: up to the first failing one. *)
Fixpoint attempted (io : nat -> event -> Z) (k : nat) (es : list event)
  : list (event * Z) :=
  match es with
  | [] => []
  | e :: es' =>
      if call_failed (e, io k e) then [(e, io k e)]
      else (e, io k e) :: attempted io (S k) es'
  end.

(** [sound okv m]: the calls [m] adds to the trace are all successful except
    possibly the last, and all successful when [m] returns a value its
    caller goes on with ([okv]) or stops at an assertion. *)
Definition sound {A} (okv : A -> bool) (m : M A) : Prop :=
  forall w,
    match m w with
    | Ret a w' =>
        exists l, trace w' = trace w ++ l /\ almost_clean l = true /\
                  (okv a = true -> clean l = true)
    | AssertFail w' => exists l, trace w' = trace w ++ l /\ clean l = true
    | OutOfFuel => True
    end.

(** [quiet okv m]: [m] returns without any call, with a value that stops
    the caller. *)
Definition quiet {A} (okv : A -> bool) (m : M A) : Prop :=
  forall w, exists a w', m w = Ret a w' /\ trace w' = trace w /\ okv a = false.

Definition zero (r : Z) : bool := r =? 0.
Definition always {A} (_ : A) : bool := true.

Definition polled (o : option Z) : bool :=
  match o with Some _ => true | None => false end.

(** [keeps I p m]: started in a driver state satisfying [I], [m] leaves a
    state satisfying [I] (also at a failed assertion) and every call it adds
    to the trace satisfies [p]. *)
Definition keeps {A} (I : lcdDriver_t -> Prop) (p : event * Z -> Prop)
           (m : M A) : Prop :=
  forall w, I (drv w) ->
    match final_world (m w) with
    | Some w' => I (drv w') /\ exists l, trace w' = trace w ++ l /\ Forall p l
    | None => True
    end.

(** One cursor advance in a fixed direction. *)
Definition advance_forward (d : lcdDriver_t) : lcdDriver_t :=
  lcdUpdateCursor (set_direction true d).
Definition advance_backward (d : lcdDriver_t) : lcdDriver_t :=
  lcdUpdateCursor (set_direction false d).

(** The operations of the driver, as one type. *)
Inductive operation :=
| OpCommand (command : Z)
| OpWrite (data : Z)
| OpInit
| OpClear
| OpHome
| OpDirection (forward : bool)
| OpNext
| OpSetDisplay (display cur blink : bool)
| OpSetCursor (column row : Z)
| OpStoreGlyph (which : Z) (bits : list Z)
| OpPutChar (chr : Z)
| OpPutString (str : list Z).

Definition run (io : nat -> event -> Z) (fuel : nat) (op : operation) : M Z :=
  match op with
  | OpCommand c => lcdCommand io fuel c
  | OpWrite v => lcdWrite io fuel v
  | OpInit => lcdInit io fuel
  | OpClear => lcdClear io fuel
  | OpHome => lcdHome io fuel
  | OpDirection f => lcdDirection io fuel f
  | OpNext => lcdNext io fuel
  | OpSetDisplay a b c => lcdSetDisplay io fuel a b c
  | OpSetCursor col row => lcdSetCursor io fuel col row
  | OpStoreGlyph which bits => lcdStoreGlyph io fuel which bits
  | OpPutChar c => lcdPutChar io fuel c
  | OpPutString s => lcdPutString io fuel s
  end.

(** The arguments of [lcdSetCursor] are [uint8_t]. *)
Definition well_typed_op (op : operation) : Prop :=
  match op with
  | OpSetCursor col row => is_uint8 col /\ is_uint8 row
  | _ => True
  end.

Definition cursor_ok (d : lcdDriver_t) : Prop :=
  cursor_dimensions d /\ valid_cursor d.

(** A collaborator on which every call succeeds with 0. *)
Definition zero_io : nat -> event -> Z := fun _ _ => 0.

(** A call that does not read the bus: a delay, or bus I/O with [rw = 0]. *)
Definition bus_write (c : event * Z) : Prop :=
  match fst c with
  | BusIO rw _ _ _ => rw = false
  | Delay _ => True
  end.

Definition write_only (d : lcdDriver_t) : Prop := writeOnly d = true.

(** The write phase of [lcdCommand] / [lcdWrite]: one cycle, or two in
    4-bit mode (high nibble, then the byte shifted left by four). *)
Definition byte_events (d : lcdDriver_t) (rs : bool) (byte : Z) : list event :=
  write_cycle d rs byte ++
  (if fourBits d then write_cycle d rs (to_uint8 (Z.shiftl byte 4)) else []).

(** One busy-flag poll: the read of the status byte is its fourth call. *)
Definition poll_events (d : lcdDriver_t) : list event :=
  [ Delay (busyInterval (busTiming d)); BusIO true false true 0;
    Delay (enableHold (busTiming d)) ] ++
  [ BusIO true false true 0 ] ++
  (BusIO true false false 0 ::
   if fourBits d then
     [ Delay (dataHold (busTiming d)); BusIO true false true 0;
       Delay (enableHold (busTiming d)); BusIO true false false 0 ]
   else []).

Definition read_setup (d : lcdDriver_t) : list event :=
  [ BusIO true false false 0; Delay (addressSetup (busTiming d)) ].

(** The call whose result [lcdCommand] and [lcdWrite] return as it is. *)
Definition final_call (d : lcdDriver_t) : event :=
  if writeOnly d then Delay (busyHoldShort (busTiming d))
  else BusIO false false false 0.

(** The failure exit: [-1], [EIO] latched, the failing call recorded last. *)
Definition failure_exit (w : world) (r : Z) (w' : world) : Prop :=
  r = -1 /\
  exists l, w' = mkWorld (set_error EIO (drv w)) (trace w ++ l) /\
            almost_clean l = true /\ clean l = false.

Definition poll_result (w : world) (o : outcome Z) : Prop :=
  match o with
  | Ret r w' =>
      failure_exit w r w' \/
      exists l, w' = mkWorld (drv w)
                       (trace w ++ l ++ [(BusIO false false false 0, r)]) /\
                clean l = true
  | AssertFail _ => False
  | OutOfFuel => True
  end.

(** [lcdCommand] / [lcdWrite] end at a failure exit, or after a write phase
    and a wait whose calls all succeeded, returning the result of the final
    call, or (read-capable bus only) never. *)
Definition transfer_result (io : nat -> event -> Z) (rs : bool) (byte : Z)
           (w : world) (o : outcome Z) : Prop :=
  match o with
  | Ret r w' =>
      failure_exit w r w' \/
      exists l2,
        let l1 := respond io (length (trace w)) (byte_events (drv w) rs byte) in
        w' = mkWorld (drv w)
               (trace w ++ l1 ++ l2 ++ [(final_call (drv w), r)]) /\
        clean (l1 ++ l2) = true /\
        (writeOnly (drv w) = true -> l2 = [])
  | AssertFail _ => False
  | OutOfFuel => writeOnly (drv w) = false
  end.

Definition at_origin (d : lcdDriver_t) : Prop := cursor d = mkCursor 0 0.

(** A collaborator that fails at call number [k] and succeeds elsewhere. *)
Definition fail_at (k : nat) : nat -> event -> Z :=
  fun n _ => if Nat.eqb n k then -1 else 0.

(** The status byte read by poll number [j] of a loop entered at call
    number [k]. *)
Definition status (io : nat -> event -> Z) (d : lcdDriver_t) (k j : nat) : Z :=
  io (k + j * length (poll_events d) + 3)%nat (BusIO true false true 0).

(** A collaborator that reports the busy flag at the calls numbered 17 and
    26 (the first two status reads of a 4-bit command) and 0 elsewhere. *)
Definition busy_twice : nat -> event -> Z :=
  fun k e =>
    match e with
    | BusIO _ _ _ _ => if Nat.eqb k 17 || Nat.eqb k 26 then 128 else 0
    | Delay _ => 0
    end.

Definition is_read (e : event) : bool :=
  match e with
  | BusIO rw _ _ _ => rw
  | Delay _ => false
  end.

(** The three function-set(8-bit) pulses of [lcdInit4Bit]. *)
Definition reset_pulses (d : lcdDriver_t) : list event :=
  let t := busTiming d in
  let cmd := LCD_CMD_FUNCTION true false false in
  [ BusIO false false false cmd; Delay (addressSetup t);
    BusIO false false true cmd;  Delay (enableHold t);
    BusIO false false false cmd; Delay 5000;
    BusIO false false false cmd; Delay (addressSetup t);
    BusIO false false true cmd;  Delay (enableHold t);
    BusIO false false false cmd; Delay 100;
    BusIO false false true cmd;  Delay (enableHold t);
    BusIO false false false cmd; Delay (dataHold t) ].

(** The single pulse that requests the 4-bit bus. *)
Definition four_bit_request (d : lcdDriver_t) : list event :=
  let t := busTiming d in
  let cmd := LCD_CMD_FUNCTION false false false in
  [ BusIO false false false cmd; Delay (addressSetup t);
    BusIO false false true cmd;  Delay (enableHold t);
    BusIO false false false cmd; Delay (to_uint32 (dataHold t + 100)) ].

(** A write-only 4-bit driver whose enable-hold and data-hold differ. *)
Definition skewed_driver : lcdDriver_t :=
  mkDriver 0 (mkDimensions 16 2) true true false
           (mkBusTiming 10 10 20 50 500 50000) (mkCursor 0 0) true.

(** What the controller latches: the register select and data lines of
    every write call made with enable high. *)
Definition strobe (e : event) : list (bool * Z) :=
  match e with
  | BusIO false rs true v => [(rs, v)]
  | _ => []
  end.

Definition strobes (es : list event) : list (bool * Z) := flat_map strobe es.

(** The strobes of one byte: the byte itself and, on the 4-bit bus, the byte
    shifted left by four. *)
Definition nibbles (d : lcdDriver_t) (rs : bool) (byte : Z) : list (bool * Z) :=
  (rs, byte) :: (if fourBits d then [(rs, to_uint8 (Z.shiftl byte 4))] else []).

(** A call that strobes nothing into the controller. *)
Definition silent (c : event * Z) : Prop := strobe (fst c) = [].

Definition any_driver (_ : lcdDriver_t) : Prop := True.

(** The cell under the cursor, counted row by row. *)
Definition cell_index (d : lcdDriver_t) : Z :=
  y (cursor d) * width (dimensions d) + x (cursor d).

(** The number of cells of the display. *)
Definition cells (d : lcdDriver_t) : Z :=
  width (dimensions d) * height (dimensions d).

(** A collaborator whose controller never clears the busy flag: every bus
    call answers 128, every delay succeeds. *)
Definition always_busy : nat -> event -> Z :=
  fun _ e => match e with BusIO _ _ _ _ => 128 | Delay _ => 0 end.

(** A collaborator that acknowledges every write call with 1, reads an idle
    status byte and succeeds on every delay. *)
Definition ack_one : nat -> event -> Z :=
  fun _ e => match e with BusIO false _ _ _ => 1 | _ => 0 end.

(** The fields the caller configures: dimensions, mode flags and timing. *)
Definition same_configuration (d0 d : lcdDriver_t) : Prop :=
  dimensions d = dimensions d0 /\ fourBits d = fourBits d0 /\
  writeOnly d = writeOnly d0 /\ largeFont d = largeFont d0 /\
  busTiming d = busTiming d0.

(** The operations that turn every failure into -1 themselves; the others
    end with [return lcdCommand(...)]. *)
Definition reports_status (op : operation) : bool :=
  match op with
  | OpInit | OpClear | OpHome | OpDirection _ | OpNext | OpStoreGlyph _ _ => true
  | _ => false
  end.

(** The calls whose failure is handed to the caller as it is, without
    [error] being set: the last call of [lcdCommand] / [lcdWrite] and the
    hold delay a caller adds after a command.  In a trace they are told from
    every other call by what precedes them.  On a write-only bus they are
    the delays that directly follow a delay (every other delay follows a bus
    call).  On a read-capable bus they are the closing [lcdBusIO(0,0,0,0)]
    directly after the last read of a poll, and a delay directly after such
    a closing call. *)
Definition unlatched_tail (wo : bool) (es : list event) : bool :=
  match rev es with
  | Delay _ :: Delay _ :: _ => wo
  | BusIO false false false 0 :: BusIO true false false 0 :: _ => negb wo
  | Delay _ :: BusIO false false false 0 :: BusIO true false false 0 :: _ =>
      negb wo
  | _ => false
  end.

(** The last two calls of a completed transfer. *)
Definition ends_transfer (wo : bool) (es : list event) : Prop :=
  exists es0 e1 e2,
    es = es0 ++ [e1; e2] /\
    if wo then exists us1 us2, e1 = Delay us1 /\ e2 = Delay us2
    else e1 = BusIO true false false 0 /\ e2 = BusIO false false false 0.

(** A state in which no call has failed, or [EIO] is latched, or the last
    call is one of the unlatched ones. *)
Definition settled (w : world) : Prop :=
  clean (trace w) = true \/ error (drv w) = EIO \/
  unlatched_tail (writeOnly (drv w)) (events w) = true.

(** [latches okv m]: entered after successful calls only, [m] ends in a
    settled state, with the bus mode as it was, and without a failed call
    when it returns a value its caller goes on with or stops at an
    assertion. *)
Definition latches {A} (okv : A -> bool) (m : M A) : Prop :=
  forall w, clean (trace w) = true ->
    match m w with
    | Ret a w' =>
        settled w' /\ writeOnly (drv w') = writeOnly (drv w) /\
        (okv a = true -> clean (trace w') = true)
    | AssertFail w' => clean (trace w') = true
    | OutOfFuel => True
    end.

(** [stops okv m]: [m] returns at once, leaving the state alone, a value
    that stops the caller. *)
Definition stops {A} (okv : A -> bool) (m : M A) : Prop :=
  forall w, exists a, m w = Ret a w /\ okv a = false.

(** The state an operation leaves when call number [k] fails and every
    other call is answered with 0. *)
Definition left_by (op : operation) (fuel : nat) (d : lcdDriver_t) (k : nat)
  : option world :=
  final_world (run (fail_at k) fuel op (start d)).

Definition unlatched_at (op : operation) (fuel : nat) (d : lcdDriver_t)
           (k : nat) : bool :=
  match left_by op fuel d k with
  | Some w' => unlatched_tail (writeOnly d) (events w')
  | None => false
  end.

Definition error_unset_at (op : operation) (fuel : nat) (d : lcdDriver_t)
           (k : nat) : bool :=
  match left_by op fuel d k with
  | Some w' => negb (error (drv w') =? EIO)
  | None => false
  end.

(** The strobes made with register select high: what is written as data. *)
Definition data_strobes (es : list event) : list (bool * Z) :=
  filter fst (strobes es).

(** The data strobes of a string of characters. *)
Definition string_strobes (d : lcdDriver_t) (str : list Z) : list (bool * Z) :=
  flat_map (fun c => nibbles d true (to_uint8 c)) str.

(** * Properties *)

(** ** Integer conversions and small facts *)

Lemma to_int8_small (z : Z) : is_int8 z -> to_int8 z = z.
Proof.
  unfold is_int8, to_int8; intros H.
  rewrite Z.mod_small by lia. lia.
Qed.

Lemma to_uint8_small (z : Z) : is_uint8 z -> to_uint8 z = z.
Proof. unfold is_uint8, to_uint8; intros H. now apply Z.mod_small. Qed.

Lemma to_int8_range (z : Z) : is_int8 (to_int8 z).
Proof.
  unfold is_int8, to_int8.
  pose proof (Z.mod_pos_bound (z + 128) 256 ltac:(lia)). lia.
Qed.

Lemma valid_dimensions_cursor_dimensions (d : lcdDriver_t) :
  valid_dimensions d -> cursor_dimensions d.
Proof.
  unfold valid_dimensions, cursor_dimensions.
  intros (Hw & Hh & Hwh). repeat split; nia.
Qed.

Lemma rem2_nonneg (n : Z) : 0 <= n -> Z.rem n 2 = n mod 2.
Proof. intros H. apply Z.rem_mod_nonneg; lia. Qed.

Lemma mod2_cases (n : Z) : n mod 2 = 0 \/ n mod 2 = 1.
Proof. pose proof (Z.mod_pos_bound n 2 ltac:(lia)). lia. Qed.

Lemma decode_address_of (d : lcdDriver_t) :
  0 <= y (cursor d) ->
  LCD_DECODE_CURSOR d =
  address_of (width (dimensions d)) (x (cursor d)) (y (cursor d)).
Proof.
  intros H. unfold LCD_DECODE_CURSOR, address_of, b2z.
  rewrite rem2_nonneg by assumption. lia.
Qed.

Lemma address_of_bound (w h col row : Z) :
  1 <= w -> 1 <= h -> w * h <= 80 ->
  0 <= col < w -> 0 <= row < h ->
  0 <= address_of w col row < 104.
Proof.
  intros Hw Hh Hwh Hc Hr. unfold address_of.
  assert (Hrow : w * (row + 1) <= w * h) by (apply Z.mul_le_mono_nonneg_l; lia).
  assert (H2 : row = 2 -> row mod 2 = 0) by (intros ->; reflexivity).
  destruct (mod2_cases row) as [E | E]; rewrite E;
    destruct (Z.geb_spec row 2).
  - assert (w * 3 <= w * (row + 1)) by (apply Z.mul_le_mono_nonneg_l; lia). lia.
  - lia.
  - assert (w * 4 <= w * (row + 1)) by (apply Z.mul_le_mono_nonneg_l; lia). lia.
  - assert (row = 1) by (destruct (Z.eq_dec row 0); [subst; discriminate | lia]).
    subst row. lia.
Qed.

(** ** Running chains of collaborator calls *)

Lemma clean_app (l1 l2 : list (event * Z)) :
  clean (l1 ++ l2) = clean l1 && clean l2.
Proof. apply forallb_app. Qed.

Lemma clean_almost_clean (l : list (event * Z)) :
  clean l = true -> almost_clean l = true.
Proof.
  unfold almost_clean. induction l as [| c l IH]; [reflexivity |].
  destruct l as [| c' l']; [reflexivity |].
  intros H. change (clean (c :: removelast (c' :: l')) = true).
  simpl in H |- *. apply andb_true_iff in H as [Hc Hl].
  rewrite Hc. exact (IH Hl).
Qed.

Lemma almost_clean_app (l1 l2 : list (event * Z)) :
  clean l1 = true -> almost_clean l2 = true -> almost_clean (l1 ++ l2) = true.
Proof.
  intros H1 H2. destruct l2 as [| c l2].
  - rewrite app_nil_r. now apply clean_almost_clean.
  - unfold almost_clean in *. rewrite removelast_app by discriminate.
    rewrite clean_app, H1. exact H2.
Qed.

(** In an almost clean list a failing call is the last one. *)
Lemma almost_clean_failed_last (l : list (event * Z)) (k : nat) (c : event * Z) :
  almost_clean l = true -> nth_error l k = Some c -> call_failed c = true ->
  length l = S k.
Proof.
  revert k. induction l as [| c0 l IH]; intros k Hac Hk Hf.
  - destruct k; discriminate.
  - destruct l as [| c1 l'].
    + destruct k as [| k]; [reflexivity |]. destruct k; discriminate.
    + unfold almost_clean in Hac.
      change (clean (c0 :: removelast (c1 :: l')) = true) in Hac.
      simpl in Hac. apply andb_true_iff in Hac as [Hc0 Hrest].
      destruct k as [| k].
      * simpl in Hk. injection Hk as ->. rewrite Hf in Hc0. discriminate.
      * simpl in Hk. simpl length. f_equal. apply (IH k); assumption.
Qed.

Section Runs.

Variable io : nat -> event -> Z.

Lemma any_failed_eq (es : list event) (w : world) :
  any_failed io es w =
  Ret (negb (clean (attempted io (length (trace w)) es)))
      (mkWorld (drv w) (trace w ++ attempted io (length (trace w)) es)).
Proof.
  revert w. induction es as [| e es IH]; intros w.
  - simpl. unfold ret. rewrite app_nil_r. now destruct w.
  - simpl. unfold bind, call.
    destruct (call_failed (e, io (length (trace w)) e)) eqn:E.
    + unfold ret. simpl. rewrite E. reflexivity.
    + rewrite IH. simpl. rewrite E. simpl.
      rewrite length_app, <- app_assoc. simpl.
      replace (length (trace w) + 1)%nat with (S (length (trace w))) by lia.
      reflexivity.
Qed.

Lemma attempted_almost_clean (k : nat) (es : list event) :
  almost_clean (attempted io k es) = true.
Proof.
  revert k. induction es as [| e es IH]; intros k; [reflexivity |].
  simpl. destruct (call_failed (e, io k e)) eqn:E; [reflexivity |].
  change ((e, io k e) :: attempted io (S k) es)
    with ([(e, io k e)] ++ attempted io (S k) es).
  apply almost_clean_app; [| apply IH]. simpl. now rewrite E.
Qed.

Lemma attempted_clean (k : nat) (es : list event) :
  clean (attempted io k es) = true -> attempted io k es = respond io k es.
Proof.
  revert k. induction es as [| e es IH]; intros k; [reflexivity |].
  simpl. destruct (call_failed (e, io k e)) eqn:E.
  - simpl. rewrite E. discriminate.
  - simpl. rewrite E. simpl. intros H. f_equal. now apply IH.
Qed.

Lemma respond_events (k : nat) (es : list event) :
  map fst (respond io k es) = es.
Proof.
  revert k. induction es as [| e es IH]; intros k; simpl; [| rewrite IH];
    reflexivity.
Qed.

Lemma respond_length (k : nat) (es : list event) :
  length (respond io k es) = length es.
Proof. rewrite <- (respond_events k es) at 2. now rewrite length_map. Qed.

Lemma attempted_events_prefix (k : nat) (es : list event) :
  map fst (attempted io k es) = firstn (length (attempted io k es)) es.
Proof.
  revert k. induction es as [| e es IH]; intros k; [reflexivity |].
  simpl. destruct (call_failed (e, io k e)); simpl; [reflexivity |].
  now rewrite IH.
Qed.

End Runs.

(** ** Fail-fast discipline *)

Section FailFast.

Variable io : nat -> event -> Z.

Lemma sound_ret {A} (okv : A -> bool) (a : A) : sound okv (ret a).
Proof. intros w. exists []. now rewrite app_nil_r. Qed.

Lemma sound_bind {A B} (okA : A -> bool) (okB : B -> bool)
      (m : M A) (k : A -> M B) :
  sound okA m ->
  (forall a, okA a = true -> sound okB (k a)) ->
  (forall a, okA a = false -> quiet okB (k a)) ->
  sound okB (bind m k).
Proof.
  intros Hm Hk Hq w. unfold bind. specialize (Hm w).
  destruct (m w) as [a w1 | w1 |]; [| exact Hm | exact I].
  destruct Hm as (l1 & E1 & Hac1 & Hc1).
  destruct (okA a) eqn:Ea.
  - specialize (Hk a Ea w1). specialize (Hc1 eq_refl).
    destruct (k a w1) as [b w2 | w2 |]; [| | exact I].
    + destruct Hk as (l2 & E2 & Hac2 & Hc2). exists (l1 ++ l2).
      rewrite E2, E1, app_assoc. split; [reflexivity |]. split.
      * now apply almost_clean_app.
      * intros Hb. rewrite clean_app, Hc1. now apply Hc2.
    + destruct Hk as (l2 & E2 & Hc2). exists (l1 ++ l2).
      rewrite E2, E1, app_assoc. split; [reflexivity |].
      now rewrite clean_app, Hc1.
  - destruct (Hq a Ea w1) as (b & w2 & -> & Et & Hb). exists l1.
    rewrite Et. split; [exact E1 |]. split; [exact Hac1 |].
    intros Hb'. congruence.
Qed.

(** A continuation that never stops: the usual case after state access. *)
Lemma sound_bind_always {A B} (okB : B -> bool) (m : M A) (k : A -> M B) :
  sound always m -> (forall a, sound okB (k a)) -> sound okB (bind m k).
Proof.
  intros Hm Hk. apply (sound_bind always); [exact Hm | auto |].
  intros a Ha; discriminate.
Qed.

Lemma sound_get_driver : sound always get_driver.
Proof. intros w. exists []. now rewrite app_nil_r. Qed.

Lemma sound_modify_driver f : sound always (modify_driver f).
Proof. intros w. exists []. simpl. now rewrite app_nil_r. Qed.

Lemma sound_c_assert b : sound always (c_assert b).
Proof.
  intros w. unfold c_assert. destruct b; exists []; now rewrite app_nil_r.
Qed.

Lemma sound_call (e : event) :
  sound (fun r => negb (call_failed (e, r))) (call io e).
Proof.
  intros w. unfold call. eexists. split; [reflexivity |].
  split; [reflexivity |]. simpl. intros ->. reflexivity.
Qed.

Lemma sound_any_failed (es : list event) : sound negb (any_failed io es).
Proof.
  intros w. rewrite any_failed_eq. eexists. split; [reflexivity |].
  split; [apply attempted_almost_clean |].
  intros H. now apply negb_true_iff, negb_false_iff in H.
Qed.

Lemma quiet_ret {A} (okv : A -> bool) (a : A) :
  okv a = false -> quiet okv (ret a).
Proof. intros H w. now exists a, w. Qed.

Lemma quiet_io_failed : quiet zero io_failed.
Proof. intros w. eexists _, _. split; [reflexivity |]. now split. Qed.

Lemma sound_weaken {A} (ok1 ok2 : A -> bool) (m : M A) :
  (forall a, ok2 a = true -> ok1 a = true) -> sound ok1 m -> sound ok2 m.
Proof.
  intros H Hm w. specialize (Hm w). destruct (m w); auto.
  destruct Hm as (l & E & Hac & Hc). exists l. auto.
Qed.

Lemma sound_lcdBusIO_zero rw rs en data :
  sound zero (lcdBusIO io rw rs en data).
Proof.
  eapply sound_weaken; [| apply sound_call]. unfold zero, call_failed. simpl.
  intros a Ha. apply Z.eqb_eq in Ha. now subst.
Qed.

Lemma sound_lcdDelay_zero us : sound zero (lcdDelay io us).
Proof.
  eapply sound_weaken; [| apply sound_call]. unfold zero, call_failed. simpl.
  intros a ->. reflexivity.
Qed.

Lemma sound_test (m : M Z) : sound zero m -> sound negb (test m).
Proof.
  intros Hm w. unfold test, bind, ret. specialize (Hm w).
  destruct (m w) as [r w1 | w1 |]; auto.
  destruct Hm as (l & E & Hac & Hc). exists l. repeat split; auto.
  intros H. apply Hc. unfold truthy in H. now rewrite negb_involutive in H.
Qed.

Lemma sound_c_or (a b : M bool) :
  sound negb a -> sound negb b -> sound negb (c_or a b).
Proof.
  intros Ha Hb. unfold c_or. apply (sound_bind negb); [exact Ha | |].
  - intros [|] H; [discriminate | exact Hb].
  - intros [|] H; [now apply quiet_ret | discriminate].
Qed.

(** The exit taken by a caller that saw a failure flag. *)
Lemma sound_if_failed {B} (okB : B -> bool) (m : M bool) (stop go : M B) :
  sound negb m -> quiet okB stop -> sound okB go ->
  sound okB (f <- m ;; if f then stop else go).
Proof.
  intros Hm Hs Hg. apply (sound_bind negb); [exact Hm | |].
  - intros [|] H; [discriminate | exact Hg].
  - intros [|] H; [exact Hs | discriminate].
Qed.

(** The exit taken by a caller that tests an [int] result. *)
Lemma sound_if_truthy (m : M Z) (go : M Z) :
  sound zero m -> sound zero go ->
  sound zero (r <- m ;; if truthy r then ret (-1) else go).
Proof.
  intros Hm Hg. apply (sound_bind zero); [exact Hm | |]; intros r H;
    unfold truthy; unfold zero in H; rewrite H; simpl;
    [exact Hg | now apply quiet_ret].
Qed.

End FailFast.

Section OperationsFailFast.

Variable io : nat -> event -> Z.

Lemma sound_poll_once (d : lcdDriver_t) : sound polled (poll_once io d).
Proof.
  unfold poll_once.
  apply sound_if_failed; [apply sound_any_failed | now apply quiet_ret |].
  eapply sound_bind; [apply sound_call | |]; intros v Hv;
    unfold call_failed in Hv; simpl in Hv.
  - apply negb_true_iff in Hv. rewrite Hv.
    apply sound_if_failed;
      [apply sound_any_failed | now apply quiet_ret | apply sound_ret].
  - apply negb_false_iff in Hv. rewrite Hv. now apply quiet_ret.
Qed.

Lemma sound_busy_poll (fuel : nat) (d : lcdDriver_t) :
  sound zero (busy_poll io fuel d).
Proof.
  induction fuel as [| fuel IH]; [intros w; exact I |].
  cbn [busy_poll]. apply (sound_bind polled); [apply sound_poll_once | |].
  - intros [v |] H; [| discriminate].
    destruct (Z.testbit v 7); [exact IH | apply sound_lcdBusIO_zero].
  - intros [v |] H; [discriminate | apply quiet_io_failed].
Qed.

Lemma sound_wait_ready (fuel : nat) (d : lcdDriver_t) :
  sound zero (wait_ready io fuel d).
Proof.
  unfold wait_ready. destruct (writeOnly d); [apply sound_lcdDelay_zero |].
  apply sound_if_failed;
    [apply sound_any_failed | apply quiet_io_failed | apply sound_busy_poll].
Qed.

Lemma sound_transfer (fuel : nat) (rs : bool) (byte : Z) :
  sound zero (transfer io fuel rs byte).
Proof.
  unfold transfer. apply sound_bind_always; [apply sound_get_driver |].
  intros d.
  apply sound_if_failed; [apply sound_any_failed | apply quiet_io_failed |].
  apply sound_if_failed; [| apply quiet_io_failed | apply sound_wait_ready].
  destruct (fourBits d); [apply sound_any_failed | apply sound_ret].
Qed.

Lemma sound_lcdCommand (fuel : nat) (command : Z) :
  sound zero (lcdCommand io fuel command).
Proof. apply sound_transfer. Qed.

Lemma sound_lcdWrite (fuel : nat) (data : Z) :
  sound zero (lcdWrite io fuel data).
Proof. apply sound_transfer. Qed.

Lemma sound_lcdInit4Bit (fuel : nat) : sound zero (lcdInit4Bit io fuel).
Proof.
  unfold lcdInit4Bit. apply sound_bind_always; [apply sound_get_driver |].
  intros d.
  apply sound_if_failed; [apply sound_any_failed | apply quiet_io_failed |].
  apply sound_if_failed;
    [apply sound_any_failed | apply quiet_io_failed | apply sound_lcdCommand].
Qed.

(** The shape shared by [lcdClear], [lcdHome] and [lcdDirection]. *)
Lemma sound_command_then_delay (fuel : nat) (c us : Z) f :
  sound zero
    (b <- c_or (test (lcdCommand io fuel c)) (test (lcdDelay io us)) ;;
     if b then ret (-1) else modify_driver f ;;; ret 0).
Proof.
  apply sound_if_failed.
  - apply sound_c_or; apply sound_test;
      [apply sound_lcdCommand | apply sound_lcdDelay_zero].
  - now apply quiet_ret.
  - apply sound_bind_always; [apply sound_modify_driver |].
    intros _; apply sound_ret.
Qed.

Lemma sound_lcdClear (fuel : nat) : sound zero (lcdClear io fuel).
Proof.
  unfold lcdClear. apply sound_bind_always; [apply sound_get_driver |].
  intros d. apply sound_command_then_delay.
Qed.

Lemma sound_lcdHome (fuel : nat) : sound zero (lcdHome io fuel).
Proof.
  unfold lcdHome. apply sound_bind_always; [apply sound_get_driver |].
  intros d. apply sound_command_then_delay.
Qed.

Lemma sound_lcdDirection (fuel : nat) (forward : bool) :
  sound zero (lcdDirection io fuel forward).
Proof.
  unfold lcdDirection. apply sound_bind_always; [apply sound_get_driver |].
  intros d. apply sound_command_then_delay.
Qed.

Lemma sound_lcdInit (fuel : nat) : sound zero (lcdInit io fuel).
Proof.
  unfold lcdInit. apply sound_bind_always; [apply sound_modify_driver |].
  intros _. apply sound_bind_always; [apply sound_get_driver |]. intros d.
  apply sound_if_failed; [| now apply quiet_ret |].
  - destruct (fourBits d); [| apply sound_ret].
    apply sound_c_or; [apply sound_test, sound_lcdInit4Bit |].
    apply sound_c_or; apply sound_test;
      [apply sound_lcdCommand | apply sound_lcdDelay_zero].
  - apply sound_bind_always; [apply sound_c_assert |].
    intros _. apply sound_lcdClear.
Qed.

Lemma sound_lcdNext (fuel : nat) : sound zero (lcdNext io fuel).
Proof.
  unfold lcdNext, cmd_cursor_address.
  apply sound_bind_always; [apply sound_modify_driver |]. intros _.
  apply sound_bind_always.
  { apply sound_bind_always; [apply sound_get_driver |].
    intros d; apply sound_ret. }
  intros c. apply sound_if_truthy; [apply sound_lcdCommand | apply sound_ret].
Qed.

Lemma sound_lcdSetCursor (fuel : nat) (column row : Z) :
  sound zero (lcdSetCursor io fuel column row).
Proof.
  unfold lcdSetCursor.
  apply sound_bind_always; [apply sound_get_driver |]. intros d.
  apply sound_bind_always; [apply sound_c_assert |]. intros _.
  apply sound_bind_always; [apply sound_c_assert |]. intros _.
  apply sound_bind_always; [apply sound_modify_driver |]. intros _.
  apply sound_bind_always; [apply sound_get_driver |]. intros d'.
  apply sound_lcdCommand.
Qed.

Lemma sound_write_bytes (fuel : nat) (bytes : list Z) :
  sound zero (write_bytes io fuel bytes).
Proof.
  induction bytes as [| b bytes IH]; [apply sound_ret |].
  cbn [write_bytes]. apply sound_if_truthy; [apply sound_lcdWrite | exact IH].
Qed.

Lemma sound_lcdStoreGlyph (fuel : nat) (which : Z) (bits : list Z) :
  sound zero (lcdStoreGlyph io fuel which bits).
Proof.
  unfold lcdStoreGlyph.
  apply sound_bind_always; [apply sound_get_driver |]. intros d.
  apply sound_bind_always; [apply sound_c_assert |]. intros _.
  apply sound_if_truthy; [apply sound_lcdCommand | apply sound_write_bytes].
Qed.

Lemma sound_cmd_cursor_address : sound always cmd_cursor_address.
Proof.
  unfold cmd_cursor_address.
  apply sound_bind_always; [apply sound_get_driver |].
  intros d; apply sound_ret.
Qed.

Lemma sound_lcdPutChar (fuel : nat) (chr : Z) :
  sound zero (lcdPutChar io fuel chr).
Proof.
  unfold lcdPutChar.
  apply sound_bind_always; [apply sound_cmd_cursor_address |]. intros c.
  apply sound_if_failed; [| now apply quiet_ret |].
  - apply sound_c_or; apply sound_test;
      [apply sound_lcdCommand | apply sound_lcdWrite].
  - apply sound_bind_always; [apply sound_modify_driver |]. intros _.
    apply sound_bind_always; [apply sound_cmd_cursor_address |]. intros c'.
    apply sound_lcdCommand.
Qed.

Lemma sound_put_chars (fuel : nat) (str : list Z) (address : Z) :
  sound zero (put_chars io fuel str address).
Proof.
  revert address. induction str as [| c str IH]; intros address.
  - apply sound_lcdCommand.
  - cbn [put_chars]. apply sound_if_truthy; [apply sound_lcdWrite |].
    apply sound_bind_always; [apply sound_modify_driver |]. intros _.
    apply sound_bind_always; [apply sound_get_driver |]. intros d.
    apply sound_if_failed; [| now apply quiet_ret | apply IH].
    destruct (negb _); [apply sound_test, sound_lcdCommand | apply sound_ret].
Qed.

Lemma sound_lcdPutString (fuel : nat) (str : list Z) :
  sound zero (lcdPutString io fuel str).
Proof.
  unfold lcdPutString.
  apply sound_bind_always; [apply sound_get_driver |]. intros d.
  apply sound_if_truthy; [apply sound_lcdCommand | apply sound_put_chars].
Qed.

End OperationsFailFast.

(** ** Driver invariants and per-call properties *)

Section Keeps.

Variable io : nat -> event -> Z.
Variable I : lcdDriver_t -> Prop.
Variable p : event * Z -> Prop.

Lemma keeps_ret {A} (a : A) : keeps I p (ret a).
Proof.
  intros w Hw. simpl. split; [exact Hw |]. exists []. now rewrite app_nil_r.
Qed.

Lemma keeps_bind {A B} (m : M A) (k : A -> M B) :
  keeps I p m -> (forall a, keeps I p (k a)) -> keeps I p (bind m k).
Proof.
  intros Hm Hk w Hw. unfold bind. specialize (Hm w Hw).
  destruct (m w) as [a w1 | w1 |]; simpl in Hm |- *; [| exact Hm | exact Logic.I].
  destruct Hm as (H1 & l1 & E1 & F1). specialize (Hk a w1 H1).
  destruct (final_world (k a w1)) as [w2 |]; [| exact Logic.I].
  destruct Hk as (H2 & l2 & E2 & F2). split; [exact H2 |].
  exists (l1 ++ l2). rewrite E2, E1, app_assoc. split; [reflexivity |].
  apply Forall_app. now split.
Qed.

(** After reading the driver the continuation may use the invariant. *)
Lemma keeps_get_driver {B} (k : lcdDriver_t -> M B) :
  (forall d, I d -> keeps I p (k d)) -> keeps I p (bind get_driver k).
Proof. intros Hk w Hw. unfold bind, get_driver. exact (Hk (drv w) Hw w Hw). Qed.

Lemma keeps_modify_driver (f : lcdDriver_t -> lcdDriver_t) :
  (forall d, I d -> I (f d)) -> keeps I p (modify_driver f).
Proof.
  intros Hf w Hw. simpl. split; [auto |]. exists []. now rewrite app_nil_r.
Qed.

Lemma keeps_c_assert (b : bool) : keeps I p (c_assert b).
Proof.
  intros w Hw. unfold c_assert.
  destruct b; simpl; (split; [exact Hw |]); exists []; now rewrite app_nil_r.
Qed.

Lemma keeps_call (e : event) :
  (forall r, p (e, r)) -> keeps I p (call io e).
Proof.
  intros He w Hw. simpl. split; [exact Hw |]. eexists. split; [reflexivity |].
  constructor; [apply He | constructor].
Qed.

Lemma keeps_any_failed (es : list event) :
  Forall (fun e => forall r, p (e, r)) es -> keeps I p (any_failed io es).
Proof.
  induction 1 as [| e es He Hes IH]; [apply keeps_ret |].
  cbn [any_failed]. apply keeps_bind; [now apply keeps_call |].
  intros r. destruct (call_failed (e, r)); [apply keeps_ret | exact IH].
Qed.

Hypothesis I_set_error : forall d e, I d -> I (set_error e d).
Hypothesis p_write : forall rs en v r, p (BusIO false rs en v, r).
Hypothesis p_delay : forall us r, p (Delay us, r).
Hypothesis p_read : forall d, I d -> writeOnly d = false -> forall c, p c.

Lemma keeps_io_failed : keeps I p io_failed.
Proof.
  unfold io_failed. apply keeps_bind; [| intros; apply keeps_ret].
  apply keeps_modify_driver. auto.
Qed.

Lemma keeps_any (d : lcdDriver_t) (es : list event) :
  I d -> writeOnly d = false -> keeps I p (any_failed io es).
Proof.
  intros Hd Hwo. apply keeps_any_failed, Forall_forall.
  intros e _ r. now apply (p_read d).
Qed.

Lemma keeps_poll_once (d : lcdDriver_t) :
  I d -> writeOnly d = false -> keeps I p (poll_once io d).
Proof.
  intros Hd Hwo. unfold poll_once.
  apply keeps_bind; [now apply (keeps_any d) |].
  intros [|]; [apply keeps_ret |].
  apply keeps_bind; [apply keeps_call; intros r; now apply (p_read d) |].
  intros v. destruct (v <? 0); [apply keeps_ret |].
  apply keeps_bind; [now apply (keeps_any d) |].
  intros [|]; apply keeps_ret.
Qed.

Lemma keeps_busy_poll (fuel : nat) (d : lcdDriver_t) :
  I d -> writeOnly d = false -> keeps I p (busy_poll io fuel d).
Proof.
  intros Hd Hwo. induction fuel as [| fuel IH]; [intros w Hw; exact Logic.I |].
  cbn [busy_poll]. apply keeps_bind; [now apply keeps_poll_once |].
  intros [v |]; [| apply keeps_io_failed].
  destruct (Z.testbit v 7); [exact IH |]. apply keeps_call. apply p_write.
Qed.

Lemma keeps_write_cycle (d : lcdDriver_t) (rs : bool) (v : Z) :
  keeps I p (any_failed io (write_cycle d rs v)).
Proof.
  apply keeps_any_failed. unfold write_cycle.
  repeat constructor; intros; (apply p_write || apply p_delay).
Qed.

Lemma keeps_wait_ready (fuel : nat) (d : lcdDriver_t) :
  I d -> keeps I p (wait_ready io fuel d).
Proof.
  intros Hd. unfold wait_ready. destruct (writeOnly d) eqn:Hwo.
  - apply keeps_call, p_delay.
  - apply keeps_bind; [now apply (keeps_any d) |].
    intros [|]; [apply keeps_io_failed | now apply keeps_busy_poll].
Qed.

Lemma keeps_transfer (fuel : nat) (rs : bool) (byte : Z) :
  keeps I p (transfer io fuel rs byte).
Proof.
  unfold transfer. apply keeps_get_driver. intros d Hd.
  apply keeps_bind; [apply keeps_write_cycle |].
  intros [|]; [apply keeps_io_failed |].
  apply keeps_bind.
  { destruct (fourBits d); [apply keeps_write_cycle | apply keeps_ret]. }
  intros [|]; [apply keeps_io_failed | now apply keeps_wait_ready].
Qed.

Lemma keeps_lcdCommand (fuel : nat) (command : Z) :
  keeps I p (lcdCommand io fuel command).
Proof. apply keeps_transfer. Qed.

Lemma keeps_lcdWrite (fuel : nat) (data : Z) :
  keeps I p (lcdWrite io fuel data).
Proof. apply keeps_transfer. Qed.

Lemma keeps_lcdInit4Bit (fuel : nat) : keeps I p (lcdInit4Bit io fuel).
Proof.
  unfold lcdInit4Bit. apply keeps_get_driver. intros d Hd.
  apply keeps_bind.
  { apply keeps_any_failed.
    repeat constructor; intros; (apply p_write || apply p_delay). }
  intros [|]; [apply keeps_io_failed |].
  apply keeps_bind.
  { apply keeps_any_failed.
    repeat constructor; intros; (apply p_write || apply p_delay). }
  intros [|]; [apply keeps_io_failed | apply keeps_lcdCommand].
Qed.

Lemma keeps_test (m : M Z) : keeps I p m -> keeps I p (test m).
Proof. intros Hm. apply keeps_bind; [exact Hm | intros; apply keeps_ret]. Qed.

Lemma keeps_c_or (a b : M bool) :
  keeps I p a -> keeps I p b -> keeps I p (c_or a b).
Proof.
  intros Ha Hb. apply keeps_bind; [exact Ha |].
  intros [|]; [apply keeps_ret | exact Hb].
Qed.

Lemma keeps_command_then_delay (fuel : nat) (c us : Z) f :
  (forall d, I d -> I (f d)) ->
  keeps I p
    (b <- c_or (test (lcdCommand io fuel c)) (test (lcdDelay io us)) ;;
     if b then ret (-1) else modify_driver f ;;; ret 0).
Proof.
  intros Hf. apply keeps_bind.
  - apply keeps_c_or; apply keeps_test;
      [apply keeps_lcdCommand | apply keeps_call, p_delay].
  - intros [|]; [apply keeps_ret |].
    apply keeps_bind; [now apply keeps_modify_driver |].
    intros; apply keeps_ret.
Qed.

Lemma keeps_lcdClear (fuel : nat) :
  (forall d, I d -> I (set_cursor (mkCursor 0 0) d)) ->
  keeps I p (lcdClear io fuel).
Proof.
  intros H. unfold lcdClear. apply keeps_get_driver. intros d _.
  now apply keeps_command_then_delay.
Qed.

Lemma keeps_lcdHome (fuel : nat) :
  (forall d, I d -> I (set_cursor (mkCursor 0 0) d)) ->
  keeps I p (lcdHome io fuel).
Proof.
  intros H. unfold lcdHome. apply keeps_get_driver. intros d _.
  now apply keeps_command_then_delay.
Qed.

Lemma keeps_lcdDirection (fuel : nat) (forward : bool) :
  (forall d, I d -> I (set_direction forward d)) ->
  keeps I p (lcdDirection io fuel forward).
Proof.
  intros H. unfold lcdDirection. apply keeps_get_driver. intros d _.
  now apply keeps_command_then_delay.
Qed.

Lemma keeps_lcdInit (fuel : nat) :
  (forall d, I d -> I (set_cursor (mkCursor 0 0) d)) ->
  keeps I p (lcdInit io fuel).
Proof.
  intros H. unfold lcdInit.
  apply keeps_bind; [now apply keeps_modify_driver |]. intros _.
  apply keeps_get_driver. intros d _. apply keeps_bind.
  - destruct (fourBits d); [| apply keeps_ret].
    apply keeps_c_or; [apply keeps_test, keeps_lcdInit4Bit |].
    apply keeps_c_or; apply keeps_test;
      [apply keeps_lcdCommand | apply keeps_call, p_delay].
  - intros [|]; [apply keeps_ret |].
    apply keeps_bind; [apply keeps_c_assert |].
    intros _. now apply keeps_lcdClear.
Qed.

Lemma keeps_cmd_cursor_address : keeps I p cmd_cursor_address.
Proof.
  unfold cmd_cursor_address. apply keeps_get_driver.
  intros d _. apply keeps_ret.
Qed.

Lemma keeps_lcdNext (fuel : nat) :
  (forall d, I d -> I (lcdUpdateCursor d)) -> keeps I p (lcdNext io fuel).
Proof.
  intros H. unfold lcdNext.
  apply keeps_bind; [now apply keeps_modify_driver |]. intros _.
  apply keeps_bind; [apply keeps_cmd_cursor_address |]. intros c.
  apply keeps_bind; [apply keeps_lcdCommand |].
  intros r. destruct (truthy r); apply keeps_ret.
Qed.

Lemma keeps_lcdSetDisplay (fuel : nat) (display cur blink : bool) :
  keeps I p (lcdSetDisplay io fuel display cur blink).
Proof. apply keeps_lcdCommand. Qed.

Lemma keeps_lcdSetCursor (fuel : nat) (column row : Z) :
  (forall d, I d -> (width (dimensions d) >? column) = true ->
             (height (dimensions d) >? row) = true ->
             I (set_cursor (mkCursor (to_int8 column) (to_int8 row)) d)) ->
  keeps I p (lcdSetCursor io fuel column row).
Proof.
  intros H w Hw. unfold lcdSetCursor, bind, get_driver, c_assert.
  destruct (width (dimensions (drv w)) >? column) eqn:Ew;
    [| simpl; split; [exact Hw |]; exists []; now rewrite app_nil_r].
  destruct (height (dimensions (drv w)) >? row) eqn:Eh;
    [| simpl; split; [exact Hw |]; exists []; now rewrite app_nil_r].
  cbn [modify_driver drv trace].
  exact (keeps_lcdCommand fuel _ (mkWorld _ (trace w)) (H _ Hw Ew Eh)).
Qed.

Lemma keeps_write_bytes (fuel : nat) (bytes : list Z) :
  keeps I p (write_bytes io fuel bytes).
Proof.
  induction bytes as [| b bytes IH]; [apply keeps_ret |].
  cbn [write_bytes]. apply keeps_bind; [apply keeps_lcdWrite |].
  intros r. destruct (truthy r); [apply keeps_ret | exact IH].
Qed.

Lemma keeps_lcdStoreGlyph (fuel : nat) (which : Z) (bits : list Z) :
  keeps I p (lcdStoreGlyph io fuel which bits).
Proof.
  unfold lcdStoreGlyph. apply keeps_get_driver. intros d _.
  apply keeps_bind; [apply keeps_c_assert |]. intros _.
  apply keeps_bind; [apply keeps_lcdCommand |].
  intros r. destruct (truthy r); [apply keeps_ret | apply keeps_write_bytes].
Qed.

Lemma keeps_lcdPutChar (fuel : nat) (chr : Z) :
  (forall d, I d -> I (lcdUpdateCursor d)) ->
  keeps I p (lcdPutChar io fuel chr).
Proof.
  intros H. unfold lcdPutChar.
  apply keeps_bind; [apply keeps_cmd_cursor_address |]. intros c.
  apply keeps_bind.
  { apply keeps_c_or; apply keeps_test;
      [apply keeps_lcdCommand | apply keeps_lcdWrite]. }
  intros [|]; [apply keeps_ret |].
  apply keeps_bind; [now apply keeps_modify_driver |]. intros _.
  apply keeps_bind; [apply keeps_cmd_cursor_address |]. intros c'.
  apply keeps_lcdCommand.
Qed.

Lemma keeps_put_chars (fuel : nat) (str : list Z) (address : Z) :
  (forall d, I d -> I (lcdUpdateCursor d)) ->
  keeps I p (put_chars io fuel str address).
Proof.
  intros H. revert address. induction str as [| c str IH]; intros address.
  - apply keeps_lcdCommand.
  - cbn [put_chars]. apply keeps_bind; [apply keeps_lcdWrite |].
    intros r. destruct (truthy r); [apply keeps_ret |].
    apply keeps_bind; [now apply keeps_modify_driver |]. intros _.
    apply keeps_get_driver. intros d _. apply keeps_bind.
    + destruct (negb _); [apply keeps_test, keeps_lcdCommand | apply keeps_ret].
    + intros [|]; [apply keeps_ret | apply IH].
Qed.

Lemma keeps_lcdPutString (fuel : nat) (str : list Z) :
  (forall d, I d -> I (lcdUpdateCursor d)) ->
  keeps I p (lcdPutString io fuel str).
Proof.
  intros H. unfold lcdPutString. apply keeps_get_driver. intros d _.
  apply keeps_bind; [apply keeps_lcdCommand |].
  intros r. destruct (truthy r); [apply keeps_ret | now apply keeps_put_chars].
Qed.

End Keeps.

(** ** The address decoder *)

Lemma at_position_valid (d : lcdDriver_t) (col row : Z) :
  0 <= col < width (dimensions d) -> 0 <= row < height (dimensions d) ->
  valid_cursor (at_position d col row).
Proof. intros Hc Hr. split; assumption. Qed.

Lemma lcdSetCursor_issues (io : nat -> event -> Z) (fuel : nat)
      (d : lcdDriver_t) (col row : Z) :
  valid_dimensions d ->
  0 <= col < width (dimensions d) -> 0 <= row < height (dimensions d) ->
  lcdSetCursor io fuel col row (start d) =
  lcdCommand io fuel
    (LCD_CMD_DADDR (address_of (width (dimensions d)) col row))
    (start (at_position d col row)).
Proof.
  intros Hd Hc Hr.
  pose proof (valid_dimensions_cursor_dimensions d Hd) as [Hw Hh].
  destruct Hd as (Hw1 & Hh1 & Hwh).
  unfold lcdSetCursor, bind, get_driver, c_assert, start. cbn [drv trace].
  replace (width (dimensions d) >? col) with true
    by (symmetry; apply Z.gtb_lt; lia).
  replace (height (dimensions d) >? row) with true
    by (symmetry; apply Z.gtb_lt; lia).
  cbn [modify_driver drv trace].
  rewrite !to_int8_small by (unfold is_int8; lia).
  fold (at_position d col row).
  rewrite decode_address_of by (simpl; lia). cbn [at_position set_cursor
    dimensions cursor x y width].
  rewrite to_uint8_small; [reflexivity |].
  pose proof (address_of_bound _ _ col row Hw1 Hh1 Hwh Hc Hr).
  unfold is_uint8; lia.
Qed.

(** C4 as stated does not hold: the range [0, 80) is exceeded on a 20x4
    display at column 19 of row 1, and on a 1x5 display rows 2 and 4 share
    an address. *)
Lemma decode_not_below_80_nor_injective :
  (valid_dimensions (at_position (sample_driver 20 4 true) 19 1) /\
   valid_cursor (at_position (sample_driver 20 4 true) 19 1) /\
   LCD_DECODE_CURSOR (at_position (sample_driver 20 4 true) 19 1) = 83 /\
   ~ (0 <= LCD_DECODE_CURSOR (at_position (sample_driver 20 4 true) 19 1) < 80))
  /\
  (valid_dimensions (sample_driver 1 5 true) /\
   valid_cursor (at_position (sample_driver 1 5 true) 0 2) /\
   valid_cursor (at_position (sample_driver 1 5 true) 0 4) /\
   LCD_DECODE_CURSOR (at_position (sample_driver 1 5 true) 0 2) =
   LCD_DECODE_CURSOR (at_position (sample_driver 1 5 true) 0 4) /\
   cursor (at_position (sample_driver 1 5 true) 0 2) <>
   cursor (at_position (sample_driver 1 5 true) 0 4)).
Proof.
  unfold valid_dimensions, valid_cursor. simpl.
  repeat split; try lia; try reflexivity.
  - intros [_ H]. vm_compute in H. discriminate.
  - discriminate.
Qed.

Lemma address_of_injective (w h c1 r1 c2 r2 : Z) :
  1 <= w -> 1 <= h <= 4 -> w * h <= 80 ->
  0 <= c1 < w -> 0 <= r1 < h -> 0 <= c2 < w -> 0 <= r2 < h ->
  address_of w c1 r1 = address_of w c2 r2 -> c1 = c2 /\ r1 = r2.
Proof.
  intros Hw Hh Hwh Hc1 Hr1 Hc2 Hr2.
  assert (B1 : w * (r1 + 1) <= w * h) by (apply Z.mul_le_mono_nonneg_l; lia).
  assert (B2 : w * (r2 + 1) <= w * h) by (apply Z.mul_le_mono_nonneg_l; lia).
  assert (C1 : r1 = 0 \/ r1 = 1 \/ r1 = 2 \/ r1 = 3) by lia.
  assert (C2 : r2 = 0 \/ r2 = 1 \/ r2 = 2 \/ r2 = 3) by lia.
  unfold address_of.
  destruct C1 as [-> | [-> | [-> | ->]]];
    destruct C2 as [-> | [-> | [-> | ->]]];
    cbn [Z.geb Z.compare Pos.compare Pos.compare_cont];
    change (0 mod 2) with 0; change (1 mod 2) with 1;
    change (2 mod 2) with 0; change (3 mod 2) with 1; lia.
Qed.

(** C4, amended. With valid dimensions and valid positions the decoder's
    value lies in [0, 104), and on a display of at most four rows it is
    injective over the valid positions. *)
Theorem decode_range_injective (d1 d2 : lcdDriver_t) :
  valid_dimensions d1 -> dimensions d2 = dimensions d1 ->
  valid_cursor d1 -> valid_cursor d2 ->
  0 <= LCD_DECODE_CURSOR d1 < 104 /\
  (height (dimensions d1) <= 4 ->
   LCD_DECODE_CURSOR d1 = LCD_DECODE_CURSOR d2 -> cursor d1 = cursor d2).
Proof.
  intros (Hw & Hh & Hwh) Hd [Hx1 Hy1] [Hx2 Hy2]. rewrite Hd in Hx2, Hy2.
  rewrite decode_address_of by lia. split.
  - now apply (address_of_bound _ (height (dimensions d1))).
  - intros H4. rewrite decode_address_of by lia. rewrite Hd. intros E.
    apply (address_of_injective _ (height (dimensions d1))) in E; try lia.
    destruct (cursor d1), (cursor d2); simpl in *. destruct E; congruence.
Qed.

Lemma decode_range_injective_witness :
  0 <= LCD_DECODE_CURSOR (at_position (sample_driver 20 4 true) 19 3) < 104 /\
  (LCD_DECODE_CURSOR (at_position (sample_driver 20 4 true) 19 3) =
   LCD_DECODE_CURSOR (at_position (sample_driver 20 4 true) 19 3) ->
   cursor (at_position (sample_driver 20 4 true) 19 3) =
   cursor (at_position (sample_driver 20 4 true) 19 3)).
Proof.
  destruct (decode_range_injective
              (at_position (sample_driver 20 4 true) 19 3)
              (at_position (sample_driver 20 4 true) 19 3)) as [H1 H2];
    [unfold valid_dimensions; simpl; lia | reflexivity
     | unfold valid_cursor; simpl; lia | unfold valid_cursor; simpl; lia |].
  split; [exact H1 |]. apply H2. simpl; lia.
Defined.

(** ** Cursor advance *)

Lemma cursor_advance_forward (d : lcdDriver_t) :
  cursor (advance_forward d) =
  if to_int8 (x (cursor d) + 1) >=? width (dimensions d) then
    if to_int8 (y (cursor d) + 1) >=? height (dimensions d) then mkCursor 0 0
    else mkCursor 0 (to_int8 (y (cursor d) + 1))
  else mkCursor (to_int8 (x (cursor d) + 1)) (y (cursor d)).
Proof.
  unfold advance_forward, lcdUpdateCursor. cbn [set_direction direction
    dimensions cursor].
  destruct (_ >=? width _); [destruct (_ >=? height _) |]; reflexivity.
Qed.

Lemma cursor_advance_backward (d : lcdDriver_t) :
  cursor (advance_backward d) =
  if to_int8 (x (cursor d) - 1) <? 0 then
    if to_int8 (y (cursor d) - 1) <? 0
    then mkCursor (to_int8 (width (dimensions d) - 1))
                  (to_int8 (height (dimensions d) - 1))
    else mkCursor (to_int8 (width (dimensions d) - 1))
                  (to_int8 (y (cursor d) - 1))
  else mkCursor (to_int8 (x (cursor d) - 1)) (y (cursor d)).
Proof.
  unfold advance_backward, lcdUpdateCursor. cbn [set_direction direction
    dimensions cursor].
  destruct (to_int8 (x _ - 1) <? 0); [destruct (_ <? 0) |]; reflexivity.
Qed.

Lemma dimensions_lcdUpdateCursor (d : lcdDriver_t) :
  dimensions (lcdUpdateCursor d) = dimensions d.
Proof.
  unfold lcdUpdateCursor.
  repeat match goal with |- context [if ?b then _ else _] => destruct b end;
    reflexivity.
Qed.

Lemma dimensions_advance_forward (d : lcdDriver_t) :
  dimensions (advance_forward d) = dimensions d.
Proof. unfold advance_forward. now rewrite dimensions_lcdUpdateCursor. Qed.

Lemma forward_then_backward (d : lcdDriver_t) :
  well_typed d ->
  1 <= width (dimensions d) * height (dimensions d) ->
  valid_cursor d ->
  cursor (advance_backward (advance_forward d)) = cursor d.
Proof.
  intros (Hw & Hh & Hx & Hy) Hwh [Vx Vy].
  unfold is_uint8, is_int8 in *.
  rewrite cursor_advance_backward.
  rewrite !dimensions_advance_forward, cursor_advance_forward.
  destruct (cursor d) as [cx cy]. cbn [x y] in *.
  set (w := width (dimensions d)) in *. set (h := height (dimensions d)) in *.
  assert (Ex : cx = 127 \/ cx < 127) by lia.
  assert (Ey : cy = 127 \/ cy < 127) by lia.
  destruct Ex as [-> | Ex].
  - (* the column counter wraps to -128 and comes back *)
    change (to_int8 (127 + 1)) with (-128).
    destruct (Z.geb_spec (-128) w); [lia |]. cbn [x y]. reflexivity.
  - rewrite (to_int8_small (cx + 1)) by (unfold is_int8; lia).
    destruct (Z.geb_spec (cx + 1) w).
    + assert (cx = w - 1) by lia. subst cx.
      destruct Ey as [-> | Ey].
      * change (to_int8 (127 + 1)) with (-128).
        destruct (Z.geb_spec (-128) h); [lia |]. cbn [x y].
        change (to_int8 (0 - 1) <? 0) with true.
        change (to_int8 (-128 - 1) <? 0) with false. cbv iota.
        change (to_int8 (-128 - 1)) with 127.
        rewrite to_int8_small by (unfold is_int8; lia). reflexivity.
      * rewrite (to_int8_small (cy + 1)) by (unfold is_int8; lia).
        destruct (Z.geb_spec (cy + 1) h); cbn [x y];
          change (to_int8 (0 - 1) <? 0) with true; cbv iota.
        -- assert (cy = h - 1) by lia. subst cy.
           rewrite !to_int8_small by (unfold is_int8; lia). reflexivity.
        -- replace (cy + 1 - 1) with cy by lia.
           rewrite (to_int8_small cy) by (unfold is_int8; lia).
           destruct (Z.ltb_spec cy 0); [lia |].
           rewrite to_int8_small by (unfold is_int8; lia). reflexivity.
    + cbn [x y]. replace (cx + 1 - 1) with cx by lia.
      rewrite (to_int8_small cx) by (unfold is_int8; lia).
      destruct (Z.ltb_spec cx 0); [lia | reflexivity].
Qed.

Lemma forward_wraps (d : lcdDriver_t) :
  cursor_dimensions d ->
  cursor d = mkCursor (width (dimensions d) - 1) (height (dimensions d) - 1) ->
  cursor (advance_forward d) = mkCursor 0 0.
Proof.
  intros [Hw Hh] Hc. rewrite cursor_advance_forward, Hc. cbn [x y].
  rewrite !to_int8_small by (unfold is_int8; lia).
  destruct (Z.geb_spec (width (dimensions d) - 1 + 1) (width (dimensions d)));
    [| lia].
  destruct (Z.geb_spec (height (dimensions d) - 1 + 1) (height (dimensions d)));
    [reflexivity | lia].
Qed.

Lemma backward_wraps (d : lcdDriver_t) :
  cursor_dimensions d ->
  cursor d = mkCursor 0 0 ->
  cursor (advance_backward d) =
  mkCursor (width (dimensions d) - 1) (height (dimensions d) - 1).
Proof.
  intros [Hw Hh] Hc. rewrite cursor_advance_backward, Hc. cbn [x y].
  change (to_int8 (0 - 1) <? 0) with true. cbv iota.
  rewrite !to_int8_small by (unfold is_int8; lia). reflexivity.
Qed.

(** C5. For every driver whose fields hold values of their C types, with
    [width*height >= 1] and a valid cursor, a forward advance followed by a
    backward advance restores the cursor.  With dimensions that the signed
    8-bit cursor can count (up to 127, which covers every display of at most
    80 cells), advancing forward from [(width-1, height-1)] gives [(0,0)]
    and advancing backward from [(0,0)] gives [(width-1, height-1)]. *)
Theorem advance_round_trip (d : lcdDriver_t) :
  well_typed d ->
  1 <= width (dimensions d) * height (dimensions d) ->
  valid_cursor d ->
  cursor (advance_backward (advance_forward d)) = cursor d /\
  (cursor_dimensions d ->
   cursor (advance_forward
             (at_position d (width (dimensions d) - 1)
                          (height (dimensions d) - 1))) = mkCursor 0 0 /\
   cursor (advance_backward (at_position d 0 0)) =
   mkCursor (width (dimensions d) - 1) (height (dimensions d) - 1)).
Proof.
  intros Ht Hwh Hv. split; [now apply forward_then_backward |].
  intros Hd. split.
  - now apply forward_wraps.
  - now apply (backward_wraps (at_position d 0 0)).
Qed.

Lemma advance_round_trip_witness :
  cursor (advance_backward
            (advance_forward (at_position (sample_driver 16 2 true) 15 1))) =
  mkCursor 15 1 /\
  cursor (advance_forward (at_position (sample_driver 16 2 true) 15 1)) =
  mkCursor 0 0 /\
  cursor (advance_backward (at_position (sample_driver 16 2 true) 0 0)) =
  mkCursor 15 1.
Proof.
  destruct (advance_round_trip (at_position (sample_driver 16 2 true) 15 1))
    as [H1 H2];
    [unfold well_typed, is_uint8, is_int8; simpl; lia | simpl; lia
     | unfold valid_cursor; simpl; lia |].
  split; [exact H1 |].
  apply H2. unfold cursor_dimensions; simpl; lia.
Defined.

(** ** The cursor invariant *)

Lemma cursor_ok_set_error (d : lcdDriver_t) (e : Z) :
  cursor_ok d -> cursor_ok (set_error e d).
Proof. intros H; exact H. Qed.

Lemma cursor_ok_set_direction (b : bool) (d : lcdDriver_t) :
  cursor_ok d -> cursor_ok (set_direction b d).
Proof. intros H; exact H. Qed.

Lemma cursor_ok_origin (d : lcdDriver_t) :
  cursor_ok d -> cursor_ok (set_cursor (mkCursor 0 0) d).
Proof.
  intros [[Hw Hh] _]. split; [split; assumption |].
  unfold valid_cursor; simpl; lia.
Qed.

Lemma cursor_ok_lcdUpdateCursor (d : lcdDriver_t) :
  cursor_ok d -> cursor_ok (lcdUpdateCursor d).
Proof.
  intros [[Hw Hh] [Hx Hy]]. unfold cursor_ok, cursor_dimensions, valid_cursor.
  rewrite dimensions_lcdUpdateCursor. split; [split; assumption |].
  destruct (direction d) eqn:Hdir.
  - replace (lcdUpdateCursor d) with (advance_forward d)
      by (unfold advance_forward; destruct d; simpl in Hdir; now subst).
    rewrite cursor_advance_forward.
    rewrite !to_int8_small by (unfold is_int8; lia).
    destruct (Z.geb_spec (x (cursor d) + 1) (width (dimensions d)));
      [destruct (Z.geb_spec (y (cursor d) + 1) (height (dimensions d))) |];
      simpl; lia.
  - replace (lcdUpdateCursor d) with (advance_backward d)
      by (unfold advance_backward; destruct d; simpl in Hdir; now subst).
    rewrite cursor_advance_backward.
    rewrite !to_int8_small by (unfold is_int8; lia).
    destruct (Z.ltb_spec (x (cursor d) - 1) 0);
      [destruct (Z.ltb_spec (y (cursor d) - 1) 0) |]; simpl; lia.
Qed.

Lemma cursor_ok_set_position (col row : Z) (d : lcdDriver_t) :
  is_uint8 col -> is_uint8 row -> cursor_ok d ->
  (width (dimensions d) >? col) = true ->
  (height (dimensions d) >? row) = true ->
  cursor_ok (set_cursor (mkCursor (to_int8 col) (to_int8 row)) d).
Proof.
  unfold is_uint8. intros Hc Hr [[Hw Hh] _] Ew Eh.
  apply Z.gtb_lt in Ew, Eh. split; [split; assumption |].
  unfold valid_cursor. simpl.
  rewrite !to_int8_small by (unfold is_int8; lia). lia.
Qed.

Lemma keeps_cursor_ok (io : nat -> event -> Z) (fuel : nat) (op : operation) :
  well_typed_op op -> keeps cursor_ok (fun _ => True) (run io fuel op).
Proof.
  intros Hop.
  assert (He := cursor_ok_set_error).
  assert (Ho := cursor_ok_origin).
  assert (Hu := cursor_ok_lcdUpdateCursor).
  destruct op; cbn [run].
  - apply keeps_lcdCommand; auto.
  - apply keeps_lcdWrite; auto.
  - apply keeps_lcdInit; auto.
  - apply keeps_lcdClear; auto.
  - apply keeps_lcdHome; auto.
  - apply keeps_lcdDirection; auto using cursor_ok_set_direction.
  - apply keeps_lcdNext; auto.
  - apply keeps_lcdSetDisplay; auto.
  - destruct Hop as [Hc Hr].
    apply keeps_lcdSetCursor; auto using cursor_ok_set_position.
  - apply keeps_lcdStoreGlyph; auto.
  - apply keeps_lcdPutChar; auto.
  - apply keeps_lcdPutString; auto.
Qed.

(** C8. With dimensions from 1 to 127 (every display of at most 80 cells
    has such dimensions) and well-typed arguments, every operation entered
    with a valid cursor leaves a valid cursor and the same dimensions,
    whether it returns or stops at an assertion. *)
Theorem operations_preserve_valid_cursor
        (io : nat -> event -> Z) (fuel : nat) (op : operation)
        (d : lcdDriver_t) (w' : world) :
  1 <= width (dimensions d) <= 127 -> 1 <= height (dimensions d) <= 127 ->
  well_typed_op op ->
  valid_cursor d ->
  final_world (run io fuel op (start d)) = Some w' ->
  valid_cursor (drv w').
Proof.
  intros Hw Hh Hop Hc E.
  pose proof (keeps_cursor_ok io fuel op Hop (start d)) as K.
  rewrite E in K. destruct K as [[_ K] _]; [| exact K].
  split; [split |]; assumption.
Qed.

Lemma operations_preserve_valid_cursor_witness :
  exists w',
    final_world (run zero_io 0 (OpPutString [72; 105])
                     (start (at_position (sample_driver 16 2 true) 15 1)))
    = Some w' /\ valid_cursor (drv w').
Proof.
  eexists. split; [vm_compute; reflexivity |].
  apply (operations_preserve_valid_cursor zero_io 0 (OpPutString [72; 105])
           (at_position (sample_driver 16 2 true) 15 1));
    [simpl; lia | simpl; lia | exact Logic.I
     | unfold valid_cursor; simpl; lia | vm_compute; reflexivity].
Defined.

(** ** 8-bit initialisation *)

(** C9. With the 8-bit bus width configured, [lcdInit] stops at the
    assertion: it has reset the cursor fields, has made no collaborator call
    and does not return. *)
Theorem lcdInit_8bit_asserts
        (io : nat -> event -> Z) (fuel : nat) (d : lcdDriver_t) :
  fourBits d = false ->
  lcdInit io fuel (start d) =
  AssertFail (mkWorld (set_cursor (mkCursor 0 0) d) []).
Proof.
  intros H. unfold lcdInit, bind, modify_driver, get_driver, start.
  cbn [drv trace set_cursor fourBits]. rewrite H. reflexivity.
Qed.

Lemma lcdInit_8bit_asserts_witness :
  lcdInit zero_io 3
    (start (mkDriver 0 (mkDimensions 16 2) false false false
                     (mkBusTiming 10 10 10 50 500 50000) (mkCursor 3 1) true))
  = AssertFail
      (mkWorld (mkDriver 0 (mkDimensions 16 2) false false false
                         (mkBusTiming 10 10 10 50 500 50000)
                         (mkCursor 0 0) true) []).
Proof.
  apply (lcdInit_8bit_asserts zero_io 3
           (mkDriver 0 (mkDimensions 16 2) false false false
                     (mkBusTiming 10 10 10 50 500 50000) (mkCursor 3 1) true)).
  reflexivity.
Defined.

(** ** Write-only mode *)

Lemma write_only_lcdUpdateCursor (d : lcdDriver_t) :
  write_only d -> write_only (lcdUpdateCursor d).
Proof.
  unfold write_only, lcdUpdateCursor.
  repeat match goal with |- context [if ?b then _ else _] => destruct b end;
    auto.
Qed.

Lemma keeps_write_only (io : nat -> event -> Z) (fuel : nat) (op : operation) :
  keeps write_only bus_write (run io fuel op).
Proof.
  assert (He : forall d e, write_only d -> write_only (set_error e d)) by auto.
  assert (Hw : forall rs en v r, bus_write (BusIO false rs en v, r))
    by reflexivity.
  assert (Hd : forall us r, bus_write (Delay us, r)) by (intros; exact Logic.I).
  assert (Hr : forall d, write_only d -> writeOnly d = false ->
                         forall c, bus_write c)
    by (unfold write_only; intros; congruence).
  assert (Hu := write_only_lcdUpdateCursor).
  destruct op; cbn [run].
  - apply keeps_lcdCommand; auto.
  - apply keeps_lcdWrite; auto.
  - apply keeps_lcdInit; auto.
  - apply keeps_lcdClear; auto.
  - apply keeps_lcdHome; auto.
  - apply keeps_lcdDirection; auto.
  - apply keeps_lcdNext; auto.
  - apply keeps_lcdSetDisplay; auto.
  - apply keeps_lcdSetCursor; auto.
  - apply keeps_lcdStoreGlyph; auto.
  - apply keeps_lcdPutChar; auto.
  - apply keeps_lcdPutString; auto.
Qed.

Lemma transfer_write_only_returns
      (io : nat -> event -> Z) (fuel : nat) (rs : bool) (byte : Z) (w : world) :
  writeOnly (drv w) = true ->
  exists r w', transfer io fuel rs byte w = Ret r w'.
Proof.
  intros H. unfold transfer, bind, get_driver. rewrite any_failed_eq.
  destruct (negb _); [eexists _, _; reflexivity |].
  assert (Hwait : forall w1, exists r w',
             wait_ready io fuel (drv w) w1 = Ret r w').
  { intros w1. unfold wait_ready. rewrite H. eexists _, _; reflexivity. }
  destruct (fourBits (drv w)).
  - rewrite any_failed_eq.
    destruct (negb _); [eexists _, _; reflexivity | apply Hwait].
  - unfold ret. apply Hwait.
Qed.

Lemma lcdInit4Bit_write_only_returns
      (io : nat -> event -> Z) (fuel : nat) (w : world) :
  writeOnly (drv w) = true ->
  exists r w', lcdInit4Bit io fuel w = Ret r w'.
Proof.
  intros H. unfold lcdInit4Bit, bind, get_driver. rewrite any_failed_eq.
  destruct (negb _); [eexists _, _; reflexivity |].
  rewrite any_failed_eq.
  destruct (negb _); [eexists _, _; reflexivity |].
  now apply transfer_write_only_returns.
Qed.

(** C10. In write-only mode every call an operation makes is a delay or a
    bus transaction with [rw = 0]; [lcdCommand], [lcdWrite] and
    [lcdInit4Bit] return whatever the fuel, so the busy-flag poll is never
    entered. *)
Theorem write_only_never_reads
        (io : nat -> event -> Z) (fuel : nat) (d : lcdDriver_t) :
  writeOnly d = true ->
  (forall op w', final_world (run io fuel op (start d)) = Some w' ->
                 Forall bus_write (trace w')) /\
  (forall command, exists r w',
      lcdCommand io fuel command (start d) = Ret r w' /\
      Forall bus_write (trace w')) /\
  (forall data, exists r w',
      lcdWrite io fuel data (start d) = Ret r w' /\
      Forall bus_write (trace w')) /\
  (exists r w', lcdInit4Bit io fuel (start d) = Ret r w' /\
                Forall bus_write (trace w')).
Proof.
  intros H.
  assert (All : forall op w',
             final_world (run io fuel op (start d)) = Some w' ->
             Forall bus_write (trace w')).
  { intros op w' E. pose proof (keeps_write_only io fuel op (start d) H) as K.
    rewrite E in K. destruct K as (_ & l & -> & F). exact F. }
  split; [exact All |]. split; [| split].
  - intros c.
    destruct (transfer_write_only_returns io fuel false (to_uint8 c)
                (start d) H) as (r & w' & E).
    exists r, w'. split; [exact E |].
    apply (All (OpCommand c)). cbn [run]. unfold lcdCommand. now rewrite E.
  - intros v.
    destruct (transfer_write_only_returns io fuel true (to_uint8 v)
                (start d) H) as (r & w' & E).
    exists r, w'. split; [exact E |].
    apply (All (OpWrite v)). cbn [run]. unfold lcdWrite. now rewrite E.
  - destruct (lcdInit4Bit_write_only_returns io fuel (start d) H)
      as (r & w' & E).
    exists r, w'. split; [exact E |].
    pose proof (keeps_lcdInit4Bit io write_only bus_write) as K.
    specialize (K (fun d e Hd => Hd) (fun _ _ _ _ => eq_refl)
                  (fun _ _ => Logic.I)).
    assert (Hr : forall d0, write_only d0 -> writeOnly d0 = false ->
                            forall c, bus_write c)
      by (unfold write_only; intros; congruence).
    specialize (K Hr fuel (start d) H). rewrite E in K.
    destruct K as (_ & l & -> & F). exact F.
Qed.

Lemma write_only_never_reads_witness :
  exists r w',
    lcdInit4Bit zero_io 0 (start (sample_driver 16 2 true)) = Ret r w' /\
    Forall bus_write (trace w').
Proof.
  apply (write_only_never_reads zero_io 0 (sample_driver 16 2 true)).
  reflexivity.
Defined.

(** ** The shape of a byte transfer *)

Section Shapes.

Variable io : nat -> event -> Z.

Lemma attempted_length_clean (k : nat) (es : list event) :
  clean (attempted io k es) = true ->
  length (attempted io k es) = length es.
Proof.
  intros H. rewrite (attempted_clean io k es H). apply respond_length.
Qed.

Lemma attempted_app (k : nat) (l1 l2 : list event) :
  attempted io k (l1 ++ l2) =
  if clean (attempted io k l1)
  then attempted io k l1 ++ attempted io (k + length l1) l2
  else attempted io k l1.
Proof.
  revert k. induction l1 as [| e l1 IH]; intros k.
  - simpl. now rewrite Nat.add_0_r.
  - cbn [app attempted]. destruct (call_failed (e, io k e)) eqn:E.
    + cbn [clean forallb]. rewrite E. reflexivity.
    + cbn [clean forallb]. rewrite E. cbn [negb andb].
      rewrite IH. fold (clean (attempted io (S k) l1)).
      destruct (clean (attempted io (S k) l1)); [| reflexivity].
      cbn [length app]. now rewrite Nat.add_succ_r.
Qed.

Lemma respond_app (k : nat) (l1 l2 : list event) :
  respond io k (l1 ++ l2) = respond io k l1 ++ respond io (k + length l1) l2.
Proof.
  revert k. induction l1 as [| e l1 IH]; intros k.
  - simpl. now rewrite Nat.add_0_r.
  - cbn [app respond length]. rewrite IH. now rewrite Nat.add_succ_r.
Qed.

(** Running two chains one after the other is running their concatenation. *)
Lemma any_failed_then (l1 l2 : list event) (w : world) :
  (f <- any_failed io l1 ;; if f then ret true else any_failed io l2) w =
  any_failed io (l1 ++ l2) w.
Proof.
  unfold bind. rewrite !any_failed_eq, attempted_app.
  destruct (clean (attempted io (length (trace w)) l1)) eqn:C; cbn [negb].
  - rewrite any_failed_eq. cbn [drv trace].
    rewrite length_app, (attempted_length_clean _ _ C), clean_app, C.
    cbn [andb]. now rewrite app_assoc.
  - unfold ret. now rewrite C.
Qed.

Lemma poll_once_eq (d : lcdDriver_t) (w : world) :
  poll_once io d w =
  let k := length (trace w) in
  let l := attempted io k (poll_events d) in
  Ret (if clean l then Some (io (k + 3) (BusIO true false true 0)) else None)
      (mkWorld (drv w) (trace w ++ l)).
Proof.
  cbv zeta. unfold poll_once, poll_events, bind.
  set (pre := [Delay _; BusIO true false true 0; Delay _]).
  set (post := BusIO true false false 0 :: _).
  rewrite any_failed_eq, (attempted_app _ pre).
  set (k := length (trace w)).
  destruct (clean (attempted io k pre)) eqn:C1; cbn [negb];
    [| unfold ret; rewrite C1; reflexivity].
  unfold lcdBusIO, call. cbn [drv trace].
  rewrite length_app, (attempted_length_clean _ _ C1).
  change (length pre) with 3%nat. fold k.
  rewrite (attempted_app _ [BusIO true false true 0]).
  assert (Hs : forall r, clean [(BusIO true false true 0, r)] = negb (r <? 0))
    by (intros r; apply andb_true_r).
  cbn [attempted call_failed fst snd length].
  set (v := io (k + 3) (BusIO true false true 0)).
  replace (if v <? 0 then [(BusIO true false true 0, v)]
           else [(BusIO true false true 0, v)])
    with [(BusIO true false true 0, v)] by (now destruct (v <? 0)).
  rewrite Hs. destruct (v <? 0) eqn:Ev; cbn [negb].
  - unfold ret. rewrite clean_app, C1, Hs, Ev. cbn [negb andb].
    now rewrite <- app_assoc.
  - rewrite any_failed_eq. cbn [drv trace].
    rewrite !length_app, (attempted_length_clean _ _ C1).
    change (length pre) with 3%nat. fold k. cbn [length].
    rewrite !clean_app, C1, Hs, Ev. cbn [negb andb].
    destruct (clean (attempted io (k + 3 + 1) post)) eqn:C3;
      cbn [negb]; unfold ret; rewrite <- !app_assoc; reflexivity.
Qed.

End Shapes.

(** ** How a byte transfer can end *)

Section TransferCases.

Variable io : nat -> event -> Z.

Lemma io_failed_eq (w : world) :
  io_failed w = Ret (-1) (mkWorld (set_error EIO (drv w)) (trace w)).
Proof. reflexivity. Qed.

Lemma failure_exit_attempted (w : world) (es : list event) :
  clean (attempted io (length (trace w)) es) = false ->
  failure_exit w (-1)
    (mkWorld (set_error EIO (drv w))
             (trace w ++ attempted io (length (trace w)) es)).
Proof.
  intros Hc. split; [reflexivity |]. eexists. split; [reflexivity |].
  split; [apply attempted_almost_clean | exact Hc].
Qed.

Lemma busy_poll_cases (fuel : nat) (d : lcdDriver_t) (w : world) :
  poll_result w (busy_poll io fuel d w).
Proof.
  revert w. induction fuel as [| fuel IH]; intros w; [exact Logic.I |].
  cbn [busy_poll]. unfold bind. rewrite poll_once_eq. cbv zeta.
  set (l0 := attempted io (length (trace w)) (poll_events d)).
  destruct (clean l0) eqn:C0.
  - destruct (Z.testbit _ 7).
    + specialize (IH (mkWorld (drv w) (trace w ++ l0))).
      destruct (busy_poll io fuel d _) as [r w' | w' |]; [| exact IH | exact IH].
      cbn [poll_result drv trace] in IH |- *.
      destruct IH as [(Hr & l & Hw & Ha & Hc) | (l & Hw & Hc)].
      * left. split; [exact Hr |]. exists (l0 ++ l).
        rewrite Hw. cbn [drv trace]. rewrite <- app_assoc.
        split; [reflexivity |]. split; [now apply almost_clean_app |].
        rewrite clean_app, Hc. apply andb_false_r.
      * right. exists (l0 ++ l). rewrite Hw, <- !app_assoc.
        split; [reflexivity |]. now rewrite clean_app, C0.
    + right. exists l0. unfold lcdBusIO, call. cbn [drv trace].
      rewrite <- app_assoc. split; [reflexivity | exact C0].
  - rewrite io_failed_eq. cbn [drv trace poll_result transfer_result]. left.
    now apply failure_exit_attempted.
Qed.

Lemma wait_ready_cases (fuel : nat) (w : world) :
  match wait_ready io fuel (drv w) w with
  | Ret r w' =>
      failure_exit w r w' \/
      exists l, w' = mkWorld (drv w) (trace w ++ l ++ [(final_call (drv w), r)])
                /\ clean l = true /\ (writeOnly (drv w) = true -> l = [])
  | AssertFail _ => False
  | OutOfFuel => writeOnly (drv w) = false
  end.
Proof.
  unfold wait_ready, final_call. destruct (writeOnly (drv w)) eqn:Hwo.
  - right. exists []. unfold lcdDelay, call. auto.
  - unfold bind. rewrite any_failed_eq.
    set (l0 := attempted io (length (trace w)) _).
    destruct (clean l0) eqn:C0; cbn [negb].
    + pose proof (busy_poll_cases fuel (drv w)
                    (mkWorld (drv w) (trace w ++ l0))) as P.
      destruct (busy_poll io fuel (drv w) _) as [r w' | w' |];
        [| exact P | reflexivity].
      cbn [poll_result drv trace] in P.
      destruct P as [(Hr & l & Hw & Ha & Hc) | (l & Hw & Hc)].
      * left. split; [exact Hr |]. exists (l0 ++ l).
        rewrite Hw. cbn [drv trace]. rewrite <- app_assoc.
        split; [reflexivity |]. split; [now apply almost_clean_app |].
        rewrite clean_app, Hc. apply andb_false_r.
      * right. exists (l0 ++ l). rewrite Hw, <- !app_assoc.
        split; [reflexivity |]. split; [| discriminate].
        now rewrite clean_app, C0.
    + rewrite io_failed_eq. cbn [drv trace poll_result transfer_result]. left.
    now apply failure_exit_attempted.
Qed.

Lemma transfer_write_phase (d : lcdDriver_t) (rs : bool) (byte : Z) (w : world) :
  (f <- any_failed io (write_cycle d rs byte) ;;
   if f then ret true
   else if fourBits d
        then any_failed io (write_cycle d rs (to_uint8 (Z.shiftl byte 4)))
        else ret false) w =
  any_failed io (byte_events d rs byte) w.
Proof.
  unfold byte_events. destruct (fourBits d).
  - apply any_failed_then.
  - rewrite app_nil_r. unfold bind. rewrite any_failed_eq.
    destruct (negb _); reflexivity.
Qed.

Lemma transfer_cases (fuel : nat) (rs : bool) (byte : Z) (w : world) :
  transfer_result io rs byte w (transfer io fuel rs byte w).
Proof.
  assert (E : transfer io fuel rs byte w =
              (f <- any_failed io (byte_events (drv w) rs byte) ;;
               if f then io_failed else wait_ready io fuel (drv w)) w).
  { unfold bind at 1. rewrite <- transfer_write_phase.
    unfold transfer, bind, get_driver.
    destruct (any_failed io (write_cycle (drv w) rs byte) w)
      as [[|] w1 | w1 |]; reflexivity. }
  rewrite E. unfold bind. rewrite any_failed_eq.
  set (l1 := attempted io (length (trace w)) _).
  destruct (clean l1) eqn:C1; cbn [negb].
  - pose proof (wait_ready_cases fuel (mkWorld (drv w) (trace w ++ l1))) as P.
    cbn [drv trace] in P.
    destruct (wait_ready io fuel (drv w) _) as [r w' | w' |];
      [| exact P | exact P].
    cbn [transfer_result]. unfold failure_exit in *. cbn [drv trace] in P.
    destruct P as [(Hr & l & Hw & Ha & Hc) | (l & Hw & Hc & Hwo)].
    + left. split; [exact Hr |]. exists (l1 ++ l).
      rewrite Hw, <- app_assoc.
      split; [reflexivity |]. split; [now apply almost_clean_app |].
      rewrite clean_app, Hc. apply andb_false_r.
    + right. exists l. unfold l1 in *.
      rewrite <- (attempted_clean io _ _ C1).
      rewrite Hw, <- !app_assoc. split; [reflexivity |].
      split; [| exact Hwo]. now rewrite clean_app, C1.
  - rewrite io_failed_eq. cbn [drv trace poll_result transfer_result]. left.
    now apply failure_exit_attempted.
Qed.

(** What a transfer does to the driver structure: nothing, or it latches
    [EIO]; and nothing when it returns 0. *)
Lemma transfer_driver (fuel : nat) (rs : bool) (byte : Z) (w : world) :
  match transfer io fuel rs byte w with
  | Ret r w' =>
      (drv w' = drv w \/ (drv w' = set_error EIO (drv w) /\ r = -1)) /\
      (r = 0 -> drv w' = drv w) /\
      exists l, trace w' = trace w ++ l
  | AssertFail _ => False
  | OutOfFuel => True
  end.
Proof.
  pose proof (transfer_cases fuel rs byte w) as T.
  destruct (transfer io fuel rs byte w) as [r w' | w' |];
    [| exact T | exact Logic.I].
  cbn [transfer_result] in T.
  destruct T as [(Hr & l & -> & _) | (l2 & -> & _)]; cbn [drv trace].
  - split; [right; now split |]. split; [intros ->; discriminate |].
    now exists l.
  - split; [now left |]. split; [reflexivity |]. eexists; reflexivity.
Qed.

(** Where [EIO] is latched: a failing call in the write phase, or on a
    read-capable bus any failing call but the closing [lcdBusIO(0,0,0,0)],
    ends the transfer with [-1] and [error = EIO]. *)
Lemma transfer_latches (fuel : nat) (rs : bool) (byte : Z) (w : world)
      (r : Z) (w' : world) (l : list (event * Z)) (k : nat) (c : event * Z) :
  transfer io fuel rs byte w = Ret r w' ->
  trace w' = trace w ++ l ->
  nth_error l k = Some c -> call_failed c = true ->
  (k < length (byte_events (drv w) rs byte))%nat \/
  (writeOnly (drv w) = false /\ fst c <> BusIO false false false 0) ->
  error (drv w') = EIO /\ r = -1.
Proof.
  intros E Hl Hk Hf Hpos.
  pose proof (transfer_cases fuel rs byte w) as T. rewrite E in T.
  cbn [transfer_result] in T.
  destruct T as [(Hr & l' & -> & _) | (l2 & -> & Hc & Hwo)];
    [now split |].
  exfalso. cbn [trace] in Hl. apply app_inv_head in Hl. subst l.
  set (l1 := respond io (length (trace w)) (byte_events (drv w) rs byte)) in *.
  rewrite app_assoc in Hk.
  assert (Hk' : k = length (l1 ++ l2)).
  { assert (Hac : almost_clean ((l1 ++ l2) ++ [(final_call (drv w), r)]) = true)
      by (apply almost_clean_app; [exact Hc | reflexivity]).
    pose proof (almost_clean_failed_last _ k c Hac Hk Hf) as Hlen.
    rewrite length_app in Hlen. cbn [length] in Hlen. lia. }
  subst k. rewrite nth_error_app2, Nat.sub_diag in Hk by lia.
  injection Hk as <-. cbn [fst] in Hpos.
  destruct Hpos as [Hlt | [Hwo' Hne]].
  - rewrite length_app in Hlt. unfold l1 in Hlt.
    rewrite respond_length in Hlt. lia.
  - unfold final_call in Hne. rewrite Hwo' in Hne. now apply Hne.
Qed.

End TransferCases.

(** ** Fail-fast behaviour of the operations *)

Section Abort.

Variable io : nat -> event -> Z.

Lemma sound_run (fuel : nat) (op : operation) : sound zero (run io fuel op).
Proof.
  destruct op; cbn [run].
  - apply sound_lcdCommand.
  - apply sound_lcdWrite.
  - apply sound_lcdInit.
  - apply sound_lcdClear.
  - apply sound_lcdHome.
  - apply sound_lcdDirection.
  - apply sound_lcdNext.
  - apply sound_lcdCommand.
  - apply sound_lcdSetCursor.
  - apply sound_lcdStoreGlyph.
  - apply sound_lcdPutChar.
  - apply sound_lcdPutString.
Qed.

(** No call is made after a failing one, and an operation that returns 0
    saw no failing call. *)
Lemma run_aborts (fuel : nat) (op : operation) (w w' : world) :
  final_world (run io fuel op w) = Some w' ->
  exists l, trace w' = trace w ++ l /\
    (forall k c, nth_error l k = Some c -> call_failed c = true ->
                 length l = S k) /\
    (run io fuel op w = Ret 0 w' -> clean l = true).
Proof.
  intros E. pose proof (sound_run fuel op w) as S.
  destruct (run io fuel op w) as [r w1 | w1 |]; [| | discriminate];
    injection E as ->.
  - destruct S as (l & Hl & Ha & Hc). exists l. split; [exact Hl |].
    split; [intros k c; now apply almost_clean_failed_last |].
    intros [= ->]. now apply Hc.
  - destruct S as (l & Hl & Hc). exists l. split; [exact Hl |].
    split; [| discriminate].
    intros k c. apply almost_clean_failed_last. now apply clean_almost_clean.
Qed.

Lemma byte_events_length (d : lcdDriver_t) (rs : bool) (byte : Z) :
  length (byte_events d rs byte) = if fourBits d then 12%nat else 6%nat.
Proof. unfold byte_events. now destruct (fourBits d). Qed.

Lemma lcdSetCursor_cursor (fuel : nat) (col row : Z) (w w' : world) :
  (width (dimensions (drv w)) >? col) = true ->
  (height (dimensions (drv w)) >? row) = true ->
  final_world (lcdSetCursor io fuel col row w) = Some w' ->
  cursor (drv w') = mkCursor (to_int8 col) (to_int8 row).
Proof.
  intros Ew Eh. unfold lcdSetCursor, bind, get_driver, c_assert.
  rewrite Ew, Eh. cbn [modify_driver drv trace]. unfold lcdCommand.
  set (w1 := mkWorld _ (trace w)). set (c := to_uint8 _).
  pose proof (transfer_driver io fuel false c w1) as T.
  destruct (transfer io fuel false c w1) as [r w2 | w2 |];
    [| contradiction | discriminate].
  intros [= ->]. destruct T as ([-> | [-> _]] & _); reflexivity.
Qed.

Lemma lcdInit_cursor (fuel : nat) (w w' : world) :
  final_world (lcdInit io fuel w) = Some w' -> cursor (drv w') = mkCursor 0 0.
Proof.
  change (lcdInit io fuel w)
    with (lcdInit io fuel (mkWorld (set_cursor (mkCursor 0 0) (drv w))
                                   (trace w))).
  intros E.
  pose proof (keeps_lcdInit io at_origin (fun _ => True)) as K.
  specialize (K (fun d e H => H) (fun _ _ _ _ => Logic.I) (fun _ _ => Logic.I)
                (fun _ _ _ _ => Logic.I) fuel (fun d _ => eq_refl)
                (mkWorld (set_cursor (mkCursor 0 0) (drv w)) (trace w))
                eq_refl).
  rewrite E in K. exact (proj1 K).
Qed.

(** After [put_chars] the cursor has been advanced once per character
    written, all of them when it returns 0. *)
Lemma put_chars_cursor (fuel : nat) (str : list Z) (address : Z) (w : world) :
  match put_chars io fuel str address w with
  | Ret r w' =>
      exists j, (j <= length str)%nat /\
                cursor (drv w') = cursor (Nat.iter j lcdUpdateCursor (drv w)) /\
                (r = 0 -> j = length str)
  | AssertFail _ => False
  | OutOfFuel => True
  end.
Proof.
  revert address w. induction str as [| c str IH]; intros address w.
  - cbn [put_chars]. unfold lcdCommand.
    pose proof (transfer_driver io fuel false
                  (to_uint8 (LCD_CMD_DADDR address)) w) as T.
    destruct (transfer io fuel false _ w) as [r w' | w' |]; auto.
    exists 0%nat. split; [reflexivity |]. split; [| reflexivity].
    destruct T as ([-> | [-> _]] & _); reflexivity.
  - cbn [put_chars]. unfold bind at 1. unfold lcdWrite.
    pose proof (transfer_driver io fuel true (to_uint8 c) w) as T.
    destruct (transfer io fuel true (to_uint8 c) w) as [r w1 | w1 |]; auto.
    destruct T as (Hd & H0 & _). unfold truthy.
    destruct (Z.eqb_spec r 0) as [-> | Hr]; cbn [negb].
    + specialize (H0 eq_refl).
      unfold bind at 1. cbn [modify_driver]. unfold bind at 1.
      cbn [get_driver drv trace]. rewrite H0.
      set (w2 := mkWorld (lcdUpdateCursor (drv w)) (trace w1)).
      set (newaddr := to_uint8 (LCD_DECODE_CURSOR (lcdUpdateCursor (drv w)))).
      assert (Hnext : forall w3, drv w3 = lcdUpdateCursor (drv w) ->
                match put_chars io fuel str newaddr w3 with
                | Ret r w' =>
                    exists j, (j <= length (c :: str))%nat /\
                      cursor (drv w') =
                      cursor (Nat.iter j lcdUpdateCursor (drv w)) /\
                      (r = 0 -> j = length (c :: str))
                | AssertFail _ => False
                | OutOfFuel => True
                end).
      { intros w3 H3. specialize (IH newaddr w3).
        destruct (put_chars io fuel str newaddr w3) as [r w' | w' |]; auto.
        destruct IH as (j & Hj & Hc & Hz). exists (S j).
        split; [cbn [length]; lia |]. rewrite Nat.iter_succ_r, <- H3.
        split; [exact Hc |]. intros Hr. cbn [length]. now rewrite Hz. }
      unfold bind. destruct (negb (newaddr =? address + 1)).
      * unfold test, bind, lcdCommand.
        pose proof (transfer_driver io fuel false
                      (to_uint8 (LCD_CMD_DADDR address)) w2) as T2.
        destruct (transfer io fuel false _ w2) as [r2 w3 | w3 |]; auto.
        destruct T2 as (Hd2 & H02 & _). unfold ret, truthy.
        destruct (Z.eqb_spec r2 0) as [-> | Hr2]; cbn [negb].
        -- apply Hnext. now rewrite H02.
        -- exists 1%nat. split; [cbn [length]; lia |].
           split; [| discriminate].
           destruct Hd2 as [-> | [-> _]]; reflexivity.
      * unfold ret. now apply Hnext.
    + unfold ret. exists 0%nat. split; [cbn [length]; lia |].
      split; [| discriminate].
      destruct Hd as [-> | [-> _]]; reflexivity.
Qed.

Lemma lcdPutString_cursor (fuel : nat) (str : list Z) (w : world)
      (r : Z) (w' : world) :
  lcdPutString io fuel str w = Ret r w' ->
  exists j, (j <= length str)%nat /\
            cursor (drv w') = cursor (Nat.iter j lcdUpdateCursor (drv w)) /\
            (r = 0 -> j = length str).
Proof.
  unfold lcdPutString, bind, get_driver, lcdCommand.
  set (c := to_uint8 _).
  pose proof (transfer_driver io fuel false c w) as T.
  destruct (transfer io fuel false c w) as [r1 w1 | w1 |];
    [| contradiction | discriminate].
  destruct T as (Hd & H0 & _). unfold truthy.
  destruct (Z.eqb_spec r1 0) as [-> | Hr1]; cbn [negb].
  - specialize (H0 eq_refl). intros E.
    pose proof (put_chars_cursor fuel str
                  (to_uint8 (LCD_DECODE_CURSOR (drv w))) w1) as P.
    rewrite E in P. now rewrite H0 in P.
  - unfold ret. intros [= <- <-]. exists 0%nat.
    split; [lia |]. split; [| discriminate].
    destruct Hd as [-> | [-> _]]; reflexivity.
Qed.

End Abort.

(** C3 as stated does not hold: [lcdSetCursor] whose first call fails has
    already stored the new position; [lcdInit] has already reset the cursor;
    and when the last call of [lcdCommand] (here the write-only hold delay,
    call 12 in 4-bit mode) fails, [error] is left as it was. *)
Lemma failure_without_latch_or_with_cursor_change :
  (match lcdSetCursor (fail_at 0) 0 5 1 (start (sample_driver 16 2 true)) with
   | Ret r w' =>
       option_map call_failed (nth_error (trace w') 0) = Some true /\
       length (trace w') = 1%nat /\
       cursor (drv w') = mkCursor 5 1 /\
       cursor (drv w') <> cursor (sample_driver 16 2 true)
   | _ => False
   end) /\
  (match lcdInit (fail_at 0) 0
                 (start (at_position (sample_driver 16 2 true) 3 1)) with
   | Ret r w' =>
       option_map call_failed (nth_error (trace w') 0) = Some true /\
       cursor (drv w') <> mkCursor 3 1
   | _ => False
   end) /\
  (match lcdCommand (fail_at 12) 0 LCD_CMD_CLEAR
                    (start (sample_driver 16 2 true)) with
   | Ret r w' =>
       nth_error (trace w') 12 = Some (Delay 500, -1) /\
       call_failed (Delay 500, -1) = true /\
       r <> 0 /\ error (drv w') = 0 /\ error (drv w') <> EIO
   | _ => False
   end).
Proof.
  vm_compute. repeat split; discriminate.
Qed.

(** ** Runs on which every collaborator call succeeds *)

Section Successful.

Variable io : nat -> event -> Z.
Hypothesis io_ok : forall k e, call_failed (e, io k e) = false.

Lemma attempted_ok (k : nat) (es : list event) :
  attempted io k es = respond io k es /\ clean (respond io k es) = true.
Proof.
  revert k. induction es as [| e es IH]; intros k; [now split |].
  cbn [attempted respond clean forallb]. rewrite io_ok. cbn [negb andb].
  destruct (IH (S k)) as [-> H]. now split.
Qed.

Lemma any_failed_ok (es : list event) (w : world) :
  any_failed io es w =
  Ret false (mkWorld (drv w) (trace w ++ respond io (length (trace w)) es)).
Proof.
  rewrite any_failed_eq. destruct (attempted_ok (length (trace w)) es) as [-> ->].
  reflexivity.
Qed.

Lemma poll_once_ok (d : lcdDriver_t) (w : world) :
  poll_once io d w =
  Ret (Some (io (length (trace w) + 3) (BusIO true false true 0)))
      (mkWorld (drv w)
               (trace w ++ respond io (length (trace w)) (poll_events d))).
Proof.
  rewrite poll_once_eq. cbv zeta.
  destruct (attempted_ok (length (trace w)) (poll_events d)) as [-> ->].
  reflexivity.
Qed.

Lemma busy_poll_ok (d : lcdDriver_t) (N : nat) :
  forall (fuel : nat) (w : world),
    (N < fuel)%nat ->
    (forall j, (j < N)%nat ->
               Z.testbit (status io d (length (trace w)) j) 7 = true) ->
    Z.testbit (status io d (length (trace w)) N) 7 = false ->
    busy_poll io fuel d w =
    Ret (io (length (trace w) + S N * length (poll_events d))
            (BusIO false false false 0))
        (mkWorld (drv w)
           (trace w ++
            respond io (length (trace w))
              (concat (repeat (poll_events d) (S N)) ++
               [BusIO false false false 0]))).
Proof.
  induction N as [| N IH]; intros fuel w Hfuel Hbusy Hfree;
    (destruct fuel as [| fuel]; [lia |]);
    cbn [busy_poll]; unfold bind; rewrite poll_once_ok.
  - unfold status in Hfree. cbn [Nat.mul] in Hfree.
    rewrite Nat.add_0_r in Hfree. rewrite Hfree.
    unfold lcdBusIO, call. cbn [drv trace repeat concat].
    rewrite app_nil_r, respond_app, length_app, respond_length, <- app_assoc.
    cbn [respond]. now rewrite Nat.mul_1_l.
  - pose proof (Hbusy 0%nat ltac:(lia)) as H0. unfold status in H0.
    cbn [Nat.mul] in H0. rewrite Nat.add_0_r in H0. rewrite H0.
    set (L := length (poll_events d)) in *.
    set (k := length (trace w)) in *.
    rewrite (IH fuel); cbn [drv trace];
      rewrite ?length_app, ?respond_length; fold L; fold k.
    + change (concat (repeat (poll_events d) (S (S N))))
        with (poll_events d ++ concat (repeat (poll_events d) (S N))).
      rewrite <- (app_assoc (poll_events d)), (respond_app _ _ (poll_events d)).
      fold L. rewrite <- app_assoc.
      replace (k + L + S N * L)%nat with (k + S (S N) * L)%nat by lia.
      reflexivity.
    + lia.
    + intros j Hj. specialize (Hbusy (S j) ltac:(lia)). unfold status in *.
      fold L in Hbusy |- *.
      replace (k + L + j * L + 3)%nat with (k + S j * L + 3)%nat by lia.
      exact Hbusy.
    + unfold status in *. fold L in Hfree |- *.
      replace (k + L + N * L + 3)%nat with (k + S N * L + 3)%nat by lia.
      exact Hfree.
Qed.

End Successful.

Lemma transfer_eq (io : nat -> event -> Z) (fuel : nat) (rs : bool)
      (byte : Z) (w : world) :
  transfer io fuel rs byte w =
  (f <- any_failed io (byte_events (drv w) rs byte) ;;
   if f then io_failed else wait_ready io fuel (drv w)) w.
Proof.
  unfold bind at 1. rewrite <- transfer_write_phase.
  unfold transfer, bind, get_driver.
  destruct (any_failed io (write_cycle (drv w) rs byte) w)
    as [[|] w1 | w1 |]; reflexivity.
Qed.

(** ** The busy-flag poll *)

(** C6 as stated does not hold: the call that closes a polled transfer is
    not a read cycle.  After the three polls of this run the only call left
    is [lcdBusIO(0,0,0,0)], with [rw = 0]. *)
Lemma closing_call_is_not_a_read :
  match lcdCommand busy_twice 3 LCD_CMD_CLEAR
                   (start (sample_driver 16 2 false)) with
  | Ret r w' =>
      firstn (12 + 2 + 3 * 9) (events w') =
      byte_events (sample_driver 16 2 false) false LCD_CMD_CLEAR ++
      read_setup (sample_driver 16 2 false) ++
      concat (repeat (poll_events (sample_driver 16 2 false)) 3) /\
      skipn (12 + 2 + 3 * 9) (events w') = [BusIO false false false 0] /\
      existsb is_read (skipn (12 + 2 + 3 * 9) (events w')) = false
  | _ => False
  end.
Proof. vm_compute. repeat split. Qed.

(** C6, amended. On a read-capable bus, when every collaborator call
    succeeds, the status byte has bit 7 set at the first [N] status reads and
    clear at the next, and the closing call is answered with 0, [lcdCommand]
    makes the write phase, the read set-up, exactly [N+1] polling cycles and
    then one closing call [lcdBusIO(0,0,0,0)] (write direction), and returns
    0; the driver structure is unchanged. *)
Theorem busy_poll_count (io : nat -> event -> Z) (d : lcdDriver_t)
        (command : Z) (N fuel : nat) :
  writeOnly d = false ->
  (forall k e, call_failed (e, io k e) = false) ->
  (forall j, (j < N)%nat ->
     Z.testbit
       (status io d (length (byte_events d false (to_uint8 command)) +
                     length (read_setup d)) j) 7 = true) ->
  Z.testbit
    (status io d (length (byte_events d false (to_uint8 command)) +
                  length (read_setup d)) N) 7 = false ->
  io (length (byte_events d false (to_uint8 command)) +
      length (read_setup d) + S N * length (poll_events d))%nat
     (BusIO false false false 0) = 0 ->
  (N < fuel)%nat ->
  exists w',
    lcdCommand io fuel command (start d) = Ret 0 w' /\
    drv w' = d /\
    events w' =
    byte_events d false (to_uint8 command) ++ read_setup d ++
    concat (repeat (poll_events d) (S N)) ++ [BusIO false false false 0] /\
    trace w' = respond io 0 (events w').
Proof.
  intros Hwo Hok Hbusy Hfree Hclose Hfuel.
  unfold lcdCommand. rewrite transfer_eq. unfold bind.
  rewrite (any_failed_ok io Hok). cbn [drv trace start app length].
  unfold wait_ready. rewrite Hwo. unfold bind.
  rewrite (any_failed_ok io Hok). cbn [drv trace].
  fold (read_setup d).
  set (w1 := mkWorld d _).
  assert (Hlen : length (trace w1) =
                 (length (byte_events d false (to_uint8 command)) +
                  length (read_setup d))%nat).
  { unfold w1. cbn [trace]. now rewrite length_app, !respond_length. }
  rewrite (busy_poll_ok io Hok d N fuel w1 Hfuel);
    [| now rewrite Hlen | now rewrite Hlen].
  rewrite Hlen, Hclose.
  eexists. split; [reflexivity |]. split; [reflexivity |].
  assert (Ev : events (mkWorld (drv w1)
                 (trace w1 ++
                  respond io
                    (length (byte_events d false (to_uint8 command)) +
                     length (read_setup d))
                    (concat (repeat (poll_events d) (S N)) ++
                     [BusIO false false false 0]))) =
               byte_events d false (to_uint8 command) ++ read_setup d ++
               concat (repeat (poll_events d) (S N)) ++
               [BusIO false false false 0]).
  { unfold events, w1. cbn [trace].
    rewrite !map_app, !respond_events. now rewrite <- app_assoc. }
  split; [exact Ev |]. rewrite Ev. unfold w1. cbn [trace].
  rewrite !respond_app. cbn [Nat.add]. rewrite <- app_assoc.
  rewrite respond_length. reflexivity.
Qed.

Lemma busy_poll_count_witness :
  exists w',
    lcdCommand busy_twice 3 LCD_CMD_CLEAR (start (sample_driver 16 2 false))
    = Ret 0 w' /\
    drv w' = sample_driver 16 2 false /\
    events w' =
    byte_events (sample_driver 16 2 false) false (to_uint8 LCD_CMD_CLEAR) ++
    read_setup (sample_driver 16 2 false) ++
    concat (repeat (poll_events (sample_driver 16 2 false)) 3) ++
    [BusIO false false false 0] /\
    trace w' = respond busy_twice 0 (events w').
Proof.
  apply (busy_poll_count busy_twice (sample_driver 16 2 false)
                         LCD_CMD_CLEAR 2 3).
  - reflexivity.
  - intros k e. unfold busy_twice, call_failed.
    destruct e; [destruct (Nat.eqb k 17 || Nat.eqb k 26) |]; reflexivity.
  - intros j Hj. destruct j as [| [| j]]; [reflexivity | reflexivity | lia].
  - reflexivity.
  - reflexivity.
  - lia.
Defined.

(** ** Successful runs, read backwards *)

Section Inversion.

Variable io : nat -> event -> Z.

Lemma events_app (d : lcdDriver_t) (t l : list (event * Z)) :
  events (mkWorld d (t ++ l)) = map fst t ++ map fst l.
Proof. unfold events. cbn [trace]. apply map_app. Qed.

(** A chain that reports no failure made all its calls. *)
Lemma any_failed_false (es : list event) (w w' : world) :
  any_failed io es w = Ret false w' ->
  drv w' = drv w /\ events w' = events w ++ es.
Proof.
  rewrite any_failed_eq.
  destruct (clean (attempted io (length (trace w)) es)) eqn:C;
    [| discriminate].
  intros [= <-]. split; [reflexivity |].
  rewrite (attempted_clean io _ _ C), events_app, respond_events. reflexivity.
Qed.

Lemma any_failed_total (es : list event) (w : world) :
  exists f w', any_failed io es w = Ret f w'.
Proof. rewrite any_failed_eq. eexists _, _. reflexivity. Qed.

(** A transfer that returns 0: the write phase, the wait (empty in
    write-only mode), the final call; the driver structure untouched. *)
Lemma transfer_success (fuel : nat) (rs : bool) (byte : Z) (w w' : world) :
  transfer io fuel rs byte w = Ret 0 w' ->
  drv w' = drv w /\
  exists wait,
    events w' =
    events w ++ byte_events (drv w) rs byte ++ wait ++ [final_call (drv w)] /\
    (writeOnly (drv w) = true -> wait = []).
Proof.
  intros E. pose proof (transfer_cases io fuel rs byte w) as T.
  rewrite E in T. cbn [transfer_result] in T.
  destruct T as [(Hr & _) | (l2 & -> & Hc & Hwo)]; [discriminate |].
  split; [reflexivity |]. exists (map fst l2). split.
  - rewrite events_app, !map_app, respond_events. reflexivity.
  - intros H. now rewrite (Hwo H).
Qed.

Lemma test_false (m : M Z) (w w' : world) :
  test m w = Ret false w' -> m w = Ret 0 w'.
Proof.
  unfold test, bind, ret. destruct (m w) as [r w1 | w1 |]; try discriminate.
  unfold truthy. destruct (Z.eqb_spec r 0) as [-> | H]; [| discriminate].
  now intros [= ->].
Qed.

Lemma c_or_false (a b : M bool) (w w' : world) :
  c_or a b w = Ret false w' ->
  exists w1, a w = Ret false w1 /\ b w1 = Ret false w'.
Proof.
  unfold c_or, bind. destruct (a w) as [[|] w1 | w1 |]; try discriminate.
  intros E. now exists w1.
Qed.

Lemma lcdDelay_success (us : Z) (w w' : world) :
  lcdDelay io us w = Ret 0 w' ->
  drv w' = drv w /\ events w' = events w ++ [Delay us].
Proof.
  unfold lcdDelay, call. intros [= _ <-]. split; [reflexivity |].
  now rewrite events_app.
Qed.

(** [lcdCommand] followed by a hold delay, both successful. *)
Lemma command_then_delay_success (fuel : nat) (c us : Z) (w w' : world) :
  c_or (test (lcdCommand io fuel c)) (test (lcdDelay io us)) w = Ret false w' ->
  drv w' = drv w /\
  exists wait,
    events w' =
    events w ++ byte_events (drv w) false (to_uint8 c) ++ wait ++
    [final_call (drv w)] ++ [Delay us] /\
    (writeOnly (drv w) = true -> wait = []).
Proof.
  intros E. apply c_or_false in E as (w1 & E1 & E2).
  apply test_false, transfer_success in E1 as (D1 & wait & Ev1 & Hwo).
  apply test_false, lcdDelay_success in E2 as (D2 & Ev2).
  split; [congruence |]. exists wait. split; [| exact Hwo].
  rewrite Ev2, Ev1, <- !app_assoc. reflexivity.
Qed.

Lemma lcdClear_success (fuel : nat) (w w' : world) :
  lcdClear io fuel w = Ret 0 w' ->
  drv w' = set_cursor (mkCursor 0 0) (drv w) /\
  exists wait,
    events w' =
    events w ++ byte_events (drv w) false LCD_CMD_CLEAR ++ wait ++
    [final_call (drv w)] ++ [Delay (busyHoldShort (busTiming (drv w)))] /\
    (writeOnly (drv w) = true -> wait = []).
Proof.
  unfold lcdClear. unfold bind at 1 2. cbn [get_driver].
  destruct (c_or _ _ w) as [[|] w1 | w1 |] eqn:E; try discriminate.
  apply command_then_delay_success in E as (D & wait & Ev & Hwo).
  unfold bind, modify_driver, ret. intros [= <-]. cbn [drv].
  split; [now rewrite D |]. exists wait. split; [exact Ev | exact Hwo].
Qed.

Lemma lcdHome_success (fuel : nat) (w w' : world) :
  lcdHome io fuel w = Ret 0 w' ->
  drv w' = set_cursor (mkCursor 0 0) (drv w) /\
  exists wait,
    events w' =
    events w ++ byte_events (drv w) false LCD_CMD_HOME ++ wait ++
    [final_call (drv w)] ++ [Delay (busyHoldLong (busTiming (drv w)))] /\
    (writeOnly (drv w) = true -> wait = []).
Proof.
  unfold lcdHome. unfold bind at 1 2. cbn [get_driver].
  destruct (c_or _ _ w) as [[|] w1 | w1 |] eqn:E; try discriminate.
  apply command_then_delay_success in E as (D & wait & Ev & Hwo).
  unfold bind, modify_driver, ret. intros [= <-]. cbn [drv].
  split; [now rewrite D |]. exists wait. split; [exact Ev | exact Hwo].
Qed.

End Inversion.

(** ** Hold delays in write-only mode *)

Lemma final_call_write_only (d : lcdDriver_t) :
  writeOnly d = true -> final_call d = Delay (busyHoldShort (busTiming d)).
Proof. unfold final_call. now intros ->. Qed.

(** C7 (the code's behaviour). In write-only mode a successful
    [lcdCommand] or [lcdWrite] is the write phase followed by the single
    short hold; [lcdHome] adds the long hold, but [lcdClear] adds the short
    hold again: the long hold is not used after the clear command. *)
Theorem write_only_holds (io : nat -> event -> Z) (fuel : nat)
        (d : lcdDriver_t) :
  writeOnly d = true ->
  (forall c w', lcdCommand io fuel c (start d) = Ret 0 w' ->
     events w' = byte_events d false (to_uint8 c) ++
                 [Delay (busyHoldShort (busTiming d))]) /\
  (forall v w', lcdWrite io fuel v (start d) = Ret 0 w' ->
     events w' = byte_events d true (to_uint8 v) ++
                 [Delay (busyHoldShort (busTiming d))]) /\
  (forall w', lcdHome io fuel (start d) = Ret 0 w' ->
     events w' = byte_events d false LCD_CMD_HOME ++
                 [Delay (busyHoldShort (busTiming d));
                  Delay (busyHoldLong (busTiming d))]) /\
  (forall w', lcdClear io fuel (start d) = Ret 0 w' ->
     events w' = byte_events d false LCD_CMD_CLEAR ++
                 [Delay (busyHoldShort (busTiming d));
                  Delay (busyHoldShort (busTiming d))]).
Proof.
  intros Hwo.
  assert (T : forall rs byte w',
             transfer io fuel rs byte (start d) = Ret 0 w' ->
             events w' = byte_events d rs byte ++
                         [Delay (busyHoldShort (busTiming d))]).
  { intros rs byte w' E.
    apply transfer_success in E as (_ & wait & Ev & Hw).
    cbn [start drv] in *. rewrite (Hw Hwo), final_call_write_only in Ev
      by assumption.
    exact Ev. }
  split; [intros c w'; apply T |]. split; [intros v w'; apply T |]. split.
  - intros w' E. apply lcdHome_success in E as (_ & wait & Ev & Hw).
    cbn [start drv] in *. rewrite (Hw Hwo), final_call_write_only in Ev
      by assumption.
    exact Ev.
  - intros w' E. apply lcdClear_success in E as (_ & wait & Ev & Hw).
    cbn [start drv] in *. rewrite (Hw Hwo), final_call_write_only in Ev
      by assumption.
    exact Ev.
Qed.

Lemma write_only_holds_witness :
  exists w',
    lcdClear zero_io 0 (start (sample_driver 16 2 true)) = Ret 0 w' /\
    events w' =
    byte_events (sample_driver 16 2 true) false LCD_CMD_CLEAR ++
    [Delay 500; Delay 500] /\
    ~ In (Delay (busyHoldLong (busTiming (sample_driver 16 2 true))))
         (events w').
Proof.
  eexists. split; [vm_compute; reflexivity |]. split.
  - apply (proj2 (proj2 (proj2
      (write_only_holds zero_io 0 (sample_driver 16 2 true) eq_refl)))).
    vm_compute; reflexivity.
  - vm_compute. intros H.
    repeat (destruct H as [H | H]; [discriminate |]). exact H.
Defined.

(** ** The 4-bit initialisation sequence *)

Lemma to_uint8_function (b n f : bool) :
  to_uint8 (LCD_CMD_FUNCTION b n f) = LCD_CMD_FUNCTION b n f.
Proof. destruct b, n, f; reflexivity. Qed.

Lemma lcdInit4Bit_success (io : nat -> event -> Z) (fuel : nat) (w w' : world) :
  lcdInit4Bit io fuel w = Ret 0 w' ->
  drv w' = drv w /\
  exists wait,
    events w' =
    events w ++ reset_pulses (drv w) ++ four_bit_request (drv w) ++
    byte_events (drv w) false (LCD_CMD_FUNCTION false false false) ++
    wait ++ [final_call (drv w)] /\
    (writeOnly (drv w) = true -> wait = []).
Proof.
  unfold lcdInit4Bit. unfold bind at 1 2. cbn [get_driver].
  fold (reset_pulses (drv w)).
  destruct (any_failed io (reset_pulses (drv w)) w) as [[|] w1 | w1 |] eqn:E1;
    try discriminate.
  apply any_failed_false in E1 as (D1 & Ev1).
  unfold bind at 1. fold (four_bit_request (drv w)).
  destruct (any_failed io (four_bit_request (drv w)) w1)
    as [[|] w2 | w2 |] eqn:E2; try discriminate.
  apply any_failed_false in E2 as (D2 & Ev2).
  unfold lcdCommand. rewrite to_uint8_function. intros E3.
  apply transfer_success in E3 as (D3 & wait & Ev3 & Hwo).
  rewrite D2, D1 in *. split; [exact D3 |]. exists wait. split; [| exact Hwo].
  rewrite Ev3, Ev2, Ev1, <- !app_assoc. reflexivity.
Qed.

(** C2 as stated does not hold: the delay that follows the third reset
    pulse is the data-hold, not the enable-hold; and between the 4-bit
    request pulse and the configured function-set the code sends a whole
    function-set(4-bit, 1 line, 5x8) command. *)
Lemma third_pulse_settles_for_data_hold :
  match lcdInit zero_io 0 (start skewed_driver) with
  | Ret r w' =>
      r = 0 /\
      firstn 4 (skipn 12 (events w')) =
      [ BusIO false false true 48; Delay 10;
        BusIO false false false 48; Delay 20 ] /\
      nth_error (events w') 15 = Some (Delay (dataHold (busTiming skewed_driver)))
      /\
      nth_error (events w') 15 <>
      Some (Delay (enableHold (busTiming skewed_driver))) /\
      firstn 13 (skipn 22 (events w')) =
      byte_events skewed_driver false (LCD_CMD_FUNCTION false false false) ++
      [Delay 500]
  | _ => False
  end.
Proof. vm_compute. repeat split. discriminate. Qed.

(** * Further properties of the driver *)

(** ** What reaches the controller *)

Lemma strobes_app (l1 l2 : list event) :
  strobes (l1 ++ l2) = strobes l1 ++ strobes l2.
Proof. apply flat_map_app. Qed.

Lemma strobes_write_cycle (d : lcdDriver_t) (rs : bool) (v : Z) :
  strobes (write_cycle d rs v) = [(rs, v)].
Proof. reflexivity. Qed.

Lemma strobes_byte_events (d : lcdDriver_t) (rs : bool) (byte : Z) :
  strobes (byte_events d rs byte) = nibbles d rs byte.
Proof.
  unfold byte_events, nibbles. rewrite strobes_app, strobes_write_cycle.
  now destruct (fourBits d).
Qed.

Lemma strobes_silent (l : list (event * Z)) :
  Forall silent l -> strobes (map fst l) = [].
Proof.
  induction 1 as [| c l Hc _ IH]; [reflexivity |].
  cbn [map]. change (strobes (fst c :: map fst l))
    with (strobe (fst c) ++ strobes (map fst l)).
  now rewrite Hc, IH.
Qed.

Section Silence.

Variable io : nat -> event -> Z.

Lemma keeps_silent_chain (es : list event) :
  Forall (fun e => strobe e = []) es ->
  keeps any_driver silent (any_failed io es).
Proof.
  intros H. apply keeps_any_failed.
  induction H; constructor; auto.
Qed.

Lemma keeps_silent_io_failed : keeps any_driver silent io_failed.
Proof.
  unfold io_failed. apply keeps_bind; [| intros; apply keeps_ret].
  now apply keeps_modify_driver.
Qed.

Lemma keeps_silent_poll_once (d : lcdDriver_t) :
  keeps any_driver silent (poll_once io d).
Proof.
  unfold poll_once.
  apply keeps_bind; [apply keeps_silent_chain; repeat constructor |].
  intros [|]; [apply keeps_ret |].
  apply keeps_bind; [apply keeps_call; reflexivity |].
  intros v. destruct (v <? 0); [apply keeps_ret |].
  apply keeps_bind.
  - apply keeps_silent_chain. destruct (fourBits d); repeat constructor.
  - intros [|]; apply keeps_ret.
Qed.

Lemma keeps_silent_busy_poll (fuel : nat) (d : lcdDriver_t) :
  keeps any_driver silent (busy_poll io fuel d).
Proof.
  induction fuel as [| fuel IH]; [intros w _; exact Logic.I |].
  cbn [busy_poll]. apply keeps_bind; [apply keeps_silent_poll_once |].
  intros [v |]; [| apply keeps_silent_io_failed].
  destruct (Z.testbit v 7); [exact IH |]. apply keeps_call. reflexivity.
Qed.

(** The wait after a byte transfer strobes nothing. *)
Lemma keeps_silent_wait_ready (fuel : nat) (d : lcdDriver_t) :
  keeps any_driver silent (wait_ready io fuel d).
Proof.
  unfold wait_ready. destruct (writeOnly d).
  - apply keeps_call. reflexivity.
  - apply keeps_bind; [apply keeps_silent_chain; repeat constructor |].
    intros [|]; [apply keeps_silent_io_failed | apply keeps_silent_busy_poll].
Qed.

(** A transfer that returns 0 has strobed the byte, high nibble first, and
    left the driver structure as it was. *)
Lemma transfer_strobes (fuel : nat) (rs : bool) (byte : Z) (w w' : world) :
  transfer io fuel rs byte w = Ret 0 w' ->
  drv w' = drv w /\
  strobes (events w') = strobes (events w) ++ nibbles (drv w) rs byte.
Proof.
  intros E. split; [now apply (transfer_success io fuel rs byte) |].
  rewrite transfer_eq in E. unfold bind in E.
  destruct (any_failed io (byte_events (drv w) rs byte) w)
    as [[|] w1 | w1 |] eqn:E1; try discriminate.
  apply any_failed_false in E1 as (D1 & Ev1).
  pose proof (keeps_silent_wait_ready fuel (drv w) w1 Logic.I) as K.
  rewrite E in K. cbn [final_world] in K. destruct K as (_ & l & Hl & Hs).
  unfold events in *. rewrite Hl, map_app, strobes_app, Ev1, strobes_app.
  rewrite strobes_byte_events, (strobes_silent l Hs), app_nil_r. reflexivity.
Qed.

End Silence.

(** A property of bytes checked on each of the 256 values. *)
Lemma for_all_bytes (P : Z -> bool) :
  forallb (fun k => P (Z.of_nat k)) (seq 0 256) = true ->
  forall z, 0 <= z < 256 -> P z = true.
Proof.
  intros H z Hz. rewrite forallb_forall in H.
  specialize (H (Z.to_nat z)). rewrite Z2Nat.id in H by lia.
  apply H, in_seq. lia.
Qed.

Lemma low_nibble_shifted (b : Z) :
  0 <= b < 256 ->
  Z.shiftr (to_uint8 (Z.shiftl b 4)) 4 = Z.land b 15 /\
  Z.land (to_uint8 (Z.shiftl b 4)) 15 = 0.
Proof.
  intros Hb.
  pose proof (for_all_bytes
    (fun b => (Z.shiftr (to_uint8 (Z.shiftl b 4)) 4 =? Z.land b 15) &&
              (Z.land (to_uint8 (Z.shiftl b 4)) 15 =? 0))
    ltac:(vm_compute; reflexivity) b Hb) as H.
  apply andb_true_iff in H as [H1 H2].
  split; now apply Z.eqb_eq.
Qed.

(** X1. A command or data byte whose transfer returns 0 has been latched by
    the controller exactly once on the 8-bit bus and exactly twice on the
    4-bit bus, first the byte (whose upper four lines carry the high
    nibble), then the byte shifted left by four, whose upper four lines
    carry the low nibble and whose lower four lines are 0; commands are
    strobed with register select low, data with register select high, and
    the driver structure is left as it was. *)
Theorem byte_reaches_controller (io : nat -> event -> Z) (fuel : nat)
        (d : lcdDriver_t) :
  (forall c w', lcdCommand io fuel c (start d) = Ret 0 w' ->
     drv w' = d /\ strobes (events w') = nibbles d false (to_uint8 c)) /\
  (forall v w', lcdWrite io fuel v (start d) = Ret 0 w' ->
     drv w' = d /\ strobes (events w') = nibbles d true (to_uint8 v)) /\
  (forall rs b, 0 <= b < 256 ->
     nibbles d rs b =
     (rs, b) :: (if fourBits d then [(rs, to_uint8 (Z.shiftl b 4))] else []) /\
     Z.shiftr (to_uint8 (Z.shiftl b 4)) 4 = Z.land b 15 /\
     Z.land (to_uint8 (Z.shiftl b 4)) 15 = 0).
Proof.
  split; [| split].
  - intros c w' E. now apply transfer_strobes in E.
  - intros v w' E. now apply transfer_strobes in E.
  - intros rs b Hb. split; [reflexivity |]. now apply low_nibble_shifted.
Qed.

Lemma byte_reaches_controller_witness :
  exists w',
    lcdWrite zero_io 1 165 (start (sample_driver 16 2 false)) = Ret 0 w' /\
    strobes (events w') = [(true, 165); (true, 80)] /\
    Z.shiftr 80 4 = Z.land 165 15.
Proof.
  eexists. split; [vm_compute; reflexivity |].
  destruct (byte_reaches_controller zero_io 1 (sample_driver 16 2 false))
    as (_ & Hw & Hn).
  split.
  - apply (Hw 165 _ ltac:(vm_compute; reflexivity)).
  - exact (proj1 (proj2 (Hn true 165 ltac:(lia)))).
Defined.

(** ** Command encodings *)

Lemma decode_below_104 (d : lcdDriver_t) :
  valid_dimensions d -> valid_cursor d -> 0 <= LCD_DECODE_CURSOR d < 104.
Proof.
  intros (Hw & Hh & Hwh) [Hx Hy]. rewrite decode_address_of by lia.
  now apply (address_of_bound _ (height (dimensions d))).
Qed.

Lemma land_127 (a : Z) : Z.land a 127 = a mod 128.
Proof. change 127 with (Z.ones 7). now rewrite Z.land_ones by lia. Qed.

Lemma land_63 (a : Z) : Z.land a 63 = a mod 64.
Proof. change 63 with (Z.ones 6). now rewrite Z.land_ones by lia. Qed.

Lemma lor_128_low (m : Z) : 0 <= m < 128 -> Z.lor 128 m = 128 + m.
Proof.
  intros Hm.
  pose proof (for_all_bytes
    (fun m => negb (m <? 128) || (Z.lor 128 m =? 128 + m))
    ltac:(vm_compute; reflexivity) m ltac:(lia)) as H.
  cbv beta in H.
  replace (m <? 128) with true in H by (symmetry; apply Z.ltb_lt; lia).
  now apply Z.eqb_eq in H.
Qed.

Lemma lor_64_low (m : Z) : 0 <= m < 64 -> Z.lor 64 m = 64 + m.
Proof.
  intros Hm.
  pose proof (for_all_bytes
    (fun m => negb (m <? 64) || (Z.lor 64 m =? 64 + m))
    ltac:(vm_compute; reflexivity) m ltac:(lia)) as H.
  cbv beta in H.
  replace (m <? 64) with true in H by (symmetry; apply Z.ltb_lt; lia).
  now apply Z.eqb_eq in H.
Qed.

Lemma LCD_CMD_DADDR_value (a : Z) : LCD_CMD_DADDR a = 128 + a mod 128.
Proof.
  unfold LCD_CMD_DADDR. rewrite land_127. apply lor_128_low.
  apply Z.mod_pos_bound. lia.
Qed.

Lemma LCD_CMD_CADDR_value (a : Z) : LCD_CMD_CADDR a = 64 + a mod 64.
Proof.
  unfold LCD_CMD_CADDR. rewrite land_63. apply lor_64_low.
  apply Z.mod_pos_bound. lia.
Qed.

(** X2. The position of the highest set bit tells the eight command kinds
    apart, whatever their arguments: clear 0, home 1, entry mode 2, display
    control 3, cursor/shift 4, function set 5, set-CGRAM-address 6,
    set-DDRAM-address 7.  Hence no byte encodes commands of two kinds, and
    every command fits a byte. *)
Theorem command_kinds_by_high_bit :
  Z.log2 LCD_CMD_CLEAR = 0 /\
  Z.log2 LCD_CMD_HOME = 1 /\
  (forall dir s, Z.log2 (LCD_CMD_ENTRY dir s) = 2) /\
  (forall f c b, Z.log2 (LCD_CMD_DISPLAY f c b) = 3) /\
  (forall s r, Z.log2 (LCD_CMD_CURSOR s r) = 4) /\
  (forall b n f, Z.log2 (LCD_CMD_FUNCTION b n f) = 5) /\
  (forall a, Z.log2 (LCD_CMD_CADDR a) = 6) /\
  (forall a, Z.log2 (LCD_CMD_DADDR a) = 7).
Proof.
  repeat split.
  - intros [|] [|]; reflexivity.
  - intros [|] [|] [|]; reflexivity.
  - intros [|] [|]; reflexivity.
  - intros [|] [|] [|]; reflexivity.
  - intros a. rewrite LCD_CMD_CADDR_value.
    pose proof (Z.mod_pos_bound a 64 ltac:(lia)).
    apply Z.log2_unique; [lia |]. change (2 ^ 6) with 64.
    change (2 ^ Z.succ 6) with 128. lia.
  - intros a. rewrite LCD_CMD_DADDR_value.
    pose proof (Z.mod_pos_bound a 128 ltac:(lia)).
    apply Z.log2_unique; [lia |]. change (2 ^ 7) with 128.
    change (2 ^ Z.succ 7) with 256. lia.
Qed.

(** X3. The address-setting commands keep their address: the low seven bits
    of a set-DDRAM-address command are the address modulo 128 and the low
    six bits of a set-CGRAM-address command the address modulo 64.  For a
    valid cursor on valid dimensions the byte that is sent, masked with
    0x7F, is the decoded address itself. *)
Theorem address_survives_encoding :
  (forall a, Z.land (LCD_CMD_DADDR a) 127 = a mod 128) /\
  (forall a, Z.land (LCD_CMD_CADDR a) 63 = a mod 64) /\
  (forall d, valid_dimensions d -> valid_cursor d ->
     Z.land (to_uint8 (LCD_CMD_DADDR (LCD_DECODE_CURSOR d))) 127 =
     LCD_DECODE_CURSOR d).
Proof.
  split; [| split].
  - intros a. rewrite LCD_CMD_DADDR_value, land_127.
    pose proof (Z.mod_pos_bound a 128 ltac:(lia)).
    replace (128 + a mod 128) with (a mod 128 + 1 * 128) by lia.
    rewrite Z.mod_add by lia. apply Z.mod_small. lia.
  - intros a. rewrite LCD_CMD_CADDR_value, land_63.
    pose proof (Z.mod_pos_bound a 64 ltac:(lia)).
    replace (64 + a mod 64) with (a mod 64 + 1 * 64) by lia.
    rewrite Z.mod_add by lia. apply Z.mod_small. lia.
  - intros d Hd Hc.
    destruct (decode_below_104 d Hd Hc) as [H0 H1].
    rewrite LCD_CMD_DADDR_value, (Z.mod_small (LCD_DECODE_CURSOR d)) by lia.
    rewrite to_uint8_small by (unfold is_uint8; lia).
    rewrite land_127.
    replace (128 + LCD_DECODE_CURSOR d)
      with (LCD_DECODE_CURSOR d + 1 * 128) by lia.
    rewrite Z.mod_add by lia. apply Z.mod_small. lia.
Qed.

Lemma address_survives_encoding_witness :
  Z.land (to_uint8 (LCD_CMD_DADDR
            (LCD_DECODE_CURSOR (at_position (sample_driver 20 4 true) 19 3))))
         127 = 103.
Proof.
  rewrite (proj2 (proj2 address_survives_encoding));
    [reflexivity | unfold valid_dimensions; simpl; lia
     | unfold valid_cursor; simpl; lia].
Defined.

(** ** Rejected arguments *)

(** X4. [lcdSetCursor] with a column not below the width or a row not below
    the height stops at its assertion before touching the cursor and before
    any collaborator call. *)
Theorem lcdSetCursor_rejects_out_of_range
        (io : nat -> event -> Z) (fuel : nat) (col row : Z) (w : world) :
  width (dimensions (drv w)) <= col \/ height (dimensions (drv w)) <= row ->
  lcdSetCursor io fuel col row w = AssertFail w.
Proof.
  intros H. unfold lcdSetCursor, bind, get_driver, c_assert.
  destruct (Z.gtb_spec (width (dimensions (drv w))) col) as [Hw | Hw];
    [| reflexivity].
  destruct (Z.gtb_spec (height (dimensions (drv w))) row) as [Hh | Hh];
    [lia | reflexivity].
Qed.

Lemma lcdSetCursor_rejects_out_of_range_witness :
  lcdSetCursor zero_io 0 16 0 (start (sample_driver 16 2 true)) =
  AssertFail (start (sample_driver 16 2 true)).
Proof.
  apply lcdSetCursor_rejects_out_of_range. left. simpl. lia.
Defined.

(** X5. [lcdStoreGlyph] with a slot number of 8 or more stops at an
    assertion, in either font, with the driver state untouched and before
    any collaborator call. *)
Theorem lcdStoreGlyph_slot_check
        (io : nat -> event -> Z) (fuel : nat) (which : Z) (bits : list Z)
        (w : world) :
  8 <= which -> lcdStoreGlyph io fuel which bits w = AssertFail w.
Proof.
  unfold lcdStoreGlyph, bind, get_driver, c_assert.
  intros H. rewrite Z.shiftr_div_pow2 by lia. change (2 ^ 1) with 2.
  destruct (Z.ltb_spec (which / 2) 4) as [Hs | Hs].
  - exfalso. pose proof (Z.div_le_mono 8 which 2 ltac:(lia) H) as Hd.
    change (8 / 2) with 4 in Hd. lia.
  - destruct (Z.ltb_spec which 8); [lia |].
    rewrite andb_false_r. reflexivity.
Qed.

Lemma lcdStoreGlyph_slot_check_witness :
  lcdStoreGlyph zero_io 0 8 [0; 0; 0; 0; 0; 0; 0; 0]
                (start (sample_driver 16 2 true)) =
  AssertFail (start (sample_driver 16 2 true)) /\
  lcdStoreGlyph zero_io 0 9 [0; 0; 0; 0; 0; 0; 0; 0; 0; 0]
                (start (mkDriver 0 (mkDimensions 16 2) true true true
                          (mkBusTiming 10 10 10 50 500 50000)
                          (mkCursor 0 0) true)) =
  AssertFail (start (mkDriver 0 (mkDimensions 16 2) true true true
                       (mkBusTiming 10 10 10 50 500 50000)
                       (mkCursor 0 0) true)).
Proof.
  split.
  - apply (lcdStoreGlyph_slot_check zero_io 0 8). lia.
  - apply (lcdStoreGlyph_slot_check zero_io 0 9). lia.
Defined.

(** ** Streams of the composite operations *)

Lemma fourBits_lcdUpdateCursor (d : lcdDriver_t) :
  fourBits (lcdUpdateCursor d) = fourBits d.
Proof.
  unfold lcdUpdateCursor.
  repeat match goal with |- context [if ?b then _ else _] => destruct b end;
    reflexivity.
Qed.

Lemma nibbles_lcdUpdateCursor (d : lcdDriver_t) (rs : bool) (b : Z) :
  nibbles (lcdUpdateCursor d) rs b = nibbles d rs b.
Proof. unfold nibbles. now rewrite fourBits_lcdUpdateCursor. Qed.

Lemma glyph_command_byte (large : bool) (which : Z) :
  0 <= which < 8 ->
  to_uint8 (LCD_CMD_CADDR
              (to_uint8 (Z.shiftl (if large then Z.land which 6 else which) 3)))
  = 64 + (if large then 16 * (which / 2) else 8 * which).
Proof.
  intros H.
  pose proof (for_all_bytes
    (fun v => negb (v <? 8) ||
       ((to_uint8 (LCD_CMD_CADDR (to_uint8 (Z.shiftl (Z.land v 6) 3)))
         =? 64 + 16 * (v / 2)) &&
        (to_uint8 (LCD_CMD_CADDR (to_uint8 (Z.shiftl v 3))) =? 64 + 8 * v)))
    ltac:(vm_compute; reflexivity) which ltac:(lia)) as P.
  cbv beta in P.
  replace (which <? 8) with true in P by (symmetry; apply Z.ltb_lt; lia).
  apply andb_true_iff in P as [P1 P2].
  destruct large; now apply Z.eqb_eq.
Qed.

Section Streams.

Variable io : nat -> event -> Z.

Lemma lcdCommand_strobes (fuel : nat) (c : Z) (w w' : world) :
  lcdCommand io fuel c w = Ret 0 w' ->
  drv w' = drv w /\
  strobes (events w') = strobes (events w) ++ nibbles (drv w) false (to_uint8 c).
Proof. apply transfer_strobes. Qed.

Lemma lcdWrite_strobes (fuel : nat) (v : Z) (w w' : world) :
  lcdWrite io fuel v w = Ret 0 w' ->
  drv w' = drv w /\
  strobes (events w') = strobes (events w) ++ nibbles (drv w) true (to_uint8 v).
Proof. apply transfer_strobes. Qed.

(** A tested call that does not return 0 makes the caller return -1. *)
Lemma if_truthy_zero (m go : M Z) (w w' : world) :
  (r <- m ;; if truthy r then ret (-1) else go) w = Ret 0 w' ->
  exists w1, m w = Ret 0 w1 /\ go w1 = Ret 0 w'.
Proof.
  unfold bind. destruct (m w) as [r w1 | w1 |]; try discriminate.
  unfold truthy. destruct (Z.eqb_spec r 0) as [-> | Hr]; cbn [negb].
  - intros E. now exists w1.
  - discriminate.
Qed.

Lemma write_bytes_strobes (fuel : nat) (bytes : list Z) (w w' : world) :
  write_bytes io fuel bytes w = Ret 0 w' ->
  drv w' = drv w /\
  strobes (events w') =
  strobes (events w) ++
  flat_map (fun b => nibbles (drv w) true (to_uint8 b)) bytes.
Proof.
  revert w. induction bytes as [| b bytes IH]; intros w.
  - cbn [write_bytes flat_map]. intros [= <-]. now rewrite app_nil_r.
  - cbn [write_bytes flat_map]. intros E.
    apply if_truthy_zero in E as (w1 & E1 & E2).
    apply lcdWrite_strobes in E1 as (D1 & S1).
    apply IH in E2 as (D2 & S2). rewrite D1 in *.
    split; [exact D2 |]. now rewrite S2, S1, <- app_assoc.
Qed.

End Streams.

(** X6. A glyph store into slot 0..7 that returns 0 has sent the
    set-CGRAM-address command [0x40 + 8*slot] (small font) or
    [0x40 + 16*(slot/2)] (large font, so that an odd slot lands on the even
    slot below it) and then the first 8 (small font) or 10 (large font)
    bitmap bytes in order, each as data; the driver structure is unchanged. *)
Theorem lcdStoreGlyph_stream
        (io : nat -> event -> Z) (fuel : nat) (which : Z) (bits : list Z)
        (d : lcdDriver_t) (w' : world) :
  0 <= which < 8 ->
  lcdStoreGlyph io fuel which bits (start d) = Ret 0 w' ->
  drv w' = d /\
  strobes (events w') =
  nibbles d false
    (64 + (if largeFont d then 16 * (which / 2) else 8 * which)) ++
  flat_map (fun b => nibbles d true (to_uint8 b))
           (firstn (if largeFont d then 10 else 8) bits).
Proof.
  intros Hw E. unfold lcdStoreGlyph in E. unfold bind at 1 2 in E.
  cbn [get_driver start drv] in E. unfold c_assert in E.
  replace (which <? 8) with true in E by (symmetry; apply Z.ltb_lt; lia).
  rewrite orb_true_r in E.
  apply if_truthy_zero in E as (w1 & E1 & E2).
  apply lcdCommand_strobes in E1 as (D1 & S1).
  apply write_bytes_strobes in E2 as (D2 & S2).
  cbn [start drv] in *. rewrite D1 in *. split; [exact D2 |].
  rewrite S2, S1, glyph_command_byte by assumption. reflexivity.
Qed.

Lemma lcdStoreGlyph_stream_witness :
  exists w',
    lcdStoreGlyph zero_io 0 3 [1; 2; 3; 4; 5; 6; 7; 8; 9]
                  (start (sample_driver 16 2 true)) = Ret 0 w' /\
    strobes (events w') =
    [(false, 88); (false, 128);
     (true, 1); (true, 16); (true, 2); (true, 32); (true, 3); (true, 48);
     (true, 4); (true, 64); (true, 5); (true, 80); (true, 6); (true, 96);
     (true, 7); (true, 112); (true, 8); (true, 128)].
Proof.
  eexists. split; [vm_compute; reflexivity |].
  apply (lcdStoreGlyph_stream zero_io 0 3 [1; 2; 3; 4; 5; 6; 7; 8; 9]
           (sample_driver 16 2 true));
    [lia | vm_compute; reflexivity].
Defined.

Lemma test_result (m : M Z) (w : world) :
  test m w =
  match m w with
  | Ret r w1 => Ret (truthy r) w1
  | AssertFail w1 => AssertFail w1
  | OutOfFuel => OutOfFuel
  end.
Proof. unfold test, bind, ret. now destruct (m w). Qed.

(** Any end of a transfer keeps what was strobed before it. *)
Lemma transfer_keeps_strobes (io : nat -> event -> Z) (fuel : nat) (rs : bool)
      (byte : Z) (w : world) (r : Z) (w' : world) (s : bool * Z) :
  transfer io fuel rs byte w = Ret r w' ->
  In s (strobes (events w)) -> In s (strobes (events w')).
Proof.
  intros E Hs. pose proof (transfer_driver io fuel rs byte w) as T.
  rewrite E in T. destruct T as (_ & _ & l & Hl).
  unfold events. rewrite Hl, map_app, strobes_app. apply in_or_app. now left.
Qed.

(** [lcdPutChar], step by step. *)
Lemma lcdPutChar_steps (io : nat -> event -> Z) (fuel : nat) (chr : Z)
      (w : world) :
  lcdPutChar io fuel chr w =
  match transfer io fuel false
          (to_uint8 (LCD_CMD_DADDR (LCD_DECODE_CURSOR (drv w)))) w with
  | Ret r0 w0 =>
      if truthy r0 then Ret (-1) w0 else
      match transfer io fuel true (to_uint8 chr) w0 with
      | Ret r1 w1 =>
          if truthy r1 then Ret (-1) w1 else
          transfer io fuel false
            (to_uint8
               (LCD_CMD_DADDR (LCD_DECODE_CURSOR (lcdUpdateCursor (drv w1)))))
            (mkWorld (lcdUpdateCursor (drv w1)) (trace w1))
      | AssertFail w1 => AssertFail w1
      | OutOfFuel => OutOfFuel
      end
  | AssertFail w0 => AssertFail w0
  | OutOfFuel => OutOfFuel
  end.
Proof.
  unfold lcdPutChar, cmd_cursor_address, c_or, test, bind, get_driver, ret,
    lcdCommand, lcdWrite.
  destruct (transfer io fuel false _ w) as [r0 w0 | w0 |]; try reflexivity.
  destruct (truthy r0); [reflexivity |].
  destruct (transfer io fuel true _ w0) as [r1 w1 | w1 |]; try reflexivity.
  destruct (truthy r1); reflexivity.
Qed.

(** X7. [lcdPutChar] that returns 0 has sent the set-DDRAM-address command
    of the cursor, the character as data, and the set-DDRAM-address command
    of the advanced cursor, and has advanced the cursor once.  Whatever it
    returns, the cursor is either where it was or advanced once, and it is
    advanced only after the character has been strobed as data. *)
Theorem lcdPutChar_stream
        (io : nat -> event -> Z) (fuel : nat) (chr : Z) (d : lcdDriver_t) :
  (forall w', lcdPutChar io fuel chr (start d) = Ret 0 w' ->
     drv w' = lcdUpdateCursor d /\
     strobes (events w') =
     nibbles d false (to_uint8 (LCD_CMD_DADDR (LCD_DECODE_CURSOR d))) ++
     nibbles d true (to_uint8 chr) ++
     nibbles d false
       (to_uint8 (LCD_CMD_DADDR (LCD_DECODE_CURSOR (lcdUpdateCursor d))))) /\
  (forall r w', lcdPutChar io fuel chr (start d) = Ret r w' ->
     cursor (drv w') = cursor d \/
     (cursor (drv w') = cursor (lcdUpdateCursor d) /\
      In (true, to_uint8 chr) (strobes (events w')))).
Proof.
  rewrite lcdPutChar_steps. unfold start. cbn [drv].
  set (c0 := to_uint8 (LCD_CMD_DADDR (LCD_DECODE_CURSOR d))).
  pose proof (transfer_driver io fuel false c0 (mkWorld d [])) as T0.
  pose proof (transfer_strobes io fuel false c0 (mkWorld d [])) as S0.
  destruct (transfer io fuel false c0 (mkWorld d [])) as [r0 w0 | w0 |];
    [| contradiction | split; intros; discriminate].
  destruct T0 as (D0 & Z0 & _). cbn [drv] in D0, Z0. unfold truthy.
  destruct (Z.eqb_spec r0 0) as [-> | Hr0]; cbn [negb].
  2:{ split; [intros; discriminate |]. intros r w' [= <- <-]. left.
      destruct D0 as [-> | [-> _]]; reflexivity. }
  specialize (Z0 eq_refl). destruct (S0 w0 eq_refl) as (_ & St0).
  cbn [drv events trace map strobes flat_map app] in St0.
  pose proof (transfer_driver io fuel true (to_uint8 chr) w0) as T1.
  pose proof (transfer_strobes io fuel true (to_uint8 chr) w0) as S1.
  destruct (transfer io fuel true (to_uint8 chr) w0) as [r1 w1 | w1 |];
    [| contradiction | split; intros; discriminate].
  destruct T1 as (D1 & Z1 & _). rewrite Z0 in D1, Z1, S1.
  destruct (Z.eqb_spec r1 0) as [-> | Hr1]; cbn [negb].
  2:{ split; [intros; discriminate |]. intros r w' [= <- <-]. left.
      destruct D1 as [-> | [-> _]]; reflexivity. }
  specialize (Z1 eq_refl). destruct (S1 w1 eq_refl) as (_ & St1).
  fold (events w0) in St0. rewrite St0 in St1. rewrite Z1.
  set (w2 := mkWorld (lcdUpdateCursor d) (trace w1)).
  set (c2 := LCD_CMD_DADDR (LCD_DECODE_CURSOR (lcdUpdateCursor d))).
  assert (Sw2 : strobes (events w2) = strobes (events w1)) by reflexivity.
  split.
  - intros w' E. apply transfer_strobes in E as (D2 & St2).
    split; [exact D2 |]. cbn [drv w2] in St2.
    rewrite St2, Sw2, St1, nibbles_lcdUpdateCursor, <- app_assoc.
    reflexivity.
  - intros r w' E. right. split.
    + pose proof (transfer_driver io fuel false (to_uint8 c2) w2) as T2.
      fold c2 in E. rewrite E in T2.
      destruct T2 as ([-> | [-> _]] & _); reflexivity.
    + fold c2 in E.
      apply (transfer_keeps_strobes io fuel false (to_uint8 c2) w2 r w');
        [exact E |].
      rewrite Sw2, St1. apply in_or_app. right. now left.
Qed.

Lemma lcdPutChar_stream_witness :
  exists w',
    lcdPutChar zero_io 0 65 (start (at_position (sample_driver 16 2 true) 15 0))
    = Ret 0 w' /\
    cursor (drv w') = mkCursor 0 1 /\
    strobes (events w') =
    [(false, 143); (false, 240); (true, 65); (true, 16);
     (false, 192); (false, 0)].
Proof.
  eexists. split; [vm_compute; reflexivity |].
  destruct (proj1 (lcdPutChar_stream zero_io 0 65
                     (at_position (sample_driver 16 2 true) 15 0))
              _ ltac:(vm_compute; reflexivity)) as [D S].
  split; [rewrite D; reflexivity | exact S].
Defined.

Lemma lcdNext_steps (io : nat -> event -> Z) (fuel : nat) (w : world) :
  lcdNext io fuel w =
  match transfer io fuel false
          (to_uint8 (LCD_CMD_DADDR (LCD_DECODE_CURSOR (lcdUpdateCursor (drv w)))))
          (mkWorld (lcdUpdateCursor (drv w)) (trace w)) with
  | Ret r w1 => Ret (if truthy r then -1 else 0) w1
  | AssertFail w1 => AssertFail w1
  | OutOfFuel => OutOfFuel
  end.
Proof.
  unfold lcdNext, cmd_cursor_address, bind, modify_driver, get_driver, ret,
    lcdCommand. cbn [drv trace].
  destruct (transfer io fuel false _ _) as [r w1 | w1 |]; try reflexivity.
  now destruct (truthy r).
Qed.

(** X8. [lcdNext] advances the cursor before it talks to the controller: in
    every final state the cursor is the advanced one, also after a failure.
    It returns 0 or -1 only, and when it returns 0 it has sent exactly the
    set-DDRAM-address command of the advanced cursor. *)
Theorem lcdNext_advances_first
        (io : nat -> event -> Z) (fuel : nat) (d : lcdDriver_t) :
  (forall w', final_world (lcdNext io fuel (start d)) = Some w' ->
     cursor (drv w') = cursor (lcdUpdateCursor d)) /\
  (forall r w', lcdNext io fuel (start d) = Ret r w' -> r = 0 \/ r = -1) /\
  (forall w', lcdNext io fuel (start d) = Ret 0 w' ->
     drv w' = lcdUpdateCursor d /\
     strobes (events w') =
     nibbles d false
       (to_uint8 (LCD_CMD_DADDR (LCD_DECODE_CURSOR (lcdUpdateCursor d))))).
Proof.
  rewrite lcdNext_steps. unfold start. cbn [drv trace].
  set (c := to_uint8 _). set (w1 := mkWorld (lcdUpdateCursor d) []).
  pose proof (transfer_driver io fuel false c w1) as T.
  pose proof (transfer_strobes io fuel false c w1) as S.
  destruct (transfer io fuel false c w1) as [r w2 | w2 |];
    [| contradiction | repeat split; intros; discriminate].
  destruct T as (D & Z0 & _). cbn [drv w1] in D, Z0.
  split; [| split].
  - intros w' [= <-]. destruct D as [-> | [-> _]]; reflexivity.
  - intros r' w' [= <- _]. destruct (truthy r); auto.
  - intros w'. unfold truthy.
    destruct (Z.eqb_spec r 0) as [-> | Hr]; cbn [negb]; [| discriminate].
    intros [= <-]. destruct (S w2 eq_refl) as (D2 & St).
    split; [exact D2 |]. rewrite St. cbn [drv w1].
    now rewrite nibbles_lcdUpdateCursor.
Qed.

Lemma lcdNext_advances_first_witness :
  exists w',
    final_world (lcdNext (fail_at 0) 0
                   (start (at_position (sample_driver 16 2 true) 15 1)))
    = Some w' /\ cursor (drv w') = mkCursor 0 0.
Proof.
  eexists. split; [vm_compute; reflexivity |].
  rewrite (proj1 (lcdNext_advances_first (fail_at 0) 0
                    (at_position (sample_driver 16 2 true) 15 1)) _
             ltac:(vm_compute; reflexivity)).
  reflexivity.
Defined.

(** ** Operations that update the driver only after success *)

Lemma guarded_update (io : nat -> event -> Z) (fuel : nat) (c us : Z)
      (f : lcdDriver_t -> lcdDriver_t) (w : world) :
  match (b <- c_or (test (lcdCommand io fuel c)) (test (lcdDelay io us)) ;;
         if b then ret (-1) else modify_driver f ;;; ret 0) w with
  | Ret r w' =>
      (r = 0 /\ drv w' = f (drv w)) \/
      (r = -1 /\ (drv w' = drv w \/ drv w' = set_error EIO (drv w)))
  | AssertFail _ => False
  | OutOfFuel => True
  end.
Proof.
  unfold bind, c_or, test, bind, ret, lcdCommand.
  pose proof (transfer_driver io fuel false (to_uint8 c) w) as T.
  destruct (transfer io fuel false (to_uint8 c) w) as [r w1 | w1 |];
    [| contradiction | exact Logic.I].
  destruct T as (D & Z0 & _). unfold truthy at 1.
  destruct (Z.eqb_spec r 0) as [-> | Hr]; cbn [negb].
  - specialize (Z0 eq_refl). unfold lcdDelay, call. cbn [drv trace].
    destruct (truthy _); cbn [modify_driver drv].
    + right. split; [reflexivity |]. now left.
    + left. split; [reflexivity |]. now rewrite Z0.
  - right. split; [reflexivity |]. destruct D as [D | [D _]]; auto.
Qed.

(** X9. Whenever [lcdClear], [lcdHome] or [lcdDirection] returns, it
    returns 0 or -1.  It has changed the driver structure exactly when it
    returns 0: the cursor has become (0,0), respectively the direction flag
    the requested one, and nothing else has changed.  When it returns -1 the
    cursor and the direction are as before and at most the error field has
    become [EIO]. *)
Theorem update_only_on_success
        (io : nat -> event -> Z) (fuel : nat) (w : world) :
  let updated (m : M Z) (f : lcdDriver_t -> lcdDriver_t) :=
    forall r w', m w = Ret r w' ->
      (r = 0 /\ drv w' = f (drv w)) \/
      (r = -1 /\ (drv w' = drv w \/ drv w' = set_error EIO (drv w))) in
  updated (lcdClear io fuel) (set_cursor (mkCursor 0 0)) /\
  updated (lcdHome io fuel) (set_cursor (mkCursor 0 0)) /\
  (forall forward,
     updated (lcdDirection io fuel forward) (set_direction forward)).
Proof.
  cbv zeta.
  assert (G : forall c us f r w',
             (b <- c_or (test (lcdCommand io fuel c)) (test (lcdDelay io us)) ;;
              if b then ret (-1) else modify_driver f ;;; ret 0) w = Ret r w' ->
             (r = 0 /\ drv w' = f (drv w)) \/
             (r = -1 /\ (drv w' = drv w \/ drv w' = set_error EIO (drv w)))).
  { intros c us f r w' E. pose proof (guarded_update io fuel c us f w) as G.
    now rewrite E in G. }
  unfold lcdClear, lcdHome, lcdDirection.
  unfold bind at 1 3 5. cbn [get_driver].
  split; [| split; [| intros forward]]; intros r w'; apply G.
Qed.

Lemma update_only_on_success_witness :
  (exists w',
     lcdClear zero_io 0 (start (at_position (sample_driver 16 2 true) 3 1))
     = Ret 0 w' /\
     drv w' = sample_driver 16 2 true) /\
  (exists w',
     lcdHome (fail_at 3) 0 (start (at_position (sample_driver 16 2 true) 3 1))
     = Ret (-1) w' /\
     cursor (drv w') = mkCursor 3 1 /\ direction (drv w') = true).
Proof.
  split.
  - eexists. split; [vm_compute; reflexivity |].
    destruct (proj1 (update_only_on_success zero_io 0
                       (start (at_position (sample_driver 16 2 true) 3 1)))
                    0 _ ltac:(vm_compute; reflexivity)) as [[_ H] | [H _]];
      [exact H | discriminate].
  - eexists. split; [vm_compute; reflexivity |].
    destruct (proj1 (proj2 (update_only_on_success (fail_at 3) 0
                       (start (at_position (sample_driver 16 2 true) 3 1))))
                    (-1) _ ltac:(vm_compute; reflexivity)) as [[H _] | [_ [H | H]]];
      [discriminate | rewrite H; split; reflexivity
       | rewrite H; split; reflexivity].
Defined.

(** ** Geometry of the cursor *)

Lemma dimensions_advance_backward (d : lcdDriver_t) :
  dimensions (advance_backward d) = dimensions d.
Proof. unfold advance_backward. now rewrite dimensions_lcdUpdateCursor. Qed.

Lemma cursor_ok_advance_forward (d : lcdDriver_t) :
  cursor_ok d -> cursor_ok (advance_forward d).
Proof. intros H. now apply (cursor_ok_lcdUpdateCursor (set_direction true d)). Qed.

Lemma cursor_ok_advance_backward (d : lcdDriver_t) :
  cursor_ok d -> cursor_ok (advance_backward d).
Proof.
  intros H. now apply (cursor_ok_lcdUpdateCursor (set_direction false d)).
Qed.

Lemma cell_index_range (d : lcdDriver_t) :
  cursor_ok d -> 0 <= cell_index d < cells d.
Proof.
  intros [[Hw Hh] [Hx Hy]]. unfold cell_index, cells. nia.
Qed.

Lemma cell_index_advance_forward (d : lcdDriver_t) :
  cursor_ok d ->
  cell_index (advance_forward d) = (cell_index d + 1) mod cells d.
Proof.
  intros Hok. pose proof (cell_index_range d Hok) as Hr.
  destruct Hok as [[Hw Hh] [Hx Hy]]. unfold cell_index, cells in *.
  rewrite dimensions_advance_forward, cursor_advance_forward.
  rewrite !to_int8_small by (unfold is_int8; lia).
  destruct (Z.geb_spec (x (cursor d) + 1) (width (dimensions d)));
    [destruct (Z.geb_spec (y (cursor d) + 1) (height (dimensions d))) |];
    cbn [x y].
  - replace (y (cursor d) * width (dimensions d) + x (cursor d) + 1)
      with (width (dimensions d) * height (dimensions d)) by nia.
    rewrite Z.mod_same by nia. lia.
  - rewrite Z.mod_small by nia. nia.
  - rewrite Z.mod_small by nia. lia.
Qed.

Lemma cell_index_advance_backward (d : lcdDriver_t) :
  cursor_ok d ->
  cell_index (advance_backward d) = (cell_index d - 1) mod cells d.
Proof.
  intros Hok. pose proof (cell_index_range d Hok) as Hr.
  destruct Hok as [[Hw Hh] [Hx Hy]]. unfold cell_index, cells in *.
  rewrite dimensions_advance_backward, cursor_advance_backward.
  rewrite !to_int8_small by (unfold is_int8; lia).
  destruct (Z.ltb_spec (x (cursor d) - 1) 0);
    [destruct (Z.ltb_spec (y (cursor d) - 1) 0) |]; cbn [x y].
  - assert (Hx0 : x (cursor d) = 0) by lia.
    assert (Hy0 : y (cursor d) = 0) by lia. rewrite Hx0, Hy0.
    replace (0 * width (dimensions d) + 0 - 1)
      with (-1 + 1 * (width (dimensions d) * height (dimensions d))
            - width (dimensions d) * height (dimensions d)) by lia.
    symmetry.
    replace (-1 + 1 * (width (dimensions d) * height (dimensions d))
             - width (dimensions d) * height (dimensions d))
      with (width (dimensions d) * height (dimensions d) - 1
            + (-1) * (width (dimensions d) * height (dimensions d))) by lia.
    rewrite Z.mod_add by nia. rewrite Z.mod_small by nia. nia.
  - rewrite Z.mod_small by nia. nia.
  - rewrite Z.mod_small by nia. lia.
Qed.

(** A valid cursor is determined by its cell index. *)
Lemma cell_index_injective (d1 d2 : lcdDriver_t) :
  dimensions d1 = dimensions d2 -> cursor_ok d1 -> cursor_ok d2 ->
  cell_index d1 = cell_index d2 -> cursor d1 = cursor d2.
Proof.
  intros Hd [[Hw Hh] [Hx1 Hy1]] [_ [Hx2 Hy2]]. unfold cell_index.
  rewrite <- Hd in *. intros E.
  assert (y (cursor d1) = y (cursor d2)) by nia.
  assert (x (cursor d1) = x (cursor d2)) by nia.
  destruct (cursor d1), (cursor d2). simpl in *. congruence.
Qed.

Lemma iter_advance_forward (n : nat) (d : lcdDriver_t) :
  cursor_ok d ->
  cursor_ok (Nat.iter n advance_forward d) /\
  dimensions (Nat.iter n advance_forward d) = dimensions d /\
  cell_index (Nat.iter n advance_forward d) =
  (cell_index d + Z.of_nat n) mod cells d.
Proof.
  intros Hok. induction n as [| n (IHok & IHd & IHi)].
  - change (Nat.iter 0 advance_forward d) with d. split; [exact Hok |]. split; [reflexivity |].
    rewrite Z.add_0_r, Z.mod_small; [reflexivity |].
    now apply cell_index_range.
  - rewrite Nat.iter_succ. split; [now apply cursor_ok_advance_forward |].
    split; [now rewrite dimensions_advance_forward |].
    rewrite cell_index_advance_forward by assumption.
    assert (Hc : cells (Nat.iter n advance_forward d) = cells d)
      by (unfold cells; now rewrite IHd).
    rewrite Hc, IHi, Z.add_mod_idemp_l.
    + f_equal. lia.
    + pose proof (cell_index_range d Hok). lia.
Qed.

(** X10. The forward advance walks the display row by row: after [n]
    advances from a valid cursor the cell index is the old one plus [n]
    modulo [width*height].  After [width*height] advances the cursor is
    back where it started, having passed every cell once. *)
Theorem forward_advance_period (d : lcdDriver_t) :
  1 <= width (dimensions d) <= 127 -> 1 <= height (dimensions d) <= 127 ->
  valid_cursor d ->
  (forall n, cell_index (Nat.iter n advance_forward d) =
             (cell_index d + Z.of_nat n) mod cells d) /\
  cursor (Nat.iter (Z.to_nat (cells d)) advance_forward d) = cursor d.
Proof.
  intros Hw Hh Hc. assert (Hok : cursor_ok d) by (split; [split |]; assumption).
  split; [intros n; now apply iter_advance_forward |].
  destruct (iter_advance_forward (Z.to_nat (cells d)) d Hok)
    as (Hok' & Hd' & Hi').
  apply cell_index_injective; [exact Hd' | exact Hok' | exact Hok |].
  pose proof (cell_index_range d Hok) as Hr.
  rewrite Hi', Z2Nat.id by lia.
  replace (cell_index d + cells d) with (cell_index d + 1 * cells d) by lia.
  rewrite Z.mod_add by lia. now apply Z.mod_small.
Qed.

Lemma forward_advance_period_witness :
  cursor (Nat.iter 32 advance_forward
            (at_position (sample_driver 16 2 true) 7 1)) = mkCursor 7 1.
Proof.
  apply (proj2 (forward_advance_period
                  (at_position (sample_driver 16 2 true) 7 1)
                  ltac:(simpl; lia) ltac:(simpl; lia)
                  ltac:(unfold valid_cursor; simpl; lia))).
Defined.

(** X11. A backward advance followed by a forward advance restores a valid
    cursor, and a backward advance moves the cell index down by one modulo
    [width*height]. *)
Theorem backward_then_forward (d : lcdDriver_t) :
  1 <= width (dimensions d) <= 127 -> 1 <= height (dimensions d) <= 127 ->
  valid_cursor d ->
  cursor (advance_forward (advance_backward d)) = cursor d /\
  cell_index (advance_backward d) = (cell_index d - 1) mod cells d.
Proof.
  intros Hw Hh Hc. assert (Hok : cursor_ok d) by (split; [split |]; assumption).
  split; [| now apply cell_index_advance_backward].
  pose proof (cursor_ok_advance_backward d Hok) as Hb.
  apply cell_index_injective.
  - now rewrite dimensions_advance_forward, dimensions_advance_backward.
  - now apply cursor_ok_advance_forward.
  - exact Hok.
  - rewrite cell_index_advance_forward by assumption.
    assert (Hcells : cells (advance_backward d) = cells d)
      by (unfold cells; now rewrite dimensions_advance_backward).
    pose proof (cell_index_range d Hok) as Hr.
    rewrite Hcells, cell_index_advance_backward by assumption.
    rewrite Z.add_mod_idemp_l by lia.
    replace (cell_index d - 1 + 1) with (cell_index d) by lia.
    now apply Z.mod_small.
Qed.

Lemma backward_then_forward_witness :
  cursor (advance_forward
            (advance_backward (at_position (sample_driver 16 2 true) 0 0)))
  = mkCursor 0 0.
Proof.
  apply (proj1 (backward_then_forward
                  (at_position (sample_driver 16 2 true) 0 0)
                  ltac:(simpl; lia) ltac:(simpl; lia)
                  ltac:(unfold valid_cursor; simpl; lia))).
Defined.

Lemma decode_advance_forward_iff (d : lcdDriver_t) :
  valid_dimensions d -> valid_cursor d ->
  (LCD_DECODE_CURSOR (advance_forward d) = LCD_DECODE_CURSOR d + 1 <->
   x (cursor d) + 1 < width (dimensions d)).
Proof.
  intros Hd Hc.
  pose proof (valid_dimensions_cursor_dimensions d Hd) as [Hw Hh].
  assert (Hok : cursor_ok d) by (split; [split |]; assumption).
  pose proof (cursor_ok_advance_forward d Hok) as [_ [Hx' Hy']].
  destruct Hd as (Hw1 & Hh1 & Hwh). destruct Hc as [Hx Hy].
  rewrite !decode_address_of by lia.
  rewrite dimensions_advance_forward in *.
  revert Hx' Hy'. rewrite cursor_advance_forward.
  rewrite !to_int8_small by (unfold is_int8; lia).
  set (w := width (dimensions d)) in *. set (h := height (dimensions d)) in *.
  set (cx := x (cursor d)) in *. set (cy := y (cursor d)) in *.
  assert (Hrow : w * (cy + 1) <= w * h) by (apply Z.mul_le_mono_nonneg_l; lia).
  unfold address_of.
  destruct (Z.geb_spec (cx + 1) w) as [Hend | Hin];
    [destruct (Z.geb_spec (cy + 1) h) as [Hlast | Hmore] |]; cbn [x y];
    intros Hx' Hy'.
  - change (0 mod 2) with 0. cbn [Z.geb Z.compare].
    destruct (mod2_cases cy) as [E | E]; rewrite E;
      destruct (Z.geb_spec cy 2); split; intros; lia.
  - assert (Hn : (cy + 1) mod 2 = 1 - cy mod 2).
    { replace (cy + 1) with (cy + 1 * 1) by lia.
      rewrite <- (Z.mod_small 1 2) at 2 by lia.
      destruct (mod2_cases cy) as [E | E].
      - rewrite Z.add_mod, E by lia. reflexivity.
      - rewrite Z.add_mod, E by lia. reflexivity. }
    rewrite Hn.
    assert (H2 : cy = 1 -> cy mod 2 = 1) by (intros ->; reflexivity).
    assert (H0 : cy = 0 -> cy mod 2 = 0) by (intros ->; reflexivity).
    assert (H22 : cy = 2 -> cy mod 2 = 0) by (intros ->; reflexivity).
    destruct (mod2_cases cy) as [E | E]; rewrite E;
      destruct (Z.geb_spec (cy + 1) 2); destruct (Z.geb_spec cy 2);
      split; intros; try lia; nia.
  - split; intros; lia.
Qed.

(** X12. On valid dimensions the DDRAM address of the forward-advanced
    cursor is the old address plus one exactly when the cursor stays in its
    row; leaving a row (also from the last row back to the first) always
    breaks the run of addresses. *)
Theorem address_follows_within_row (d : lcdDriver_t) :
  valid_dimensions d -> valid_cursor d ->
  (LCD_DECODE_CURSOR (advance_forward d) = LCD_DECODE_CURSOR d + 1 <->
   x (cursor d) + 1 < width (dimensions d)).
Proof. apply decode_advance_forward_iff. Qed.

Lemma address_follows_within_row_witness :
  LCD_DECODE_CURSOR (advance_forward (at_position (sample_driver 20 4 true) 5 3))
  = LCD_DECODE_CURSOR (at_position (sample_driver 20 4 true) 5 3) + 1.
Proof.
  apply (address_follows_within_row
           (at_position (sample_driver 20 4 true) 5 3));
    [unfold valid_dimensions; simpl; lia | unfold valid_cursor; simpl; lia
     | simpl; lia].
Defined.

(** ** String writes *)

Lemma lcdUpdateCursor_forward (d : lcdDriver_t) :
  direction d = true -> lcdUpdateCursor d = advance_forward d.
Proof.
  intros H. unfold advance_forward. destruct d. simpl in H. now subst.
Qed.

Lemma lcdUpdateCursor_in_row (d : lcdDriver_t) :
  direction d = true -> cursor_dimensions d -> valid_cursor d ->
  x (cursor d) + 1 < width (dimensions d) ->
  lcdUpdateCursor d = set_cursor (mkCursor (x (cursor d) + 1) (y (cursor d))) d.
Proof.
  intros Hdir [Hw Hh] [Hx Hy] Hrow. unfold lcdUpdateCursor. rewrite Hdir.
  rewrite to_int8_small by (unfold is_int8; lia).
  destruct (Z.geb_spec (x (cursor d) + 1) (width (dimensions d)));
    [lia | reflexivity].
Qed.

Lemma decode_next_in_row (d : lcdDriver_t) :
  LCD_DECODE_CURSOR (set_cursor (mkCursor (x (cursor d) + 1) (y (cursor d))) d)
  = LCD_DECODE_CURSOR d + 1.
Proof. unfold LCD_DECODE_CURSOR. cbn [set_cursor cursor dimensions x y]. lia. Qed.

Section StringWrites.

Variable io : nat -> event -> Z.

(** The loop of [lcdPutString] on characters that fit the rest of the row. *)
Lemma put_chars_in_row (fuel : nat) (str : list Z) :
  forall (w w' : world),
    direction (drv w) = true -> valid_dimensions (drv w) ->
    valid_cursor (drv w) ->
    x (cursor (drv w)) + Z.of_nat (length str) < width (dimensions (drv w)) ->
    put_chars io fuel str (LCD_DECODE_CURSOR (drv w)) w = Ret 0 w' ->
    cursor (drv w') =
    mkCursor (x (cursor (drv w)) + Z.of_nat (length str)) (y (cursor (drv w)))
    /\
    strobes (events w') =
    strobes (events w) ++
    flat_map (fun c => nibbles (drv w) true (to_uint8 c)) str ++
    nibbles (drv w) false
      (to_uint8 (LCD_CMD_DADDR
                   (LCD_DECODE_CURSOR (drv w) + Z.of_nat (length str)))).
Proof.
  induction str as [| c str IH]; intros w w' Hdir Hd Hc Hfit E.
  - cbn [put_chars length flat_map app] in *.
    apply lcdCommand_strobes in E as (D & S). rewrite D, S, !Z.add_0_r.
    split; [now destruct (cursor (drv w)) | reflexivity].
  - cbn [put_chars] in E. apply if_truthy_zero in E as (w1 & E1 & E2).
    apply lcdWrite_strobes in E1 as (D1 & S1).
    unfold bind at 1 2 in E2. cbn [modify_driver get_driver drv trace] in E2.
    rewrite D1 in E2.
    pose proof (valid_dimensions_cursor_dimensions _ Hd) as Hcd.
    cbn [length] in Hfit. rewrite Nat2Z.inj_succ in Hfit.
    rewrite lcdUpdateCursor_in_row in E2 by (try assumption; lia).
    set (d1 := set_cursor _ (drv w)) in E2.
    assert (Hc1 : valid_cursor d1).
    { destruct Hc as [Hx Hy]. split; cbn; lia. }
    pose proof (decode_below_104 d1 Hd Hc1) as Hr1.
    rewrite to_uint8_small in E2 by (unfold is_uint8; lia).
    unfold d1 at 1 in E2. rewrite decode_next_in_row, Z.eqb_refl in E2.
    cbn [negb] in E2. unfold bind, ret in E2.
    replace (LCD_DECODE_CURSOR (drv w) + 1) with (LCD_DECODE_CURSOR d1) in E2
      by apply decode_next_in_row.
    apply (IH (mkWorld d1 (trace w1))) in E2; cbn [drv d1 set_cursor
      direction dimensions cursor x y] in *; try assumption; try lia.
    destruct E2 as (Cu & St). split.
    + rewrite Cu. cbn [length]. rewrite Nat2Z.inj_succ. f_equal. lia.
    + unfold events in *. cbn [trace] in St. rewrite St, S1.
      cbn [flat_map length]. rewrite Nat2Z.inj_succ, <- !app_assoc.
      unfold d1. rewrite decode_next_in_row.
      replace (LCD_DECODE_CURSOR (drv w) + 1 + Z.of_nat (length str))
        with (LCD_DECODE_CURSOR (drv w) + Z.succ (Z.of_nat (length str)))
        by lia.
      reflexivity.
Qed.

End StringWrites.

(** X13. A forward string write that ends before the last column of its
    row, that is with [x + length str < width] so that the cursor stays in
    the row (the empty string included), and that returns 0 has sent: the
    set-DDRAM-address command of the cursor, the characters in order as data
    with no command between them, and the set-DDRAM-address command of the
    address after the last character; the cursor has moved right by the
    length of the string. *)
Theorem lcdPutString_in_row
        (io : nat -> event -> Z) (fuel : nat) (str : list Z)
        (d : lcdDriver_t) (w' : world) :
  direction d = true -> valid_dimensions d -> valid_cursor d ->
  x (cursor d) + Z.of_nat (length str) < width (dimensions d) ->
  lcdPutString io fuel str (start d) = Ret 0 w' ->
  cursor (drv w') =
  mkCursor (x (cursor d) + Z.of_nat (length str)) (y (cursor d)) /\
  strobes (events w') =
  nibbles d false (to_uint8 (LCD_CMD_DADDR (LCD_DECODE_CURSOR d))) ++
  flat_map (fun c => nibbles d true (to_uint8 c)) str ++
  nibbles d false
    (to_uint8 (LCD_CMD_DADDR (LCD_DECODE_CURSOR d + Z.of_nat (length str)))).
Proof.
  intros Hdir Hd Hc Hfit E. unfold lcdPutString in E.
  unfold bind at 1 in E. cbn [get_driver start drv] in E.
  pose proof (decode_below_104 d Hd Hc) as Hr.
  rewrite to_uint8_small in E by (unfold is_uint8; lia).
  apply if_truthy_zero in E as (w1 & E1 & E2).
  apply lcdCommand_strobes in E1 as (D1 & S1). cbn [drv] in D1, S1.
  rewrite <- D1 in E2 at 1.
  apply put_chars_in_row in E2; rewrite ?D1; try assumption.
  rewrite D1 in E2. destruct E2 as (Cu & St).
  split; [exact Cu |]. rewrite St, S1. reflexivity.
Qed.

Lemma lcdPutString_in_row_witness :
  exists w',
    lcdPutString zero_io 0 [72; 105]
                 (start (at_position (sample_driver 16 2 true) 3 1))
    = Ret 0 w' /\
    cursor (drv w') = mkCursor 5 1 /\
    strobes (events w') =
    [(false, 195); (false, 48); (true, 72); (true, 128);
     (true, 105); (true, 144); (false, 197); (false, 80)].
Proof.
  eexists. split; [vm_compute; reflexivity |].
  apply (lcdPutString_in_row zero_io 0 [72; 105]
           (at_position (sample_driver 16 2 true) 3 1));
    [reflexivity | unfold valid_dimensions; simpl; lia
     | unfold valid_cursor; simpl; lia | simpl; lia
     | vm_compute; reflexivity].
Defined.

Lemma nibbles_advance_forward (d : lcdDriver_t) (rs : bool) (b : Z) :
  nibbles (advance_forward d) rs b = nibbles d rs b.
Proof. unfold advance_forward. now rewrite nibbles_lcdUpdateCursor. Qed.

Lemma direction_lcdUpdateCursor (d : lcdDriver_t) :
  direction (lcdUpdateCursor d) = direction d.
Proof.
  unfold lcdUpdateCursor.
  destruct (direction d) eqn:E;
    repeat match goal with |- context [if ?b then _ else _] => destruct b end;
    exact E.
Qed.

Lemma cursor_advance_forward_row_end (d : lcdDriver_t) :
  cursor_dimensions d -> valid_cursor d ->
  x (cursor d) + 1 = width (dimensions d) ->
  x (cursor (advance_forward d)) = 0.
Proof.
  intros [Hw Hh] [Hx Hy] He. rewrite cursor_advance_forward.
  rewrite (to_int8_small (x (cursor d) + 1)) by (unfold is_int8; lia).
  destruct (Z.geb_spec (x (cursor d) + 1) (width (dimensions d))); [| lia].
  now destruct (_ >=? _).
Qed.

(** X14. A forward string write whose first character fills the last column
    of a row, and whose remaining characters are fewer than the width of the
    display ([length rest < width], so that they end before the last column
    of the row that follows), when it returns 0 has sent: the set-DDRAM-address command of the cursor, the first
    character, the set-DDRAM-address command of that same cell again (not of
    the cell the cursor moved to), the remaining characters with no command
    between them, and last the set-DDRAM-address command of the final
    cursor, which is at column [length rest] of the row that follows. *)
Theorem lcdPutString_at_row_end
        (io : nat -> event -> Z) (fuel : nat) (c : Z) (rest : list Z)
        (d : lcdDriver_t) (w' : world) :
  direction d = true -> valid_dimensions d -> valid_cursor d ->
  x (cursor d) + 1 = width (dimensions d) ->
  Z.of_nat (length rest) < width (dimensions d) ->
  lcdPutString io fuel (c :: rest) (start d) = Ret 0 w' ->
  cursor (drv w') =
  mkCursor (Z.of_nat (length rest)) (y (cursor (advance_forward d))) /\
  strobes (events w') =
  nibbles d false (to_uint8 (LCD_CMD_DADDR (LCD_DECODE_CURSOR d))) ++
  nibbles d true (to_uint8 c) ++
  nibbles d false (to_uint8 (LCD_CMD_DADDR (LCD_DECODE_CURSOR d))) ++
  flat_map (fun c' => nibbles d true (to_uint8 c')) rest ++
  nibbles d false
    (to_uint8 (LCD_CMD_DADDR (LCD_DECODE_CURSOR (advance_forward d)
                              + Z.of_nat (length rest)))).
Proof.
  intros Hdir Hd Hc Hend Hfit E.
  pose proof (valid_dimensions_cursor_dimensions d Hd) as Hcd.
  assert (Hok : cursor_ok d) by (split; assumption).
  pose proof (cursor_ok_advance_forward d Hok) as [_ Hc1].
  assert (Hd1 : valid_dimensions (advance_forward d))
    by (unfold valid_dimensions; now rewrite dimensions_advance_forward).
  pose proof (decode_below_104 d Hd Hc) as Hr.
  pose proof (decode_below_104 _ Hd1 Hc1) as Hr1.
  assert (Hbreak : LCD_DECODE_CURSOR (advance_forward d)
                   <> LCD_DECODE_CURSOR d + 1).
  { intros H. apply (decode_advance_forward_iff d Hd Hc) in H. lia. }
  unfold lcdPutString in E. unfold bind at 1 in E.
  cbn [get_driver start drv] in E.
  rewrite to_uint8_small in E by (unfold is_uint8; lia).
  apply if_truthy_zero in E as (w1 & E1 & E2).
  apply lcdCommand_strobes in E1 as (D1 & S1). cbn [drv start] in D1, S1.
  cbn [put_chars] in E2. apply if_truthy_zero in E2 as (w2 & E2 & E3).
  apply lcdWrite_strobes in E2 as (D2 & S2). rewrite D1 in D2, S2.
  unfold bind at 1 2 in E3. cbn [modify_driver get_driver drv trace] in E3.
  rewrite D2, (lcdUpdateCursor_forward d Hdir) in E3.
  rewrite to_uint8_small in E3 by (unfold is_uint8; lia).
  replace (LCD_DECODE_CURSOR (advance_forward d) =? LCD_DECODE_CURSOR d + 1)
    with false in E3 by (symmetry; now apply Z.eqb_neq).
  cbn [negb] in E3. unfold bind in E3. rewrite test_result in E3.
  set (w3 := mkWorld (advance_forward d) (trace w2)) in E3.
  destruct (lcdCommand io fuel (LCD_CMD_DADDR (LCD_DECODE_CURSOR d)) w3)
    as [r4 w4 | w4 |] eqn:E4; try discriminate.
  unfold truthy in E3.
  destruct (Z.eqb_spec r4 0) as [-> | Hr4]; cbn [negb] in E3;
    [| discriminate].
  apply lcdCommand_strobes in E4 as (D4 & S4). cbn [drv w3] in D4, S4.
  rewrite <- D4 in E3 at 1.
  apply put_chars_in_row in E3; rewrite ?D4; try assumption.
  - rewrite D4 in E3. destruct E3 as (Cu & St).
    rewrite (cursor_advance_forward_row_end d Hcd Hc Hend), Z.add_0_l in Cu.
    split; [exact Cu |].
    rewrite St, S4. change (strobes (events w3)) with (strobes (events w2)).
    rewrite S2, S1. cbn [events trace start map strobes flat_map app].
    rewrite (flat_map_ext _ _
               (fun c0 => nibbles_advance_forward d true (to_uint8 c0))).
    rewrite !nibbles_advance_forward. now rewrite <- !app_assoc.
  - unfold advance_forward. now rewrite direction_lcdUpdateCursor.
  - rewrite (cursor_advance_forward_row_end d Hcd Hc Hend).
    rewrite dimensions_advance_forward. lia.
Qed.

Lemma lcdPutString_at_row_end_witness :
  exists w',
    lcdPutString zero_io 0 [72; 105]
                 (start (at_position (sample_driver 16 2 true) 15 0))
    = Ret 0 w' /\
    cursor (drv w') = mkCursor 1 1 /\
    strobes (events w') =
    [(false, 143); (false, 240); (true, 72); (true, 128);
     (false, 143); (false, 240); (true, 105); (true, 144);
     (false, 193); (false, 16)].
Proof.
  eexists. split; [vm_compute; reflexivity |].
  apply (lcdPutString_at_row_end zero_io 0 72 [105]
           (at_position (sample_driver 16 2 true) 15 0));
    [reflexivity | unfold valid_dimensions; simpl; lia
     | unfold valid_cursor; simpl; lia | simpl; lia | simpl; lia
     | vm_compute; reflexivity].
Defined.

(** ** The busy flag and the closing call *)

Section Polled.

Variable io : nat -> event -> Z.
Hypothesis io_ok : forall k e, call_failed (e, io k e) = false.

Lemma busy_poll_forever (d : lcdDriver_t) :
  (forall k, Z.testbit (io k (BusIO true false true 0)) 7 = true) ->
  forall fuel w, busy_poll io fuel d w = OutOfFuel.
Proof.
  intros Hbusy. induction fuel as [| fuel IH]; intros w; [reflexivity |].
  cbn [busy_poll]. unfold bind. rewrite (poll_once_ok io io_ok).
  now rewrite Hbusy, IH.
Qed.

Lemma transfer_forever (d : lcdDriver_t) (fuel : nat) (rs : bool) (byte : Z) :
  writeOnly d = false ->
  (forall k, Z.testbit (io k (BusIO true false true 0)) 7 = true) ->
  transfer io fuel rs byte (start d) = OutOfFuel.
Proof.
  intros Hwo Hbusy. rewrite transfer_eq. unfold bind.
  rewrite (any_failed_ok io io_ok). cbn [drv start].
  unfold wait_ready. rewrite Hwo. unfold bind.
  rewrite (any_failed_ok io io_ok). now apply busy_poll_forever.
Qed.

(** A polled transfer on which no call fails, with its result. *)
Lemma transfer_polled (d : lcdDriver_t) (rs : bool) (byte : Z) (N fuel : nat) :
  writeOnly d = false ->
  (forall j, (j < N)%nat ->
     Z.testbit (status io d (length (byte_events d rs byte) +
                             length (read_setup d)) j) 7 = true) ->
  Z.testbit (status io d (length (byte_events d rs byte) +
                          length (read_setup d)) N) 7 = false ->
  (N < fuel)%nat ->
  exists w',
    transfer io fuel rs byte (start d) =
    Ret (io (length (byte_events d rs byte) + length (read_setup d) +
             S N * length (poll_events d))%nat (BusIO false false false 0)) w'
    /\ drv w' = d /\ clean (trace w') = true.
Proof.
  intros Hwo Hbusy Hfree Hfuel. rewrite transfer_eq. unfold bind.
  rewrite (any_failed_ok io io_ok). cbn [drv trace start app length].
  unfold wait_ready. rewrite Hwo. unfold bind.
  rewrite (any_failed_ok io io_ok). cbn [drv trace]. fold (read_setup d).
  set (w1 := mkWorld d _).
  assert (Hlen : length (trace w1) =
                 (length (byte_events d rs byte) + length (read_setup d))%nat).
  { unfold w1. cbn [trace]. now rewrite length_app, !respond_length. }
  rewrite (busy_poll_ok io io_ok d N fuel w1 Hfuel);
    [| now rewrite Hlen | now rewrite Hlen].
  rewrite Hlen. eexists. split; [reflexivity |]. split; [reflexivity |].
  cbn [trace]. unfold w1 at 1. cbn [trace].
  rewrite !clean_app.
  rewrite (proj2 (attempted_ok io io_ok _ _)).
  rewrite (proj2 (attempted_ok io io_ok _ _)).
  rewrite (proj2 (attempted_ok io io_ok _ _)). reflexivity.
Qed.

End Polled.

(** X15. On a read-capable bus where no call fails but every status read
    shows the busy flag, [lcdCommand] and [lcdWrite] have not returned after
    any number of polls: the loop has no bound of its own. *)
Theorem busy_controller_blocks
        (io : nat -> event -> Z) (d : lcdDriver_t) :
  writeOnly d = false ->
  (forall k e, call_failed (e, io k e) = false) ->
  (forall k, Z.testbit (io k (BusIO true false true 0)) 7 = true) ->
  forall fuel byte,
    lcdCommand io fuel byte (start d) = OutOfFuel /\
    lcdWrite io fuel byte (start d) = OutOfFuel.
Proof.
  intros Hwo Hok Hbusy fuel byte.
  split; now apply transfer_forever.
Qed.

Lemma busy_controller_blocks_witness :
  lcdCommand always_busy 25 LCD_CMD_CLEAR (start (sample_driver 16 2 false))
  = OutOfFuel.
Proof.
  assert (Hok : forall k e, call_failed (e, always_busy k e) = false)
    by (intros k [rw rs en v | us]; reflexivity).
  assert (Hbusy : forall k : nat,
             Z.testbit (always_busy k (BusIO true false true 0)) 7 = true)
    by (intros k; reflexivity).
  exact (proj1 (busy_controller_blocks always_busy (sample_driver 16 2 false)
                  eq_refl Hok Hbusy 25%nat LCD_CMD_CLEAR)).
Defined.

(** X16. On a read-capable bus [lcdCommand] returns whatever the closing
    call [lcdBusIO(0,0,0,0)] returned.  When no call fails and that result is
    positive (a non-negative acknowledgement the bus interface allows),
    [lcdClear] takes it for a failure: it returns -1 and leaves the cursor
    where it was, with no error latched, after the clear command has gone
    out. *)
Theorem positive_acknowledgement_reads_as_failure
        (io : nat -> event -> Z) (d : lcdDriver_t) (N fuel : nat) :
  writeOnly d = false ->
  (forall k e, call_failed (e, io k e) = false) ->
  (forall j, (j < N)%nat ->
     Z.testbit (status io d (length (byte_events d false LCD_CMD_CLEAR) +
                             length (read_setup d)) j) 7 = true) ->
  Z.testbit (status io d (length (byte_events d false LCD_CMD_CLEAR) +
                          length (read_setup d)) N) 7 = false ->
  (N < fuel)%nat ->
  exists w1,
    lcdCommand io fuel LCD_CMD_CLEAR (start d) =
    Ret (io (length (byte_events d false LCD_CMD_CLEAR) +
             length (read_setup d) + S N * length (poll_events d))%nat
            (BusIO false false false 0)) w1 /\
    drv w1 = d /\ clean (trace w1) = true /\
    strobes (events w1) = nibbles d false LCD_CMD_CLEAR /\
    (io (length (byte_events d false LCD_CMD_CLEAR) +
         length (read_setup d) + S N * length (poll_events d))%nat
        (BusIO false false false 0) <> 0 ->
     lcdClear io fuel (start d) = Ret (-1) w1).
Proof.
  intros Hwo Hok Hbusy Hfree Hfuel.
  destruct (transfer_polled io Hok d false LCD_CMD_CLEAR N fuel
              Hwo Hbusy Hfree Hfuel) as (w1 & E & D & C).
  exists w1. split; [exact E |]. split; [exact D |]. split; [exact C |].
  split.
  - pose proof (keeps_silent_wait_ready io fuel d) as K.
    rewrite transfer_eq in E. unfold bind in E.
    rewrite (any_failed_ok io Hok) in E. cbn [drv start trace app] in E.
    match type of E with
    | wait_ready _ _ _ ?W = _ => specialize (K W Logic.I)
    end.
    rewrite E in K. cbn [final_world trace] in K.
    destruct K as (_ & l & Hl & Hs).
    unfold events. rewrite Hl, map_app, strobes_app, respond_events.
    now rewrite strobes_byte_events, (strobes_silent l Hs), app_nil_r.
  - intros Hr. unfold lcdClear, bind, get_driver, c_or, test, bind, ret.
    unfold lcdCommand in *. change (to_uint8 LCD_CMD_CLEAR) with LCD_CMD_CLEAR.
    rewrite E. unfold truthy.
    match goal with
    | |- context [negb (?r =? 0)] =>
        destruct (Z.eqb_spec r 0) as [H0 | H0];
        [exfalso; exact (Hr H0) | reflexivity]
    end.
Qed.

Lemma positive_acknowledgement_reads_as_failure_witness :
  exists w1,
    lcdCommand ack_one 1 LCD_CMD_CLEAR (start (sample_driver 16 2 false))
    = Ret 1 w1 /\
    drv w1 = sample_driver 16 2 false /\ clean (trace w1) = true /\
    lcdClear ack_one 1 (start (sample_driver 16 2 false)) = Ret (-1) w1.
Proof.
  assert (Hok : forall k e, call_failed (e, ack_one k e) = false)
    by (intros k [[|] rs en v | us]; reflexivity).
  destruct (positive_acknowledgement_reads_as_failure
              ack_one (sample_driver 16 2 false) 0 1 eq_refl Hok
              ltac:(intros j Hj; lia) eq_refl ltac:(lia))
    as (w1 & E & D & C & _ & F).
  exists w1. split; [exact E |]. split; [exact D |]. split; [exact C |].
  apply F. discriminate.
Defined.

(** ** What no operation touches *)

Lemma same_configuration_lcdUpdateCursor (d0 d : lcdDriver_t) :
  same_configuration d0 d -> same_configuration d0 (lcdUpdateCursor d).
Proof.
  unfold same_configuration, lcdUpdateCursor.
  repeat match goal with |- context [if ?b then _ else _] => destruct b end;
    auto.
Qed.

(** X17. No operation changes the configuration: in every final state, at
    return and at a failed assertion, the dimensions, the bus-width,
    write-only and font flags and the six timings are those the operation
    was entered with. *)
Theorem operations_keep_configuration
        (io : nat -> event -> Z) (fuel : nat) (op : operation)
        (d : lcdDriver_t) (w' : world) :
  final_world (run io fuel op (start d)) = Some w' ->
  dimensions (drv w') = dimensions d /\ fourBits (drv w') = fourBits d /\
  writeOnly (drv w') = writeOnly d /\ largeFont (drv w') = largeFont d /\
  busTiming (drv w') = busTiming d.
Proof.
  intros E.
  assert (K : keeps (same_configuration d) (fun _ => True) (run io fuel op)).
  { assert (He : forall d1 e, same_configuration d d1 ->
                              same_configuration d (set_error e d1)) by auto.
    assert (Hc : forall c d1, same_configuration d d1 ->
                              same_configuration d (set_cursor c d1)) by auto.
    assert (Hu := same_configuration_lcdUpdateCursor d).
    destruct op; cbn [run].
    - apply keeps_lcdCommand; auto.
    - apply keeps_lcdWrite; auto.
    - apply keeps_lcdInit; auto.
    - apply keeps_lcdClear; auto.
    - apply keeps_lcdHome; auto.
    - apply keeps_lcdDirection; auto.
    - apply keeps_lcdNext; auto.
    - apply keeps_lcdSetDisplay; auto.
    - apply keeps_lcdSetCursor; auto.
    - apply keeps_lcdStoreGlyph; auto.
    - apply keeps_lcdPutChar; auto.
    - apply keeps_lcdPutString; auto. }
  specialize (K (start d)). rewrite E in K. apply K.
  repeat split.
Qed.

Lemma operations_keep_configuration_witness :
  exists w',
    final_world (run (fail_at 20) 0 OpInit (start (sample_driver 20 4 true)))
    = Some w' /\
    dimensions (drv w') = mkDimensions 20 4 /\
    busTiming (drv w') = mkBusTiming 10 10 10 50 500 50000.
Proof.
  eexists. split; [vm_compute; reflexivity |].
  destruct (operations_keep_configuration (fail_at 20) 0 OpInit
              (sample_driver 20 4 true) _ ltac:(vm_compute; reflexivity))
    as (Hd & _ & _ & _ & Ht).
  split; [exact Hd | exact Ht].
Defined.

(** ** What the controller sees of the initialisation *)

Section InitStream.

Variable io : nat -> event -> Z.

Lemma chain_strobes (es : list event) (w w' : world) :
  any_failed io es w = Ret false w' ->
  drv w' = drv w /\ strobes (events w') = strobes (events w) ++ strobes es.
Proof.
  intros E. apply any_failed_false in E as (D & Ev).
  split; [exact D |]. now rewrite Ev, strobes_app.
Qed.

Lemma command_then_delay_strobes (fuel : nat) (c us : Z) (w w' : world) :
  c_or (test (lcdCommand io fuel c)) (test (lcdDelay io us)) w = Ret false w' ->
  drv w' = drv w /\
  strobes (events w') = strobes (events w) ++ nibbles (drv w) false (to_uint8 c).
Proof.
  intros E. apply c_or_false in E as (w1 & E1 & E2).
  apply test_false, lcdCommand_strobes in E1 as (D1 & S1).
  apply test_false, lcdDelay_success in E2 as (D2 & Ev2).
  split; [congruence |].
  rewrite Ev2, strobes_app, S1. cbn [strobes flat_map strobe app].
  now rewrite app_nil_r.
Qed.

Lemma lcdClear_strobes (fuel : nat) (w w' : world) :
  lcdClear io fuel w = Ret 0 w' ->
  drv w' = set_cursor (mkCursor 0 0) (drv w) /\
  strobes (events w') = strobes (events w) ++ nibbles (drv w) false LCD_CMD_CLEAR.
Proof.
  unfold lcdClear. unfold bind at 1 2. cbn [get_driver].
  destruct (c_or _ _ w) as [[|] w1 | w1 |] eqn:E; try discriminate.
  apply command_then_delay_strobes in E as (D & S).
  unfold bind, modify_driver, ret. intros [= <-]. cbn [drv].
  split; [now rewrite D | exact S].
Qed.

Lemma lcdInit4Bit_strobes (fuel : nat) (w w' : world) :
  lcdInit4Bit io fuel w = Ret 0 w' ->
  drv w' = drv w /\
  strobes (events w') =
  strobes (events w) ++
  [(false, 48); (false, 48); (false, 48); (false, 32)] ++
  nibbles (drv w) false 32.
Proof.
  unfold lcdInit4Bit. unfold bind at 1 2. cbn [get_driver].
  fold (reset_pulses (drv w)).
  destruct (any_failed io (reset_pulses (drv w)) w) as [[|] w1 | w1 |] eqn:E1;
    try discriminate.
  apply chain_strobes in E1 as (D1 & S1).
  unfold bind at 1. fold (four_bit_request (drv w)).
  destruct (any_failed io (four_bit_request (drv w)) w1)
    as [[|] w2 | w2 |] eqn:E2; try discriminate.
  apply chain_strobes in E2 as (D2 & S2).
  intros E3. apply lcdCommand_strobes in E3 as (D3 & S3).
  rewrite D2, D1 in *. split; [exact D3 |].
  rewrite S3, S2, S1, <- !app_assoc. reflexivity.
Qed.

End InitStream.

(** X18. A 4-bit initialisation that returns 0 has made the controller latch
    exactly: 0x30 three times and 0x20 once (the single pulses), then in
    nibble pairs the function-set 0x20, the function-set with the line bit
    from [height > 1] and the font bit, and the clear command 0x01.  Of the
    driver structure only the cursor has changed, to (0,0); in particular
    the error field is as the caller left it. *)
Theorem lcdInit_stream (io : nat -> event -> Z) (fuel : nat)
        (d : lcdDriver_t) (w' : world) :
  fourBits d = true ->
  lcdInit io fuel (start d) = Ret 0 w' ->
  drv w' = set_cursor (mkCursor 0 0) d /\
  strobes (events w') =
  [ (false, 48); (false, 48); (false, 48); (false, 32);
    (false, 32); (false, 0);
    (false, LCD_CMD_FUNCTION false (height (dimensions d) >? 1) (largeFont d));
    (false, to_uint8 (Z.shiftl (LCD_CMD_FUNCTION false
                                  (height (dimensions d) >? 1) (largeFont d))
                               4));
    (false, 1); (false, 16) ].
Proof.
  intros H4 E. unfold lcdInit in E. unfold bind at 1 2 in E.
  cbn [modify_driver get_driver drv trace start set_cursor fourBits
       busTiming dimensions height largeFont] in E.
  rewrite H4 in E. unfold bind at 1 in E.
  set (w0 := mkWorld _ []) in E.
  destruct (c_or _ _ w0) as [[|] w1 | w1 |] eqn:E1; try discriminate.
  apply c_or_false in E1 as (wa & Ea & Eb).
  apply test_false, lcdInit4Bit_strobes in Ea as (Da & Sa).
  apply command_then_delay_strobes in Eb as (Db & Sb).
  unfold bind, c_assert in E.
  apply lcdClear_strobes in E as (Dc & Sc).
  rewrite Db, Da in *. rewrite to_uint8_function in Sb.
  split; [now rewrite Dc |].
  rewrite Sc, Sb, Sa. unfold nibbles.
  change (fourBits (drv w0)) with (fourBits d). rewrite H4. reflexivity.
Qed.

Lemma lcdInit_stream_witness :
  exists w',
    lcdInit zero_io 1 (start (sample_driver 20 4 false)) = Ret 0 w' /\
    drv w' = sample_driver 20 4 false /\
    strobes (events w') =
    [ (false, 48); (false, 48); (false, 48); (false, 32);
      (false, 32); (false, 0); (false, 40); (false, 128);
      (false, 1); (false, 16) ].
Proof.
  eexists. split; [vm_compute; reflexivity |].
  apply (lcdInit_stream zero_io 1 (sample_driver 20 4 false));
    [reflexivity | vm_compute; reflexivity].
Defined.

(** ** Direction and return codes *)

(** X19. [lcdDirection] that returns 0 has sent the entry-mode command
    whose increment bit (bit 1) is the requested direction and whose shift
    bit (bit 0) is clear, and has stored that direction in the driver; so
    the stored flag is the direction the controller was last told. *)
Theorem lcdDirection_entry_mode
        (io : nat -> event -> Z) (fuel : nat) (forward : bool)
        (d : lcdDriver_t) (w' : world) :
  lcdDirection io fuel forward (start d) = Ret 0 w' ->
  drv w' = set_direction forward d /\
  strobes (events w') = nibbles d false (LCD_CMD_ENTRY forward false) /\
  Z.testbit (LCD_CMD_ENTRY forward false) 1 = forward /\
  Z.testbit (LCD_CMD_ENTRY forward false) 0 = false /\
  LCD_CMD_ENTRY forward false = 4 + 2 * b2z forward.
Proof.
  unfold lcdDirection. unfold bind at 1 2. cbn [get_driver start drv].
  destruct (c_or _ _ _) as [[|] w1 | w1 |] eqn:E; try discriminate.
  apply command_then_delay_strobes in E as (D & S).
  cbn [drv start] in D, S.
  unfold bind, modify_driver, ret. intros [= <-]. cbn [drv].
  split; [now rewrite D |]. split.
  - unfold events in *. cbn [trace map] in *. rewrite S.
    cbn [strobes flat_map app]. now destruct forward.
  - now destruct forward.
Qed.

Lemma lcdDirection_entry_mode_witness :
  exists w',
    lcdDirection zero_io 0 false (start (sample_driver 16 2 true)) = Ret 0 w' /\
    direction (drv w') = false /\
    strobes (events w') = [(false, 4); (false, 64)].
Proof.
  eexists. split; [vm_compute; reflexivity |].
  destruct (lcdDirection_entry_mode zero_io 0 false (sample_driver 16 2 true)
              _ ltac:(vm_compute; reflexivity)) as (D & S & _).
  split; [now rewrite D | exact S].
Defined.

Lemma write_bytes_status (io : nat -> event -> Z) (fuel : nat)
      (bytes : list Z) (w : world) (r : Z) (w' : world) :
  write_bytes io fuel bytes w = Ret r w' -> r = 0 \/ r = -1.
Proof.
  revert w. induction bytes as [| b bytes IH]; intros w.
  - intros [= <- _]. now left.
  - cbn [write_bytes]. unfold bind.
    destruct (lcdWrite io fuel b w) as [r1 w1 | w1 |]; try discriminate.
    destruct (truthy r1); [intros [= <- _]; now right | apply IH].
Qed.

Lemma lcdInit_steps (io : nat -> event -> Z) (fuel : nat) (w : world) :
  lcdInit io fuel w =
  let d0 := set_cursor (mkCursor 0 0) (drv w) in
  let w0 := mkWorld d0 (trace w) in
  if fourBits (drv w) then
    match c_or (test (lcdInit4Bit io fuel))
            (c_or (test (lcdCommand io fuel
                           (LCD_CMD_FUNCTION false
                              (height (dimensions d0) >? 1) (largeFont d0))))
                  (test (lcdDelay io (busyHoldShort (busTiming d0))))) w0 with
    | Ret true w1 => Ret (-1) w1
    | Ret false w1 => lcdClear io fuel w1
    | AssertFail w1 => AssertFail w1
    | OutOfFuel => OutOfFuel
    end
  else AssertFail w0.
Proof.
  cbv zeta. unfold lcdInit. unfold bind at 1 2 3.
  cbn [modify_driver get_driver drv trace].
  change (fourBits (set_cursor (mkCursor 0 0) (drv w)))
    with (fourBits (drv w)).
  destruct (fourBits (drv w)).
  - destruct (c_or _ _ _) as [[|] w1 | w1 |]; reflexivity.
  - reflexivity.
Qed.

(** X20. [lcdInit], [lcdClear], [lcdHome], [lcdDirection], [lcdNext] and
    [lcdStoreGlyph] return 0 or -1 and nothing else, whatever the
    collaborators return. *)
Theorem status_operations_return_0_or_minus_1
        (io : nat -> event -> Z) (fuel : nat) (op : operation)
        (w : world) (r : Z) (w' : world) :
  reports_status op = true ->
  run io fuel op w = Ret r w' -> r = 0 \/ r = -1.
Proof.
  assert (G : forall c us f w0,
             (b <- c_or (test (lcdCommand io fuel c)) (test (lcdDelay io us)) ;;
              if b then ret (-1) else modify_driver f ;;; ret 0) w0
             = Ret r w' -> r = 0 \/ r = -1).
  { intros c us f w0 E. pose proof (guarded_update io fuel c us f w0) as U.
    rewrite E in U. destruct U as [[-> _] | [-> _]]; auto. }
  destruct op; cbn [reports_status run]; try discriminate; intros _.
  - rewrite lcdInit_steps. cbv zeta.
    destruct (fourBits (drv w)); [| discriminate].
    destruct (c_or _ _ _) as [[|] w1 | w1 |]; try discriminate.
    + intros [= <- _]. now right.
    + unfold lcdClear. unfold bind at 1. cbn [get_driver]. apply G.
  - unfold lcdClear. unfold bind at 1. cbn [get_driver]. apply G.
  - unfold lcdHome. unfold bind at 1. cbn [get_driver]. apply G.
  - unfold lcdDirection. unfold bind at 1. cbn [get_driver]. apply G.
  - rewrite lcdNext_steps.
    destruct (transfer io fuel false _ _) as [r1 w1 | w1 |]; try discriminate.
    intros [= <- _]. destruct (truthy r1); auto.
  - unfold lcdStoreGlyph. unfold bind at 1 2 3. cbn [get_driver].
    unfold c_assert. destruct (_ || _); [| discriminate].
    destruct (lcdCommand io fuel _ w) as [r1 w1 | w1 |]; try discriminate.
    destruct (truthy r1); [intros [= <- _]; now right |].
    apply write_bytes_status.
Qed.

Lemma status_operations_return_0_or_minus_1_witness :
  exists w',
    run ack_one 1 OpHome (start (sample_driver 16 2 false)) = Ret (-1) w' /\
    (-1 = 0 \/ -1 = -1).
Proof.
  eexists. split; [vm_compute; reflexivity |].
  eapply (status_operations_return_0_or_minus_1 ack_one 1 OpHome
            (start (sample_driver 16 2 false)) (-1));
    [reflexivity | vm_compute; reflexivity].
Defined.

(** * The calls of set-cursor and initialisation, and what a failure leaves *)

(** ** The command issued by set-cursor *)

(** Whatever happens afterwards, a transfer begins by putting its byte on
    the bus with enable low. *)
Lemma transfer_first_call (io : nat -> event -> Z) (fuel : nat) (rs : bool)
      (byte : Z) (w w' : world) :
  final_world (transfer io fuel rs byte w) = Some w' ->
  exists rest, events w' = events w ++ BusIO false rs false byte :: rest.
Proof.
  rewrite transfer_eq. unfold bind. rewrite any_failed_eq.
  set (k := length (trace w)).
  assert (Hl : exists tl, attempted io k (byte_events (drv w) rs byte) =
                          (BusIO false rs false byte,
                           io k (BusIO false rs false byte)) :: tl).
  { unfold byte_events, write_cycle. cbn [app attempted].
    destruct (call_failed _); eexists; reflexivity. }
  destruct Hl as (tl & Hl). rewrite Hl.
  destruct (negb _).
  - rewrite io_failed_eq. cbn [final_world]. intros [= <-].
    exists (map fst tl). unfold events. cbn [trace].
    now rewrite map_app.
  - set (w1 := mkWorld (drv w) _). intros E.
    pose proof (keeps_silent_wait_ready io fuel (drv w) w1 Logic.I) as K.
    rewrite E in K. destruct K as (_ & l & Ht & _).
    exists (map fst tl ++ map fst l). unfold events. rewrite Ht.
    unfold w1. cbn [trace]. rewrite !map_app. cbn [map fst].
    now rewrite <- app_assoc.
Qed.

Lemma set_address_byte (a : Z) :
  0 <= a < 128 ->
  to_uint8 (LCD_CMD_DADDR a) = 128 + a /\ Z.land (128 + a) 127 = a.
Proof.
  intros Ha. rewrite LCD_CMD_DADDR_value, Z.mod_small by lia. split.
  - apply to_uint8_small. unfold is_uint8. lia.
  - rewrite land_127. rewrite <- (Z.add_mod_idemp_l 128 a 128) by lia.
    change (128 mod 128) with 0. rewrite Z.add_0_l. apply Z.mod_small. lia.
Qed.

(** What [lcdSetCursor] at a valid position puts on the bus. *)
Lemma lcdSetCursor_first_call (io : nat -> event -> Z) (fuel : nat)
      (d : lcdDriver_t) (col row : Z) (w' : world) :
  valid_dimensions d ->
  0 <= col < width (dimensions d) -> 0 <= row < height (dimensions d) ->
  final_world (lcdSetCursor io fuel col row (start d)) = Some w' ->
  cursor (drv w') = mkCursor col row /\
  (exists rest,
     events w' =
     BusIO false false false (128 + address_of (width (dimensions d)) col row)
     :: rest) /\
  Z.land (128 + address_of (width (dimensions d)) col row) 127 =
  address_of (width (dimensions d)) col row /\
  (lcdSetCursor io fuel col row (start d) = Ret 0 w' ->
   strobes (events w') =
   nibbles d false (128 + address_of (width (dimensions d)) col row)).
Proof.
  intros Hd Hc Hr E.
  pose proof (valid_dimensions_cursor_dimensions d Hd) as [Hw Hh].
  assert (Ha : 0 <= address_of (width (dimensions d)) col row < 128).
  { destruct Hd as (Hw1 & Hh1 & Hwh).
    pose proof (address_of_bound _ _ col row Hw1 Hh1 Hwh Hc Hr). lia. }
  destruct (set_address_byte _ Ha) as [Hb Hl].
  split; [| split; [| split; [exact Hl |]]].
  - rewrite (lcdSetCursor_cursor io fuel col row (start d) w');
      [| apply Z.gtb_lt; cbn; lia | apply Z.gtb_lt; cbn; lia | exact E].
    now rewrite !to_int8_small by (unfold is_int8; lia).
  - rewrite lcdSetCursor_issues in E by assumption.
    unfold lcdCommand in E. rewrite Hb in E.
    apply transfer_first_call in E as (rest & Ev). now exists rest.
  - intros E0. rewrite lcdSetCursor_issues in E0 by assumption.
    unfold lcdCommand in E0. rewrite Hb in E0.
    apply transfer_strobes in E0 as (_ & St). exact St.
Qed.

(** C1. For a driver with valid dimensions and a valid cursor the decoder
    yields [x + 64*(y mod 2) + width*(y >= 2 ? 1 : 0)].  [lcdSetCursor] at a
    valid position stores the position and then issues the set-DDRAM-address
    command of that address: the first call it makes puts the byte
    [0x80 + address] on the bus with register select low, the low seven bits
    of that byte are the address, and when it returns 0 the controller has
    latched exactly that byte.  On a 16x2 display set-cursor(5,1) issues the
    byte 197 = 0x80 + 69, address 69, and on a 20x4 display set-cursor(0,2)
    the byte 148 = 0x80 + 20, address 20. *)
Theorem decode_cursor_formula :
  (forall d, valid_dimensions d -> valid_cursor d ->
     LCD_DECODE_CURSOR d =
     x (cursor d) + 64 * (y (cursor d) mod 2) +
     width (dimensions d) * (if y (cursor d) >=? 2 then 1 else 0)) /\
  (forall io fuel d col row w',
     valid_dimensions d ->
     0 <= col < width (dimensions d) -> 0 <= row < height (dimensions d) ->
     final_world (lcdSetCursor io fuel col row (start d)) = Some w' ->
     let address :=
       col + 64 * (row mod 2) +
       width (dimensions d) * (if row >=? 2 then 1 else 0) in
     cursor (drv w') = mkCursor col row /\
     LCD_DECODE_CURSOR (drv w') = address /\
     (exists rest,
        events w' = BusIO false false false (128 + address) :: rest) /\
     Z.land (128 + address) 127 = address /\
     (lcdSetCursor io fuel col row (start d) = Ret 0 w' ->
      strobes (events w') = nibbles d false (128 + address))) /\
  (forall io fuel d w',
     dimensions d = mkDimensions 16 2 ->
     final_world (lcdSetCursor io fuel 5 1 (start d)) = Some w' ->
     (exists rest, events w' = BusIO false false false 197 :: rest) /\
     197 = LCD_CMD_DADDR 69 /\ Z.land 197 127 = 69 /\
     (lcdSetCursor io fuel 5 1 (start d) = Ret 0 w' ->
      strobes (events w') = nibbles d false 197)) /\
  (forall io fuel d w',
     dimensions d = mkDimensions 20 4 ->
     final_world (lcdSetCursor io fuel 0 2 (start d)) = Some w' ->
     (exists rest, events w' = BusIO false false false 148 :: rest) /\
     148 = LCD_CMD_DADDR 20 /\ Z.land 148 127 = 20 /\
     (lcdSetCursor io fuel 0 2 (start d) = Ret 0 w' ->
      strobes (events w') = nibbles d false 148)).
Proof.
  split; [| split; [| split]].
  - intros d _ [_ Hy]. apply decode_address_of. lia.
  - intros io fuel d col row w' Hd Hc Hr E. cbv zeta.
    fold (address_of (width (dimensions d)) col row).
    destruct (lcdSetCursor_first_call io fuel d col row w' Hd Hc Hr E)
      as (Cu & Ev & Hl & St).
    split; [exact Cu |]. split; [| split; [exact Ev |]; split; assumption].
    rewrite decode_address_of by (rewrite Cu; cbn; lia).
    rewrite Cu. cbn [x y].
    assert (Dw : dimensions (drv w') = dimensions d).
    { rewrite lcdSetCursor_issues in E by assumption. unfold lcdCommand in E.
      match type of E with
      | final_world (transfer io fuel false ?c ?w0) = _ =>
          pose proof (transfer_driver io fuel false c w0) as T;
          destruct (transfer io fuel false c w0) as [r w1 | w1 |];
          [| contradiction | discriminate]
      end.
      injection E as ->. destruct T as ([-> | [-> _]] & _); reflexivity. }
    now rewrite Dw.
  - intros io fuel d w' Hd E.
    destruct (lcdSetCursor_first_call io fuel d 5 1 w') as (_ & Ev & _ & St);
      unfold valid_dimensions; rewrite ?Hd; cbn; try lia; try exact E.
    rewrite Hd in Ev, St. cbn in Ev, St.
    split; [exact Ev |]. split; [reflexivity |]. split; [reflexivity |].
    exact St.
  - intros io fuel d w' Hd E.
    destruct (lcdSetCursor_first_call io fuel d 0 2 w') as (_ & Ev & _ & St);
      unfold valid_dimensions; rewrite ?Hd; cbn; try lia; try exact E.
    rewrite Hd in Ev, St. cbn in Ev, St.
    split; [exact Ev |]. split; [reflexivity |]. split; [reflexivity |].
    exact St.
Qed.

Lemma decode_cursor_formula_witness :
  LCD_DECODE_CURSOR (at_position (sample_driver 16 2 true) 5 1) = 69 /\
  exists w',
    lcdSetCursor zero_io 0 0 2 (start (sample_driver 20 4 true)) = Ret 0 w' /\
    cursor (drv w') = mkCursor 0 2 /\
    LCD_DECODE_CURSOR (drv w') = 20 /\
    (exists rest, events w' = BusIO false false false 148 :: rest) /\
    strobes (events w') = [(false, 148); (false, 64)].
Proof.
  split.
  - rewrite (proj1 decode_cursor_formula);
      [reflexivity | unfold valid_dimensions; simpl; lia
       | unfold valid_cursor; simpl; lia].
  - eexists. split; [vm_compute; reflexivity |].
    destruct (proj1 (proj2 decode_cursor_formula) zero_io 0%nat
                    (sample_driver 20 4 true) 0 2 _
                    ltac:(unfold valid_dimensions; simpl; lia)
                    ltac:(simpl; lia) ltac:(simpl; lia)
                    ltac:(vm_compute; reflexivity))
      as (Cu & De & Ev & _ & St).
    split; [exact Cu |]. split; [exact De |]. split; [exact Ev |].
    apply St. vm_compute; reflexivity.
Defined.

(** ** The initialisation sequence *)

Section InitSequence.

Variable io : nat -> event -> Z.

(** The wait of a transfer that returns 0 strobes nothing. *)
Lemma transfer_success_silent (fuel : nat) (rs : bool) (byte : Z)
      (w w' : world) :
  transfer io fuel rs byte w = Ret 0 w' ->
  drv w' = drv w /\
  exists wait,
    events w' =
    events w ++ byte_events (drv w) rs byte ++ wait ++ [final_call (drv w)] /\
    strobes wait = [] /\
    (writeOnly (drv w) = true -> wait = []).
Proof.
  intros E.
  destruct (transfer_success io fuel rs byte w w' E) as (D & wait & Ev & Hwo).
  split; [exact D |]. exists wait. split; [exact Ev |]. split; [| exact Hwo].
  destruct (transfer_strobes io fuel rs byte w w' E) as (_ & St).
  rewrite Ev, !strobes_app, strobes_byte_events in St.
  apply app_inv_head in St.
  rewrite <- (app_nil_r (nibbles (drv w) rs byte)) in St at 2.
  apply app_inv_head in St. now apply app_eq_nil in St.
Qed.

Lemma command_then_delay_silent (fuel : nat) (c us : Z) (w w' : world) :
  c_or (test (lcdCommand io fuel c)) (test (lcdDelay io us)) w = Ret false w' ->
  drv w' = drv w /\
  exists wait,
    events w' =
    events w ++ byte_events (drv w) false (to_uint8 c) ++ wait ++
    [final_call (drv w)] ++ [Delay us] /\
    strobes wait = [] /\
    (writeOnly (drv w) = true -> wait = []).
Proof.
  intros E. apply c_or_false in E as (w1 & E1 & E2).
  apply test_false, transfer_success_silent in E1
    as (D1 & wait & Ev1 & Hs & Hwo).
  apply test_false, lcdDelay_success in E2 as (D2 & Ev2).
  split; [congruence |]. exists wait. split; [| now split].
  rewrite Ev2, Ev1, <- !app_assoc. reflexivity.
Qed.

Lemma lcdInit4Bit_silent (fuel : nat) (w w' : world) :
  lcdInit4Bit io fuel w = Ret 0 w' ->
  drv w' = drv w /\
  exists wait,
    events w' =
    events w ++ reset_pulses (drv w) ++ four_bit_request (drv w) ++
    byte_events (drv w) false (LCD_CMD_FUNCTION false false false) ++
    wait ++ [final_call (drv w)] /\
    strobes wait = [] /\
    (writeOnly (drv w) = true -> wait = []).
Proof.
  unfold lcdInit4Bit. unfold bind at 1 2. cbn [get_driver].
  fold (reset_pulses (drv w)).
  destruct (any_failed io (reset_pulses (drv w)) w) as [[|] w1 | w1 |] eqn:E1;
    try discriminate.
  apply any_failed_false in E1 as (D1 & Ev1).
  unfold bind at 1. fold (four_bit_request (drv w)).
  destruct (any_failed io (four_bit_request (drv w)) w1)
    as [[|] w2 | w2 |] eqn:E2; try discriminate.
  apply any_failed_false in E2 as (D2 & Ev2).
  unfold lcdCommand. rewrite to_uint8_function. intros E3.
  apply transfer_success_silent in E3 as (D3 & wait & Ev3 & Hs & Hwo).
  rewrite D2, D1 in *. split; [exact D3 |]. exists wait.
  split; [| now split].
  rewrite Ev3, Ev2, Ev1, <- !app_assoc. reflexivity.
Qed.

Hypothesis io_ok : forall k e, call_failed (e, io k e) = false.

(** On a write-only bus whose collaborators never fail every transfer
    returns 0. *)
Lemma transfer_write_only_ok (fuel : nat) (rs : bool) (byte : Z) (w : world) :
  writeOnly (drv w) = true ->
  exists w', transfer io fuel rs byte w = Ret 0 w' /\ drv w' = drv w.
Proof.
  intros Hwo. rewrite transfer_eq. unfold bind.
  rewrite (any_failed_ok io io_ok). unfold wait_ready. cbn [drv trace].
  rewrite Hwo. unfold lcdDelay, call. cbn [drv trace].
  match goal with
  | |- context [Ret (io ?k ?e) _] =>
      pose proof (io_ok k e) as H; unfold call_failed in H; cbn [fst snd] in H;
      apply negb_false_iff, Z.eqb_eq in H; rewrite H
  end.
  eexists. split; reflexivity.
Qed.

Lemma command_then_delay_ok (fuel : nat) (c us : Z) (w : world) :
  writeOnly (drv w) = true ->
  exists w',
    c_or (test (lcdCommand io fuel c)) (test (lcdDelay io us)) w = Ret false w'
    /\ drv w' = drv w.
Proof.
  intros Hwo. unfold c_or, bind. rewrite test_result. unfold lcdCommand.
  destruct (transfer_write_only_ok fuel false (to_uint8 c) w Hwo)
    as (w1 & -> & D1).
  cbn [truthy Z.eqb negb]. rewrite test_result. unfold lcdDelay, call.
  pose proof (io_ok (length (trace w1)) (Delay us)) as H.
  unfold call_failed in H. cbn [fst snd] in H.
  apply negb_false_iff, Z.eqb_eq in H. rewrite H.
  eexists. split; [reflexivity | exact D1].
Qed.

Lemma lcdInit_write_only_ok (fuel : nat) (d : lcdDriver_t) :
  fourBits d = true -> writeOnly d = true ->
  exists w', lcdInit io fuel (start d) = Ret 0 w'.
Proof.
  intros H4 Hwo. rewrite lcdInit_steps. cbv zeta. cbn [start drv trace].
  rewrite H4. set (d0 := set_cursor (mkCursor 0 0) d).
  unfold c_or at 1. unfold bind. rewrite test_result.
  unfold lcdInit4Bit. unfold bind. cbn [get_driver drv].
  rewrite (any_failed_ok io io_ok). rewrite (any_failed_ok io io_ok).
  unfold lcdCommand at 1.
  match goal with
  | |- context [transfer io fuel false ?c ?w0] =>
      destruct (transfer_write_only_ok fuel false c w0 Hwo) as (w1 & -> & D1)
  end.
  cbn [truthy Z.eqb negb drv] in *.
  match goal with
  | |- context [c_or (test (lcdCommand io fuel ?c)) (test (lcdDelay io ?us)) w1] =>
      destruct (command_then_delay_ok fuel c us w1) as (w2 & -> & D2);
        [now rewrite D1 |]
  end.
  unfold lcdClear. unfold bind. cbn [get_driver].
  match goal with
  | |- context [c_or (test (lcdCommand io fuel ?c)) (test (lcdDelay io ?us)) w2] =>
      destruct (command_then_delay_ok fuel c us w2) as (w3 & -> & D3);
        [now rewrite D2, D1 |]
  end.
  eexists. reflexivity.
Qed.

End InitSequence.

(** C2, amended. In 4-bit mode a successful [lcdInit] makes, in order: three
    function-set(8-bit) pulses, settled by 5000 us, 100 us and the
    configured data-hold (the third pulse has no address set-up phase and
    holds enable for the enable-hold); one function-set(4-bit) pulse settled
    by data-hold + 100 us; a function-set(4-bit, one line, 5x8) command on
    the two-nibble path; the function-set command with the line count from
    [height > 1] and the configured font on the two-nibble path; the clear
    command.  Each command is followed by its wait, which strobes nothing
    and in write-only mode is the hold alone; what follows the clear command
    is one delay.  The cursor is then (0,0).  On a write-only bus whose
    collaborators never fail the initialisation does return 0. *)
Theorem init_4bit_sequence (io : nat -> event -> Z) (fuel : nat)
        (d : lcdDriver_t) :
  fourBits d = true ->
  (forall w',
     lcdInit io fuel (start d) = Ret 0 w' ->
     cursor (drv w') = mkCursor 0 0 /\
     exists wait1 wait2 wait3 hold,
       events w' =
       reset_pulses d ++ four_bit_request d ++
       (byte_events d false (LCD_CMD_FUNCTION false false false) ++
        wait1 ++ [final_call d]) ++
       (byte_events d false
          (LCD_CMD_FUNCTION false (height (dimensions d) >? 1) (largeFont d)) ++
        wait2 ++ [final_call d] ++ [Delay (busyHoldShort (busTiming d))]) ++
       (byte_events d false LCD_CMD_CLEAR ++ wait3 ++ [final_call d]) ++
       [Delay hold] /\
       strobes wait1 = [] /\ strobes wait2 = [] /\ strobes wait3 = [] /\
       (writeOnly d = true -> wait1 = [] /\ wait2 = [] /\ wait3 = [])) /\
  (writeOnly d = true ->
   (forall k e, call_failed (e, io k e) = false) ->
   exists w', lcdInit io fuel (start d) = Ret 0 w').
Proof.
  intros H4. split.
  - intros w' E. rewrite lcdInit_steps in E. cbv zeta in E.
    cbn [start drv trace] in E. rewrite H4 in E.
    set (d0 := set_cursor (mkCursor 0 0) d) in E.
    set (w0 := mkWorld d0 []) in E.
    destruct (c_or _ _ w0) as [[|] w1 | w1 |] eqn:E1; try discriminate.
    apply c_or_false in E1 as (wa & Ea & Eb).
    apply test_false, lcdInit4Bit_silent in Ea as (Da & wait1 & Eva & Hsa & Hwa).
    apply command_then_delay_silent in Eb as (Db & wait2 & Evb & Hsb & Hwb).
    unfold lcdClear in E. unfold bind at 1 2 in E. cbn [get_driver] in E.
    destruct (c_or _ _ w1) as [[|] w2 | w2 |] eqn:E2; try discriminate.
    apply command_then_delay_silent in E2 as (Dc & wait3 & Evc & Hsc & Hwc).
    unfold bind, modify_driver, ret in E. injection E as <-. cbn [drv].
    rewrite Db, Da in *. rewrite to_uint8_function in Evb.
    split; [reflexivity |].
    exists wait1, wait2, wait3, (busyHoldShort (busTiming d)).
    split; [| split; [exact Hsa | split; [exact Hsb | split; [exact Hsc |]]]].
    + unfold events at 1. cbn [trace]. fold (events w2).
      rewrite Evc, Evb, Eva, <- !app_assoc. reflexivity.
    + intros Hwo. auto.
  - intros Hwo Hok. now apply lcdInit_write_only_ok.
Qed.

Lemma init_4bit_sequence_witness :
  exists w',
    lcdInit zero_io 0 (start (sample_driver 16 2 true)) = Ret 0 w' /\
    cursor (drv w') = mkCursor 0 0 /\
    exists wait1 wait2 wait3 hold,
      events w' =
      reset_pulses (sample_driver 16 2 true) ++
      four_bit_request (sample_driver 16 2 true) ++
      (byte_events (sample_driver 16 2 true) false 32 ++
       wait1 ++ [Delay 500]) ++
      (byte_events (sample_driver 16 2 true) false 40 ++
       wait2 ++ [Delay 500] ++ [Delay 500]) ++
      (byte_events (sample_driver 16 2 true) false 1 ++
       wait3 ++ [Delay 500]) ++ [Delay hold] /\
      strobes wait1 = [] /\ strobes wait2 = [] /\ strobes wait3 = [] /\
      (writeOnly (sample_driver 16 2 true) = true ->
       wait1 = [] /\ wait2 = [] /\ wait3 = []).
Proof.
  destruct (proj2 (init_4bit_sequence zero_io 0 (sample_driver 16 2 true)
                     eq_refl) eq_refl
                  (fun _ e => match e with
                              | BusIO _ _ _ _ => eq_refl
                              | Delay _ => eq_refl
                              end)) as (w' & E).
  exists w'. split; [exact E |].
  exact (proj1 (init_4bit_sequence zero_io 0 (sample_driver 16 2 true)
                  eq_refl) w' E).
Defined.

(** ** Where a failure is latched *)

Lemma rev_two {A} (l : list A) (a b : A) : rev (l ++ [a; b]) = b :: a :: rev l.
Proof. now rewrite rev_app_distr. Qed.

Lemma unlatched_at_final (wo : bool) (es : list event) :
  ends_transfer wo es -> unlatched_tail wo es = true.
Proof.
  intros (es0 & e1 & e2 & -> & H). unfold unlatched_tail. rewrite rev_two.
  destruct wo.
  - destruct H as (us1 & us2 & -> & ->). reflexivity.
  - destruct H as [-> ->]. reflexivity.
Qed.

Lemma unlatched_after_transfer (wo : bool) (es : list event) (us : Z) :
  ends_transfer wo es -> unlatched_tail wo (es ++ [Delay us]) = true.
Proof.
  intros (es0 & e1 & e2 & -> & H). unfold unlatched_tail.
  rewrite rev_app_distr, rev_two. cbn [rev app].
  destruct wo.
  - destruct H as (us1 & us2 & -> & ->). reflexivity.
  - destruct H as [-> ->]. reflexivity.
Qed.

Lemma poll_events_last (d : lcdDriver_t) :
  exists es0, poll_events d = es0 ++ [BusIO true false false 0].
Proof.
  exists (removelast (poll_events d)). unfold poll_events.
  destruct (fourBits d); reflexivity.
Qed.

Lemma byte_events_last (d : lcdDriver_t) (rs : bool) (byte : Z) :
  exists es0, byte_events d rs byte = es0 ++ [Delay (dataHold (busTiming d))].
Proof.
  exists (removelast (byte_events d rs byte)). unfold byte_events, write_cycle.
  destruct (fourBits d); reflexivity.
Qed.

Section Latching.

Variable io : nat -> event -> Z.

(** The poll loop ends at the failure exit or with the closing call right
    after the last read of a poll. *)
Lemma busy_poll_ends (fuel : nat) (d : lcdDriver_t) (w : world)
      (r : Z) (w' : world) :
  clean (trace w) = true ->
  busy_poll io fuel d w = Ret r w' ->
  (drv w' = set_error EIO (drv w) /\ r = -1) \/
  (drv w' = drv w /\
   exists l es0,
     trace w' = l ++ [(BusIO false false false 0, r)] /\
     clean l = true /\ map fst l = es0 ++ [BusIO true false false 0]).
Proof.
  revert w. induction fuel as [| fuel IH]; intros w Hc; [discriminate |].
  cbn [busy_poll]. unfold bind. rewrite poll_once_eq. cbv zeta.
  set (l0 := attempted io (length (trace w)) (poll_events d)).
  destruct (clean l0) eqn:C0.
  - destruct (Z.testbit _ 7).
    + intros E. apply IH in E; [exact E |].
      cbn [trace]. now rewrite clean_app, Hc, C0.
    + unfold lcdBusIO, call. cbn [drv trace]. intros [= <- <-].
      right. split; [reflexivity |].
      destruct (poll_events_last d) as (es0 & Hp).
      exists (trace w ++ l0), (map fst (trace w) ++ es0).
      split; [reflexivity |]. split; [now rewrite clean_app, Hc, C0 |].
      rewrite map_app. unfold l0.
      rewrite (attempted_clean io _ _ C0), respond_events, Hp.
      now rewrite app_assoc.
  - rewrite io_failed_eq. intros [= <- <-]. left. now split.
Qed.

(** A transfer ends at a failure exit, or with its final call right after
    the last delay of the write phase (write-only bus) or the last read of a
    poll (read-capable bus). *)
Lemma transfer_ends (fuel : nat) (rs : bool) (byte : Z) (w : world)
      (r : Z) (w' : world) :
  clean (trace w) = true ->
  transfer io fuel rs byte w = Ret r w' ->
  (drv w' = set_error EIO (drv w) /\ r = -1) \/
  (drv w' = drv w /\
   exists l,
     trace w' = l ++ [(final_call (drv w), r)] /\ clean l = true /\
     ends_transfer (writeOnly (drv w)) (map fst l ++ [final_call (drv w)])).
Proof.
  intros Hc. rewrite transfer_eq. unfold bind. rewrite any_failed_eq.
  set (l1 := attempted io (length (trace w)) (byte_events (drv w) rs byte)).
  destruct (clean l1) eqn:C1; cbn [negb];
    [| rewrite io_failed_eq; intros [= <- <-]; left; now split].
  unfold wait_ready, final_call. cbn [drv trace].
  destruct (writeOnly (drv w)) eqn:Hwo.
  - unfold lcdDelay, call. cbn [drv trace]. intros [= <- <-].
    right. split; [reflexivity |]. exists (trace w ++ l1).
    split; [reflexivity |]. split; [now rewrite clean_app, Hc, C1 |].
    destruct (byte_events_last (drv w) rs byte) as (es0 & Hb).
    exists (map fst (trace w) ++ es0), (Delay (dataHold (busTiming (drv w)))),
      (Delay (busyHoldShort (busTiming (drv w)))).
    split; [| eexists _, _; split; reflexivity].
    rewrite map_app. unfold l1.
    rewrite (attempted_clean io _ _ C1), respond_events, Hb.
    now rewrite <- !app_assoc.
  - unfold bind. rewrite any_failed_eq. cbn [drv trace].
    set (l2 := attempted io _ _).
    destruct (clean l2) eqn:C2; cbn [negb];
      [| rewrite io_failed_eq; intros [= <- <-]; left; now split].
    intros E. apply busy_poll_ends in E;
      [| cbn [trace]; now rewrite !clean_app, Hc, C1, C2].
    cbn [drv] in E.
    destruct E as [[D R] | (D & l & es0 & Ht & Hcl & Hm)];
      [left; now split |].
    right. split; [exact D |]. exists l. split; [exact Ht |].
    split; [exact Hcl |].
    exists es0, (BusIO true false false 0), (BusIO false false false 0).
    split; [| now split]. rewrite Hm. now rewrite <- app_assoc.
Qed.

Lemma sound_keeps_clean {A} (okv : A -> bool) (m : M A) (w : world) :
  sound okv m -> clean (trace w) = true ->
  match m w with
  | Ret a w' => okv a = true -> clean (trace w') = true
  | AssertFail w' => clean (trace w') = true
  | OutOfFuel => True
  end.
Proof.
  intros Hs Hc. specialize (Hs w). destruct (m w) as [a w' | w' |]; auto.
  - destruct Hs as (l & -> & _ & H). intros Ha.
    now rewrite clean_app, Hc, H.
  - destruct Hs as (l & -> & H). now rewrite clean_app, Hc, H.
Qed.

Lemma latches_of_sound {A} (okv : A -> bool) (m : M A) :
  sound okv m ->
  (forall w a w', clean (trace w) = true -> m w = Ret a w' ->
     settled w' /\ writeOnly (drv w') = writeOnly (drv w)) ->
  latches okv m.
Proof.
  intros Hs H w Hc. pose proof (sound_keeps_clean okv m w Hs Hc) as K.
  specialize (H w). destruct (m w) as [a w' | w' |]; auto.
  destruct (H a w' Hc eq_refl) as [S W]. auto.
Qed.

Lemma latches_ret {A} (okv : A -> bool) (a : A) : latches okv (ret a).
Proof. intros w Hc. unfold ret. split; [now left | auto]. Qed.

Lemma latches_bind {A B} (okA : A -> bool) (okB : B -> bool)
      (m : M A) (k : A -> M B) :
  latches okA m ->
  (forall a, okA a = true -> latches okB (k a)) ->
  (forall a, okA a = false -> stops okB (k a)) ->
  latches okB (bind m k).
Proof.
  intros Hm Hk Hs w Hc. unfold bind. specialize (Hm w Hc).
  destruct (m w) as [a w1 | w1 |]; [| exact Hm | exact Logic.I].
  destruct Hm as (S1 & W1 & C1). destruct (okA a) eqn:Ea.
  - specialize (Hk a Ea w1 (C1 eq_refl)).
    destruct (k a w1) as [b w2 | w2 |]; auto.
    destruct Hk as (S2 & W2 & C2). split; [exact S2 |].
    split; [congruence | exact C2].
  - destruct (Hs a Ea w1) as (b & -> & Hb). split; [exact S1 |].
    split; [exact W1 |]. intros Hb'. congruence.
Qed.

Lemma latches_bind_always {A B} (okB : B -> bool) (m : M A) (k : A -> M B) :
  latches always m -> (forall a, latches okB (k a)) -> latches okB (bind m k).
Proof.
  intros Hm Hk. apply (latches_bind always); [exact Hm | auto |].
  intros a Ha; discriminate.
Qed.

Lemma latches_get_driver : latches always get_driver.
Proof. intros w Hc. cbn. split; [now left | auto]. Qed.

Lemma latches_modify_driver (f : lcdDriver_t -> lcdDriver_t) :
  (forall d, writeOnly (f d) = writeOnly d) -> latches always (modify_driver f).
Proof. intros Hf w Hc. cbn. split; [now left | auto]. Qed.

Lemma latches_c_assert (b : bool) : latches always (c_assert b).
Proof.
  intros w Hc. unfold c_assert. destruct b; [| exact Hc].
  split; [now left | auto].
Qed.

Lemma stops_ret {A} (okv : A -> bool) (a : A) :
  okv a = false -> stops okv (ret a).
Proof. intros H w. now exists a. Qed.

(** A chain of calls followed by the failure exit. *)
Lemma latches_chain (es : list event) (go : M Z) :
  latches zero go ->
  latches zero (f <- any_failed io es ;; if f then io_failed else go).
Proof.
  intros Hg w Hc. unfold bind. rewrite any_failed_eq.
  set (l := attempted io (length (trace w)) es).
  destruct (clean l) eqn:C; cbn [negb].
  - apply (Hg (mkWorld (drv w) (trace w ++ l))).
    cbn [trace]. now rewrite clean_app, Hc, C.
  - rewrite io_failed_eq. cbn [drv]. split; [right; now left |].
    split; [reflexivity | discriminate].
Qed.

Lemma latches_transfer (fuel : nat) (rs : bool) (byte : Z) :
  latches zero (transfer io fuel rs byte).
Proof.
  apply latches_of_sound; [apply sound_transfer |].
  intros w r w' Hc E.
  destruct (transfer_ends fuel rs byte w r w' Hc E)
    as [[D R] | (D & l & Ht & Hcl & He)].
  - unfold settled. rewrite D. split; [right; now left | reflexivity].
  - unfold settled. rewrite D. split; [| reflexivity].
    destruct (call_failed (final_call (drv w), r)) eqn:F.
    + right; right. unfold events. rewrite Ht, map_app.
      now apply unlatched_at_final.
    + left. rewrite Ht, clean_app, Hcl.
      cbn [clean forallb]. now rewrite F.
Qed.

Lemma latches_lcdCommand (fuel : nat) (command : Z) :
  latches zero (lcdCommand io fuel command).
Proof. apply latches_transfer. Qed.

Lemma latches_lcdWrite (fuel : nat) (data : Z) :
  latches zero (lcdWrite io fuel data).
Proof. apply latches_transfer. Qed.

Lemma latches_test (m : M Z) : latches zero m -> latches negb (test m).
Proof.
  intros Hm w Hc. rewrite test_result. specialize (Hm w Hc).
  destruct (m w) as [r w1 | w1 |]; auto.
  destruct Hm as (S & W & C). split; [exact S |]. split; [exact W |].
  intros H. apply C. unfold truthy in H. now rewrite negb_involutive in H.
Qed.

Lemma latches_c_or (a b : M bool) :
  latches negb a -> latches negb b -> latches negb (c_or a b).
Proof.
  intros Ha Hb. unfold c_or. apply (latches_bind negb); [exact Ha | |].
  - intros [|] H; [discriminate | exact Hb].
  - intros [|] H; [now apply stops_ret | discriminate].
Qed.

Lemma latches_if_failed {B} (okB : B -> bool) (m : M bool) (stop go : M B) :
  latches negb m -> stops okB stop -> latches okB go ->
  latches okB (f <- m ;; if f then stop else go).
Proof.
  intros Hm Hs Hg. apply (latches_bind negb); [exact Hm | |].
  - intros [|] H; [discriminate | exact Hg].
  - intros [|] H; [exact Hs | discriminate].
Qed.

Lemma latches_if_truthy (m : M Z) (go : M Z) :
  latches zero m -> latches zero go ->
  latches zero (r <- m ;; if truthy r then ret (-1) else go).
Proof.
  intros Hm Hg. apply (latches_bind zero); [exact Hm | |]; intros r H;
    unfold truthy; unfold zero in H; rewrite H; simpl;
    [exact Hg | now apply stops_ret].
Qed.

(** A command followed by the hold delay its caller adds. *)
Lemma latches_command_then_delay (fuel : nat) (c us : Z) :
  latches negb (c_or (test (lcdCommand io fuel c)) (test (lcdDelay io us))).
Proof.
  apply latches_of_sound.
  { apply sound_c_or; apply sound_test;
      [apply sound_lcdCommand | apply sound_lcdDelay_zero]. }
  intros w b w' Hc. unfold c_or, bind. rewrite test_result.
  unfold lcdCommand.
  pose proof (latches_transfer fuel false (to_uint8 c) w Hc) as L.
  destruct (transfer io fuel false (to_uint8 c) w) as [r w1 | w1 |] eqn:E;
    try discriminate.
  destruct L as (S1 & W1 & C1). unfold truthy at 1.
  destruct (Z.eqb_spec r 0) as [-> | Hr]; cbn [negb].
  - rewrite test_result. unfold lcdDelay, call. intros [= _ <-].
    cbn [drv trace]. split; [| exact W1].
    destruct (transfer_ends fuel false (to_uint8 c) w 0 w1 Hc E)
      as [[_ R] | (D & l & Ht & Hcl & He)]; [discriminate |].
    set (r' := io (length (trace w1)) (Delay us)).
    destruct (call_failed (Delay us, r')) eqn:F.
    + right; right. unfold events. cbn [drv trace].
      rewrite map_app. cbn [map fst]. rewrite D.
      apply unlatched_after_transfer.
      rewrite Ht, map_app. exact He.
    + left. cbn [trace]. rewrite clean_app, (C1 eq_refl).
      cbn [clean forallb]. now rewrite F.
  - unfold ret. intros [= _ <-]. now split.
Qed.

Lemma latches_lcdInit4Bit (fuel : nat) : latches zero (lcdInit4Bit io fuel).
Proof.
  unfold lcdInit4Bit. apply latches_bind_always; [apply latches_get_driver |].
  intros d. apply latches_chain, latches_chain, latches_lcdCommand.
Qed.

Lemma latches_guarded_update (fuel : nat) (c us : Z) f :
  (forall d, writeOnly (f d) = writeOnly d) ->
  latches zero
    (b <- c_or (test (lcdCommand io fuel c)) (test (lcdDelay io us)) ;;
     if b then ret (-1) else modify_driver f ;;; ret 0).
Proof.
  intros Hf. apply latches_if_failed.
  - apply latches_command_then_delay.
  - now apply stops_ret.
  - apply latches_bind_always; [now apply latches_modify_driver |].
    intros _; apply latches_ret.
Qed.

Lemma latches_lcdClear (fuel : nat) : latches zero (lcdClear io fuel).
Proof.
  unfold lcdClear. apply latches_bind_always; [apply latches_get_driver |].
  intros d. now apply latches_guarded_update.
Qed.

Lemma latches_lcdHome (fuel : nat) : latches zero (lcdHome io fuel).
Proof.
  unfold lcdHome. apply latches_bind_always; [apply latches_get_driver |].
  intros d. now apply latches_guarded_update.
Qed.

Lemma latches_lcdDirection (fuel : nat) (forward : bool) :
  latches zero (lcdDirection io fuel forward).
Proof.
  unfold lcdDirection. apply latches_bind_always; [apply latches_get_driver |].
  intros d. now apply latches_guarded_update.
Qed.

Lemma latches_lcdInit (fuel : nat) : latches zero (lcdInit io fuel).
Proof.
  unfold lcdInit.
  apply latches_bind_always; [now apply latches_modify_driver |].
  intros _. apply latches_bind_always; [apply latches_get_driver |]. intros d.
  apply latches_if_failed; [| now apply stops_ret |].
  - destruct (fourBits d); [| apply latches_ret].
    apply latches_c_or; [apply latches_test, latches_lcdInit4Bit |].
    apply latches_command_then_delay.
  - apply latches_bind_always; [apply latches_c_assert |].
    intros _. apply latches_lcdClear.
Qed.

Lemma writeOnly_lcdUpdateCursor (d : lcdDriver_t) :
  writeOnly (lcdUpdateCursor d) = writeOnly d.
Proof.
  unfold lcdUpdateCursor.
  repeat match goal with |- context [if ?b then _ else _] => destruct b end;
    reflexivity.
Qed.

Lemma latches_cmd_cursor_address : latches always cmd_cursor_address.
Proof.
  unfold cmd_cursor_address.
  apply latches_bind_always; [apply latches_get_driver |].
  intros d; apply latches_ret.
Qed.

Lemma latches_lcdNext (fuel : nat) : latches zero (lcdNext io fuel).
Proof.
  unfold lcdNext.
  apply latches_bind_always;
    [apply latches_modify_driver, writeOnly_lcdUpdateCursor |]. intros _.
  apply latches_bind_always; [apply latches_cmd_cursor_address |].
  intros c. apply latches_if_truthy; [apply latches_lcdCommand | apply latches_ret].
Qed.

Lemma latches_lcdSetCursor (fuel : nat) (column row : Z) :
  latches zero (lcdSetCursor io fuel column row).
Proof.
  unfold lcdSetCursor.
  apply latches_bind_always; [apply latches_get_driver |]. intros d.
  apply latches_bind_always; [apply latches_c_assert |]. intros _.
  apply latches_bind_always; [apply latches_c_assert |]. intros _.
  apply latches_bind_always; [now apply latches_modify_driver |]. intros _.
  apply latches_bind_always; [apply latches_get_driver |]. intros d'.
  apply latches_lcdCommand.
Qed.

Lemma latches_write_bytes (fuel : nat) (bytes : list Z) :
  latches zero (write_bytes io fuel bytes).
Proof.
  induction bytes as [| b bytes IH]; [apply latches_ret |].
  cbn [write_bytes]. apply latches_if_truthy; [apply latches_lcdWrite | exact IH].
Qed.

Lemma latches_lcdStoreGlyph (fuel : nat) (which : Z) (bits : list Z) :
  latches zero (lcdStoreGlyph io fuel which bits).
Proof.
  unfold lcdStoreGlyph.
  apply latches_bind_always; [apply latches_get_driver |]. intros d.
  apply latches_bind_always; [apply latches_c_assert |]. intros _.
  apply latches_if_truthy; [apply latches_lcdCommand | apply latches_write_bytes].
Qed.

Lemma latches_lcdPutChar (fuel : nat) (chr : Z) :
  latches zero (lcdPutChar io fuel chr).
Proof.
  unfold lcdPutChar.
  apply latches_bind_always; [apply latches_cmd_cursor_address |]. intros c.
  apply latches_if_failed; [| now apply stops_ret |].
  - apply latches_c_or; apply latches_test;
      [apply latches_lcdCommand | apply latches_lcdWrite].
  - apply latches_bind_always;
      [apply latches_modify_driver, writeOnly_lcdUpdateCursor |]. intros _.
    apply latches_bind_always; [apply latches_cmd_cursor_address |]. intros c'.
    apply latches_lcdCommand.
Qed.

Lemma latches_put_chars (fuel : nat) (str : list Z) (address : Z) :
  latches zero (put_chars io fuel str address).
Proof.
  revert address. induction str as [| c str IH]; intros address.
  - apply latches_lcdCommand.
  - cbn [put_chars]. apply latches_if_truthy; [apply latches_lcdWrite |].
    apply latches_bind_always;
      [apply latches_modify_driver, writeOnly_lcdUpdateCursor |]. intros _.
    apply latches_bind_always; [apply latches_get_driver |]. intros d.
    apply latches_if_failed; [| now apply stops_ret | apply IH].
    destruct (negb _); [apply latches_test, latches_lcdCommand | apply latches_ret].
Qed.

Lemma latches_lcdPutString (fuel : nat) (str : list Z) :
  latches zero (lcdPutString io fuel str).
Proof.
  unfold lcdPutString.
  apply latches_bind_always; [apply latches_get_driver |]. intros d.
  apply latches_if_truthy; [apply latches_lcdCommand | apply latches_put_chars].
Qed.

Lemma latches_run (fuel : nat) (op : operation) : latches zero (run io fuel op).
Proof.
  destruct op; cbn [run].
  - apply latches_lcdCommand.
  - apply latches_lcdWrite.
  - apply latches_lcdInit.
  - apply latches_lcdClear.
  - apply latches_lcdHome.
  - apply latches_lcdDirection.
  - apply latches_lcdNext.
  - apply latches_lcdCommand.
  - apply latches_lcdSetCursor.
  - apply latches_lcdStoreGlyph.
  - apply latches_lcdPutChar.
  - apply latches_lcdPutString.
Qed.

(** Every failing call of every operation latches [EIO], the unlatched
    tails apart. *)
Lemma run_latches (fuel : nat) (op : operation) (d : lcdDriver_t) (w' : world) :
  final_world (run io fuel op (start d)) = Some w' ->
  clean (trace w') = false ->
  unlatched_tail (writeOnly d) (events w') = false ->
  error (drv w') = EIO.
Proof.
  intros E Hc Hu. pose proof (latches_run fuel op (start d) eq_refl) as L.
  destruct (run io fuel op (start d)) as [r w1 | w1 |]; [| | discriminate];
    injection E as ->.
  - destruct L as ([C | [Ee | U]] & W & _); [congruence | exact Ee |].
    cbn [start drv] in W. rewrite W in U. congruence.
  - congruence.
Qed.

End Latching.

(** On whole runs the calls picked out by [unlatched_tail] are exactly those
    after whose failure [error] is not [EIO]: failing each call in turn of
    an initialisation (63 calls on the write-only bus, 96 on the
    read-capable one) and of a two-character string write across a row end
    (65 and 120 calls), these are the last call of each command or data
    transfer and the hold delays of [lcdInit] and [lcdClear].  The low
    nibble of the command 0x20 of the initialisation is put on the bus by
    [lcdBusIO(0,0,0,0)], the same call as the closing one; a failure there
    is latched and is not taken for a tail. *)
Lemma unlatched_calls_of_sample_runs :
  filter (unlatched_at OpInit 1 (sample_driver 16 2 true)) (seq 0 63) =
    [34; 47; 48; 61; 62]%nat /\
  filter (error_unset_at OpInit 1 (sample_driver 16 2 true)) (seq 0 63) =
    [34; 47; 48; 61; 62]%nat /\
  filter (unlatched_at OpInit 1 (sample_driver 16 2 false)) (seq 0 96) =
    [45; 69; 70; 94; 95]%nat /\
  filter (error_unset_at OpInit 1 (sample_driver 16 2 false)) (seq 0 96) =
    [45; 69; 70; 94; 95]%nat /\
  filter (unlatched_at (OpPutString [72; 105]) 1
            (at_position (sample_driver 16 2 true) 15 0)) (seq 0 65) =
    [12; 25; 38; 51; 64]%nat /\
  filter (error_unset_at (OpPutString [72; 105]) 1
            (at_position (sample_driver 16 2 true) 15 0)) (seq 0 65) =
    [12; 25; 38; 51; 64]%nat /\
  filter (unlatched_at (OpPutString [72; 105]) 1
            (at_position (sample_driver 16 2 false) 15 0)) (seq 0 120) =
    [23; 47; 71; 95; 119]%nat /\
  filter (error_unset_at (OpPutString [72; 105]) 1
            (at_position (sample_driver 16 2 false) 15 0)) (seq 0 120) =
    [23; 47; 71; 95; 119]%nat.
Proof. vm_compute. repeat split. Qed.

(** ** What a string write has sent when it stops *)

Lemma strobes_firstn (m : nat) (es : list event) :
  exists n, strobes (firstn m es) = firstn n (strobes es).
Proof.
  exists (length (strobes (firstn m es))).
  replace (strobes es) with (strobes (firstn m es) ++ strobes (skipn m es))
    by (now rewrite <- strobes_app, firstn_skipn).
  rewrite firstn_app, firstn_all, Nat.sub_diag, firstn_O.
  now rewrite app_nil_r.
Qed.

Lemma data_strobes_app (l1 l2 : list event) :
  data_strobes (l1 ++ l2) = data_strobes l1 ++ data_strobes l2.
Proof. unfold data_strobes. now rewrite strobes_app, filter_app. Qed.

Lemma filter_command_nibbles (d : lcdDriver_t) (b : Z) (n : nat) :
  filter fst (firstn n (nibbles d false b)) = [].
Proof.
  unfold nibbles. destruct (fourBits d); destruct n as [| [| [| n]]];
    reflexivity.
Qed.

Lemma filter_data_nibbles (d : lcdDriver_t) (b : Z) (n : nat) :
  filter fst (firstn n (nibbles d true b)) = firstn n (nibbles d true b).
Proof.
  unfold nibbles. destruct (fourBits d); destruct n as [| [| [| n]]];
    reflexivity.
Qed.

Lemma string_strobes_ext (d1 d2 : lcdDriver_t) (str : list Z) :
  fourBits d1 = fourBits d2 -> string_strobes d1 str = string_strobes d2 str.
Proof.
  intros H. unfold string_strobes. apply flat_map_ext. intros c.
  unfold nibbles. now rewrite H.
Qed.

Section Written.

Variable io : nat -> event -> Z.

(** However a transfer ends, it has strobed a prefix of its nibbles. *)
Lemma transfer_partial_strobes (fuel : nat) (rs : bool) (byte : Z)
      (w : world) (r : Z) (w' : world) :
  transfer io fuel rs byte w = Ret r w' ->
  exists n,
    strobes (events w') =
    strobes (events w) ++ firstn n (nibbles (drv w) rs byte).
Proof.
  rewrite transfer_eq. unfold bind. rewrite any_failed_eq.
  set (l1 := attempted io (length (trace w)) (byte_events (drv w) rs byte)).
  assert (H1 : exists n, strobes (map fst l1) =
                         firstn n (nibbles (drv w) rs byte)).
  { unfold l1. rewrite attempted_events_prefix, <- strobes_byte_events.
    apply strobes_firstn. }
  destruct H1 as (n & H1). exists n.
  destruct (negb (clean l1)).
  - rewrite io_failed_eq in H. injection H as _ <-.
    unfold events. cbn [trace]. now rewrite map_app, strobes_app, H1.
  - pose proof (keeps_silent_wait_ready io fuel (drv w)
                  (mkWorld (drv w) (trace w ++ l1)) Logic.I) as K.
    rewrite H in K. cbn [final_world trace] in K.
    destruct K as (_ & l & Hl & Hs).
    unfold events. rewrite Hl, !map_app, !strobes_app, H1.
    now rewrite (strobes_silent l Hs), app_nil_r.
Qed.

Lemma lcdCommand_no_data (fuel : nat) (c : Z) (w : world) (r : Z) (w' : world) :
  lcdCommand io fuel c w = Ret r w' ->
  data_strobes (events w') = data_strobes (events w).
Proof.
  intros E. apply transfer_partial_strobes in E as (n & E).
  unfold data_strobes. rewrite E, filter_app, filter_command_nibbles.
  apply app_nil_r.
Qed.

Lemma lcdWrite_data (fuel : nat) (v : Z) (w : world) (r : Z) (w' : world) :
  lcdWrite io fuel v w = Ret r w' ->
  exists n,
    data_strobes (events w') =
    data_strobes (events w) ++ firstn n (nibbles (drv w) true (to_uint8 v)) /\
    (r = 0 -> firstn n (nibbles (drv w) true (to_uint8 v)) =
              nibbles (drv w) true (to_uint8 v)).
Proof.
  intros E. destruct (transfer_partial_strobes _ _ _ _ _ _ E) as (n & Hn).
  exists n. split.
  - unfold data_strobes. now rewrite Hn, filter_app, filter_data_nibbles.
  - intros ->. apply lcdWrite_strobes in E as (_ & S). rewrite S in Hn.
    apply app_inv_head in Hn. now symmetry.
Qed.

(** After [put_chars] the cursor has been advanced [j] times, the first [j]
    characters have been strobed in full and in order, and of the others at
    most a prefix of the strobes of the next one. *)
Lemma put_chars_written (fuel : nat) (str : list Z) (address : Z) (w : world) :
  match put_chars io fuel str address w with
  | Ret r w' =>
      exists j n, (j <= length str)%nat /\
        cursor (drv w') = cursor (Nat.iter j lcdUpdateCursor (drv w)) /\
        data_strobes (events w') =
        data_strobes (events w) ++
        string_strobes (drv w) (firstn j str) ++
        firstn n (string_strobes (drv w) (firstn 1 (skipn j str))) /\
        (r = 0 -> j = length str)
  | AssertFail _ => False
  | OutOfFuel => True
  end.
Proof.
  revert address w. induction str as [| c str IH]; intros address w.
  - cbn [put_chars].
    pose proof (transfer_driver io fuel false
                  (to_uint8 (LCD_CMD_DADDR address)) w) as T.
    destruct (lcdCommand io fuel (LCD_CMD_DADDR address) w)
      as [r w' | w' |] eqn:E; unfold lcdCommand in E; rewrite E in T; auto.
    exists 0%nat, 0%nat. split; [reflexivity |]. split; [| split].
    + destruct T as ([-> | [-> _]] & _); reflexivity.
    + rewrite (lcdCommand_no_data fuel _ w r w' E). cbn.
      now rewrite app_nil_r.
    + reflexivity.
  - cbn [put_chars]. unfold bind at 1.
    pose proof (transfer_driver io fuel true (to_uint8 c) w) as T.
    destruct (lcdWrite io fuel c w) as [r w1 | w1 |] eqn:E1;
      unfold lcdWrite in E1; rewrite E1 in T; auto.
    destruct T as (Hd & H0 & _).
    destruct (lcdWrite_data fuel c w r w1 E1) as (n1 & S1 & F1).
    unfold truthy.
    destruct (Z.eqb_spec r 0) as [-> | Hr]; cbn [negb].
    + specialize (H0 eq_refl). rewrite (F1 eq_refl) in S1.
      unfold bind at 1. cbn [modify_driver]. unfold bind at 1.
      cbn [get_driver drv trace]. rewrite H0.
      set (w2 := mkWorld (lcdUpdateCursor (drv w)) (trace w1)).
      set (newaddr := to_uint8 (LCD_DECODE_CURSOR (lcdUpdateCursor (drv w)))).
      assert (Hnext : forall w3,
                drv w3 = lcdUpdateCursor (drv w) ->
                data_strobes (events w3) = data_strobes (events w1) ->
                match put_chars io fuel str newaddr w3 with
                | Ret r w' =>
                    exists j n, (j <= length (c :: str))%nat /\
                      cursor (drv w') =
                      cursor (Nat.iter j lcdUpdateCursor (drv w)) /\
                      data_strobes (events w') =
                      data_strobes (events w) ++
                      string_strobes (drv w) (firstn j (c :: str)) ++
                      firstn n (string_strobes (drv w)
                                  (firstn 1 (skipn j (c :: str)))) /\
                      (r = 0 -> j = length (c :: str))
                | AssertFail _ => False
                | OutOfFuel => True
                end).
      { intros w3 H3 S3. specialize (IH newaddr w3).
        destruct (put_chars io fuel str newaddr w3) as [r w' | w' |]; auto.
        destruct IH as (j & n & Hj & Hc & Hs & Hz). exists (S j), n.
        split; [cbn [length]; lia |]. rewrite Nat.iter_succ_r, <- H3.
        split; [exact Hc |]. split; [| intros Hr; cbn [length]; now rewrite Hz].
        rewrite Hs, S3, S1. cbn [firstn skipn].
        rewrite !(string_strobes_ext (drv w3) (drv w))
          by (rewrite H3; apply fourBits_lcdUpdateCursor).
        unfold string_strobes at 3. cbn [flat_map].
        fold (string_strobes (drv w) (firstn j str)).
        now rewrite <- !app_assoc. }
      unfold bind. destruct (negb (newaddr =? address + 1)).
      * rewrite test_result.
        pose proof (transfer_driver io fuel false
                      (to_uint8 (LCD_CMD_DADDR address)) w2) as T2.
        destruct (lcdCommand io fuel (LCD_CMD_DADDR address) w2)
          as [r2 w3 | w3 |] eqn:E2; unfold lcdCommand in E2; rewrite E2 in T2;
          auto.
        destruct T2 as (Hd2 & H02 & _).
        pose proof (lcdCommand_no_data fuel _ w2 r2 w3 E2) as S2.
        unfold ret, truthy.
        destruct (Z.eqb_spec r2 0) as [-> | Hr2]; cbn [negb].
        -- apply Hnext; [now rewrite H02 | exact S2].
        -- exists 1%nat, 0%nat. split; [cbn [length]; lia |].
           split; [destruct Hd2 as [-> | [-> _]]; reflexivity |].
           split; [| discriminate].
           rewrite S2. change (events w2) with (events w1). rewrite S1.
           cbn [firstn]. unfold string_strobes at 1. cbn [flat_map].
           now rewrite !app_nil_r.
      * unfold ret. now apply Hnext.
    + unfold ret. exists 0%nat, n1. split; [cbn [length]; lia |].
      split; [destruct Hd as [-> | [-> _]]; reflexivity |].
      split; [| discriminate].
      rewrite S1. cbn [firstn skipn]. unfold string_strobes. cbn [flat_map].
      now rewrite app_nil_r.
Qed.

Lemma lcdPutString_written (fuel : nat) (str : list Z) (w : world)
      (r : Z) (w' : world) :
  lcdPutString io fuel str w = Ret r w' ->
  exists j n, (j <= length str)%nat /\
    cursor (drv w') = cursor (Nat.iter j lcdUpdateCursor (drv w)) /\
    data_strobes (events w') =
    data_strobes (events w) ++
    string_strobes (drv w) (firstn j str) ++
    firstn n (string_strobes (drv w) (firstn 1 (skipn j str))) /\
    (r = 0 -> j = length str).
Proof.
  unfold lcdPutString, bind, get_driver.
  set (c := LCD_CMD_DADDR _).
  pose proof (transfer_driver io fuel false (to_uint8 c) w) as T.
  destruct (lcdCommand io fuel c w) as [r1 w1 | w1 |] eqn:E1;
    unfold lcdCommand in E1; rewrite E1 in T; [| contradiction | discriminate].
  destruct T as (Hd & H0 & _).
  pose proof (lcdCommand_no_data fuel c w r1 w1 E1) as S1.
  unfold truthy.
  destruct (Z.eqb_spec r1 0) as [-> | Hr1]; cbn [negb].
  - specialize (H0 eq_refl). intros E.
    pose proof (put_chars_written fuel str
                  (to_uint8 (LCD_DECODE_CURSOR (drv w))) w1) as P.
    rewrite E in P. now rewrite H0, S1 in P.
  - unfold ret. intros [= <- <-]. exists 0%nat, 0%nat.
    split; [lia |]. split; [destruct Hd as [-> | [-> _]]; reflexivity |].
    split; [| discriminate].
    rewrite S1. cbn [firstn]. unfold string_strobes at 1. cbn [flat_map].
    now rewrite !app_nil_r.
Qed.

(** [lcdSetCursor] latches as the [lcdCommand] it ends with. *)
Lemma lcdSetCursor_latches (fuel : nat) (col row : Z) (w : world)
      (r : Z) (w' : world) (l : list (event * Z)) (k : nat) (c : event * Z) :
  lcdSetCursor io fuel col row w = Ret r w' ->
  trace w' = trace w ++ l ->
  nth_error l k = Some c -> call_failed c = true ->
  (k < (if fourBits (drv w) then 12 else 6))%nat \/
  (writeOnly (drv w) = false /\ fst c <> BusIO false false false 0) ->
  error (drv w') = EIO /\ r = -1.
Proof.
  unfold lcdSetCursor, bind, get_driver, c_assert.
  destruct (width (dimensions (drv w)) >? col); [| discriminate].
  destruct (height (dimensions (drv w)) >? row); [| discriminate].
  cbn [modify_driver drv trace]. unfold lcdCommand.
  intros E Hl Hk Hf Hpos.
  apply (transfer_latches io fuel _ _ _ r w' l k c E); auto.
  cbn [drv]. now rewrite byte_events_length.
Qed.

End Written.

(** ** Failures during the reset pulses *)

Section InitPulses.
Variable io : nat -> event -> Z.

Lemma sound_grows {A} (okv : A -> bool) (m : M A) (w w' : world) :
  sound okv m -> final_world (m w) = Some w' ->
  exists l, trace w' = trace w ++ l.
Proof.
  intros Hs E. specialize (Hs w).
  destruct (m w) as [a w1 | w1 |]; [| | discriminate]; injection E as ->.
  - destruct Hs as (l & Hl & _). now exists l.
  - destruct Hs as (l & Hl & _). now exists l.
Qed.

(** The reset pulses and the 4-bit request are one chain of 22 calls with
    one failure exit. *)
Lemma lcdInit4Bit_pulses (fuel : nat) (w : world) (r : Z) (w1 : world) :
  lcdInit4Bit io fuel w = Ret r w1 ->
  let l := attempted io (length (trace w))
             (reset_pulses (drv w) ++ four_bit_request (drv w)) in
  (clean l = false /\ r = -1 /\ error (drv w1) = EIO) \/
  (clean l = true /\ exists l3, trace w1 = trace w ++ l ++ l3).
Proof.
  cbv zeta. unfold lcdInit4Bit. unfold bind at 1 2. cbn [get_driver].
  fold (reset_pulses (drv w)). rewrite any_failed_eq, attempted_app.
  set (l1 := attempted io (length (trace w)) (reset_pulses (drv w))).
  destruct (clean l1) eqn:C1; cbn [negb];
    [| rewrite io_failed_eq; intros [= <- <-]; left; now rewrite C1].
  unfold bind at 1. fold (four_bit_request (drv w)).
  rewrite any_failed_eq. cbn [drv trace].
  rewrite length_app. unfold l1 at 1 3.
  rewrite (attempted_length_clean io _ _ C1). fold l1.
  set (l2 := attempted io _ (four_bit_request (drv w))).
  rewrite clean_app, C1. cbn [andb].
  destruct (clean l2) eqn:C2; cbn [negb];
    [| rewrite io_failed_eq; intros [= <- <-]; left; auto].
  intros E. right. split; [reflexivity |].
  apply (f_equal final_world) in E. cbn [final_world] in E.
  apply (sound_grows zero) in E; [| apply sound_lcdCommand].
  destruct E as (l3 & E). exists l3. cbn [trace] in E.
  now rewrite E, <- !app_assoc.
Qed.

Lemma lcdInit_pulses_latch (fuel : nat) (w : world) (r : Z) (w' : world)
      (l : list (event * Z)) (k : nat) (c : event * Z) :
  lcdInit io fuel w = Ret r w' ->
  trace w' = trace w ++ l ->
  nth_error l k = Some c -> call_failed c = true -> (k < 22)%nat ->
  error (drv w') = EIO /\ r = -1.
Proof.
  rewrite lcdInit_steps. cbv zeta.
  destruct (fourBits (drv w)); [| discriminate].
  set (w0 := mkWorld _ (trace w)).
  unfold c_or at 1. unfold bind at 1. rewrite test_result.
  destruct (lcdInit4Bit io fuel w0) as [r1 w1 | w1 |] eqn:E1;
    try discriminate.
  pose proof (lcdInit4Bit_pulses fuel w0 r1 w1 E1) as P. cbv zeta in P.
  cbn [trace w0] in P. set (l0 := attempted io _ _) in P.
  destruct P as [(C & -> & He) | (C & l3 & Ht)].
  - cbn. intros [= <- <-]. auto.
  - intros E Hl Hk Hf Hlt. exfalso.
    assert (G : exists l4, trace w' = trace w1 ++ l4).
    { destruct (truthy r1).
      - unfold ret in E. injection E as _ <-. exists []. now rewrite app_nil_r.
      - destruct (c_or _ _ w1) as [[|] w2 | w2 |] eqn:E2; try discriminate.
        + injection E as _ <-.
          apply (f_equal final_world) in E2. cbn [final_world] in E2.
          apply (sound_grows negb) in E2; [exact E2 |].
          apply sound_c_or; apply sound_test;
            [apply sound_lcdCommand | apply sound_lcdDelay_zero].
        + apply (f_equal final_world) in E2. cbn [final_world] in E2.
          apply (sound_grows negb) in E2;
            [| apply sound_c_or; apply sound_test;
               [apply sound_lcdCommand | apply sound_lcdDelay_zero]].
          apply (f_equal final_world) in E. cbn [final_world] in E.
          apply (sound_grows zero) in E; [| apply sound_lcdClear].
          destruct E2 as (la & Ea), E as (lb & Eb). exists (la ++ lb).
          now rewrite Eb, Ea, app_assoc. }
    destruct G as (l4 & G). rewrite G, Ht, <- !app_assoc in Hl.
    apply app_inv_head in Hl. subst l.
    assert (Hlen : length l0 = 22%nat).
    { unfold l0. rewrite (attempted_length_clean io _ _ C). reflexivity. }
    rewrite nth_error_app1 in Hk by lia.
    apply nth_error_In in Hk. unfold clean in C.
    rewrite forallb_forall in C. specialize (C c Hk).
    rewrite Hf in C. discriminate.
Qed.
End InitPulses.

(** C3, amended.  (1) For every operation no collaborator call follows a
    failing one, and an operation that returns 0 saw none.  (2) For every
    operation, started on an idle bus, a failing call leaves [error = EIO]
    unless it is one of the calls whose result the source hands on as it is:
    the last call of [lcdCommand] / [lcdWrite] (the write-only hold delay,
    the closing [lcdBusIO(0,0,0,0)] after the poll) or the hold delay added
    after a command; these are told from all other calls by what precedes
    them ([unlatched_tail]), and about them nothing is stated.
    (3) [lcdCommand] and [lcdWrite] never change the cursor; they and
    [lcdSetCursor] return [-1] with [error = EIO] when the failing call lies
    in the write phase (the first 6 calls, 12 in 4-bit mode) or, on a
    read-capable bus, is any call other than the closing
    [lcdBusIO(0,0,0,0)]; [lcdInit] returns [-1] with [error = EIO] when the
    failing call is one of the 22 calls of the reset pulses and the 4-bit
    request.  (4) [lcdSetCursor] with a position inside the display stores
    that position before its first call, and [lcdInit] stores (0,0),
    whatever happens on the bus.  (5) When [lcdPutString] returns, the
    cursor has been advanced [j] times, where the first [j] characters have
    been strobed as data in full and in order, followed by at most a prefix
    of the strobes of the next character and by no other data; [j] is the
    length of the string when it returns 0. *)
Theorem fail_fast (io : nat -> event -> Z) (fuel : nat) :
  (forall op w w',
      final_world (run io fuel op w) = Some w' ->
      exists l, trace w' = trace w ++ l /\
        (forall k c, nth_error l k = Some c -> call_failed c = true ->
                     length l = S k) /\
        (run io fuel op w = Ret 0 w' -> clean l = true)) /\
  (forall op d w',
      final_world (run io fuel op (start d)) = Some w' ->
      clean (trace w') = false ->
      unlatched_tail (writeOnly d) (events w') = false ->
      error (drv w') = EIO) /\
  (forall op byte w r w',
      op = OpCommand byte \/ op = OpWrite byte ->
      run io fuel op w = Ret r w' ->
      cursor (drv w') = cursor (drv w)) /\
  (forall op byte col row w r w',
      op = OpCommand byte \/ op = OpWrite byte \/ op = OpSetCursor col row ->
      run io fuel op w = Ret r w' ->
      forall l k c,
        trace w' = trace w ++ l ->
        nth_error l k = Some c -> call_failed c = true ->
        (k < (if fourBits (drv w) then 12 else 6))%nat \/
        (writeOnly (drv w) = false /\ fst c <> BusIO false false false 0) ->
        error (drv w') = EIO /\ r = -1) /\
  (forall w r w' l k c,
      run io fuel OpInit w = Ret r w' ->
      trace w' = trace w ++ l ->
      nth_error l k = Some c -> call_failed c = true -> (k < 22)%nat ->
      error (drv w') = EIO /\ r = -1) /\
  (forall col row w w',
      (width (dimensions (drv w)) >? col) = true ->
      (height (dimensions (drv w)) >? row) = true ->
      final_world (run io fuel (OpSetCursor col row) w) = Some w' ->
      cursor (drv w') = mkCursor (to_int8 col) (to_int8 row)) /\
  (forall w w',
      final_world (run io fuel OpInit w) = Some w' ->
      cursor (drv w') = mkCursor 0 0) /\
  (forall str d r w',
      run io fuel (OpPutString str) (start d) = Ret r w' ->
      exists j n,
        (j <= length str)%nat /\
        cursor (drv w') = cursor (Nat.iter j lcdUpdateCursor d) /\
        data_strobes (events w') =
        string_strobes d (firstn j str) ++
        firstn n (string_strobes d (firstn 1 (skipn j str))) /\
        (r = 0 -> j = length str)).
Proof.
  split; [intros op w w'; apply run_aborts |].
  split; [intros op d w'; apply run_latches |].
  split; [| split; [| split; [| split; [| split]]]].
  - intros op byte w r w' [-> | ->]; cbn [run];
      unfold lcdCommand, lcdWrite; intros E;
      [pose proof (transfer_driver io fuel false (to_uint8 byte) w) as D
      | pose proof (transfer_driver io fuel true (to_uint8 byte) w) as D];
      rewrite E in D; destruct D as ([-> | [-> _]] & _); reflexivity.
  - intros op byte col row w r w' [-> | [-> | ->]]; cbn [run]; intros E l k c
      Hl Hk Hf Hpos.
    + apply (transfer_latches io fuel _ _ w r w' l k c E); auto.
      now rewrite byte_events_length.
    + apply (transfer_latches io fuel _ _ w r w' l k c E); auto.
      now rewrite byte_events_length.
    + now apply (lcdSetCursor_latches io fuel col row w r w' l k c).
  - intros w r w' l k c. cbn [run]. apply lcdInit_pulses_latch.
  - intros col row w w'. cbn [run]. apply lcdSetCursor_cursor.
  - intros w w'. cbn [run]. apply lcdInit_cursor.
  - intros str d r w'. cbn [run]. intros E.
    apply lcdPutString_written in E. exact E.
Qed.

Lemma fail_fast_witness :
  (exists w',
     run (fail_at 8) 0 (OpCommand LCD_CMD_CLEAR)
         (start (at_position (sample_driver 16 2 true) 3 1)) = Ret (-1) w' /\
     cursor (drv w') = mkCursor 3 1 /\ error (drv w') = EIO /\
     length (trace w') = 9%nat) /\
  (exists w',
     run (fail_at 20) 0 OpInit (start (sample_driver 16 2 true)) = Ret (-1) w' /\
     length (trace w') = 21%nat /\ error (drv w') = EIO) /\
  (exists w',
     run (fail_at 40) 0 OpInit (start (sample_driver 16 2 true)) = Ret (-1) w' /\
     length (trace w') = 41%nat /\ error (drv w') = EIO) /\
  (exists w',
     run (fail_at 30) 3 (OpPutString [72; 105])
         (start (sample_driver 16 2 false)) = Ret (-1) w' /\
     length (trace w') = 31%nat /\ error (drv w') = EIO) /\
  (exists w',
     run (fail_at 38) 3 (OpPutString [72; 105])
         (start (sample_driver 16 2 false)) = Ret (-1) w' /\
     cursor (drv w') = mkCursor 0 0 /\
     data_strobes (events w') = [(true, 72); (true, 128)] /\
     exists j n,
       (j <= 2)%nat /\
       cursor (drv w') =
       cursor (Nat.iter j lcdUpdateCursor (sample_driver 16 2 false)) /\
       data_strobes (events w') =
       string_strobes (sample_driver 16 2 false) (firstn j [72; 105]) ++
       firstn n (string_strobes (sample_driver 16 2 false)
                   (firstn 1 (skipn j [72; 105]))) /\
       (-1 = 0 -> j = 2%nat)).
Proof.
  split; [| split; [| split; [| split]]].
  - destruct (fail_fast (fail_at 8) 0) as (_ & _ & Hcur & Hpos & _).
    eexists. split; [vm_compute; reflexivity |].
    split; [| split; [| reflexivity]].
    + apply (Hcur (OpCommand LCD_CMD_CLEAR) LCD_CMD_CLEAR
                  (start (at_position (sample_driver 16 2 true) 3 1)) (-1) _
                  (or_introl eq_refl)).
      vm_compute; reflexivity.
    + refine (proj1 (Hpos (OpCommand LCD_CMD_CLEAR) LCD_CMD_CLEAR 0 0
                       (start (at_position (sample_driver 16 2 true) 3 1))
                       (-1) _ (or_introl eq_refl) _
                       _ 8%nat (BusIO false false true 16, -1) _ _ _ _));
        [vm_compute; reflexivity | vm_compute; reflexivity | reflexivity
         | reflexivity | left; vm_compute; lia].
  - destruct (fail_fast (fail_at 20) 0) as (_ & _ & _ & _ & Hinit & _).
    eexists. split; [vm_compute; reflexivity |]. split; [reflexivity |].
    refine (proj1 (Hinit (start (sample_driver 16 2 true)) (-1) _ _ 20%nat
                     (BusIO false false false 32, -1) _ _ _ _ _));
      [vm_compute; reflexivity | vm_compute; reflexivity | reflexivity
       | reflexivity | lia].
  - destruct (fail_fast (fail_at 40) 0) as (_ & Hlatch & _).
    eexists. split; [vm_compute; reflexivity |]. split; [reflexivity |].
    apply (Hlatch OpInit (sample_driver 16 2 true));
      vm_compute; reflexivity.
  - destruct (fail_fast (fail_at 30) 3) as (_ & Hlatch & _).
    eexists. split; [vm_compute; reflexivity |]. split; [reflexivity |].
    apply (Hlatch (OpPutString [72; 105]) (sample_driver 16 2 false));
      vm_compute; reflexivity.
  - destruct (fail_fast (fail_at 38) 3) as (_ & _ & _ & _ & _ & _ & _ & Hstr).
    eexists. split; [vm_compute; reflexivity |]. split; [reflexivity |].
    split; [reflexivity |].
    apply (Hstr [72; 105] (sample_driver 16 2 false) (-1)).
    vm_compute; reflexivity.
Defined.
